(** * botbot web app: form validation helpers and offline service worker

    A shallow embedding of [web_app/ux-improvements.js] and
    [web_app/service-worker.js], followed by the properties the
    specification states about them.

    Conventions.
    - A JavaScript string is a Rocq [string].  The regular expressions of the
      sources only use the ASCII classes [\d], [\D] and [\B]; every byte of a
      non-ASCII character is outside [\d] and [\w], exactly like the UTF-16
      code units of that character, so the byte view and the code-unit view
      agree on what is stripped and where a separator is inserted.
    - DOM elements are addressed by their path from the document root; the
      document is a tree that the helpers update in place.
    - Promises are run to completion: an async function is a state
      transformer that either returns or throws. *)

From Stdlib Require Import List String Ascii Bool Arith Lia.
Import ListNotations.
Open Scope string_scope.
Open Scope nat_scope.
Open Scope list_scope.
Set Warnings "-register-all".

(* ================================================================== *)
(** ** JavaScript strings and the regular expressions of the sources   *)
(* ================================================================== *)

Module Js.

(** [\d]: an ASCII decimal digit. *)
Definition is_digit (c : ascii) : bool :=
  let n := nat_of_ascii c in (48 <=? n) && (n <=? 57).

(** [\w]: [A-Za-z0-9_]. *)
Definition is_word (c : ascii) : bool :=
  let n := nat_of_ascii c in
  is_digit c || ((65 <=? n) && (n <=? 90)) || ((97 <=? n) && (n <=? 122))
  || (n =? 95).

(** [s.replace(/\D/g, '')]. *)
Fixpoint strip_non_digits (s : string) : string :=
  match s with
  | EmptyString => EmptyString
  | String c r =>
      if is_digit c then String c (strip_non_digits r) else strip_non_digits r
  end.

Definition all_digits (s : string) : bool :=
  forallb is_digit (list_ascii_of_string s).

Definition head (s : string) : option ascii :=
  match s with String c _ => Some c | EmptyString => None end.

Definition is_digit_opt (c : option ascii) : bool :=
  match c with Some c => is_digit c | None => false end.

Definition is_word_opt (c : option ascii) : bool :=
  match c with Some c => is_word c | None => false end.

(** [(\d{3})+(?!\d)] anchored at the start of [s]: three digits, then either
    another round (the greedy choice) or the negative lookahead. *)
Fixpoint triples_then_no_digit (s : string) : bool :=
  match s with
  | String a (String b (String c r)) =>
      is_digit a && is_digit b && is_digit c
      && (triples_then_no_digit r || negb (is_digit_opt (head r)))
  | _ => false
  end.

(** [\B] between [prev] (the character before the position, if any) and the
    rest [s]: both sides are word characters or neither is. *)
Definition non_boundary (prev : option ascii) (s : string) : bool :=
  Bool.eqb (is_word_opt prev) (is_word_opt (head s)).

(** [/\B(?=(\d{3})+(?!\d))/] matches (with empty width) at this position. *)
Definition separator_here (prev : option ascii) (s : string) : bool :=
  non_boundary prev s && triples_then_no_digit s.

(** [s.replace(/\B(?=(\d{3})+(?!\d))/g, ' ')]: every position of the original
    string is tried once, and a space is inserted where the pattern matches. *)
Fixpoint insert_separators (prev : option ascii) (s : string) : string :=
  let rest :=
    match s with
    | EmptyString => EmptyString
    | String c r => String c (insert_separators (Some c) r)
    end in
  if separator_here prev s then String " " rest else rest.

(** [function formatNumberWithSpaces(value)] *)
Definition formatNumberWithSpaces (value : string) : string :=
  insert_separators None value.

End Js.

(* ================================================================== *)
(** ** Scripts: state transformers that return or throw                *)
(* ================================================================== *)

Module Eff.

(** The exceptions the scripts can meet. *)
Inductive exn :=
| TypeError (msg : string)      (* null dereference, failed fetch, ... *)
| SyntaxError (msg : string)    (* a body that is not JSON *)
| DOMException (msg : string)   (* storage that cannot be opened *)
| Error (msg : string).         (* [throw new Error(msg)] *)

Inductive completion (A : Type) :=
| Return (a : A)
| Throw (e : exn).
Arguments Return {A} a.
Arguments Throw {A} e.

(** A script over a state [S]: it runs, changes the state, and returns or
    throws.  An [async] function is the same thing with its promise run to
    settlement: [Return] is fulfilment, [Throw] is rejection. *)
Definition Script (S A : Type) : Type := S -> S * completion A.

Definition ret {S A} (a : A) : Script S A := fun s => (s, Return a).
Definition throw {S A} (e : exn) : Script S A := fun s => (s, Throw e).
Definition bind {S A B} (m : Script S A) (k : A -> Script S B) : Script S B :=
  fun s =>
    match m s with
    | (s', Return a) => k a s'
    | (s', Throw e) => (s', Throw e)
    end.

(** [try { m } catch (error) { handler(error) }] *)
Definition try_catch {S A} (m : Script S A) (handler : exn -> Script S A)
  : Script S A :=
  fun s =>
    match m s with
    | (s', Return a) => (s', Return a)
    | (s', Throw e) => handler e s'
    end.

Declare Scope script_scope.
Delimit Scope script_scope with script.
Notation "x <- m ;; k" := (bind m (fun x => k))
  (at level 61, m at next level, right associativity) : script_scope.
Notation "m ;; k" := (bind m (fun _ => k))
  (at level 61, right associativity) : script_scope.

End Eff.

(* ================================================================== *)
(** ** The page: a DOM tree, the focused element, the scroll requests  *)
(* ================================================================== *)

Module Dom.
Import Eff.
Open Scope script_scope.

(** The part of an element the scripts read or write. [validity_valid] is
    [element.validity.valid], computed by the browser from the element's
    constraints; the scripts only read it. *)
Record Element := mkElement {
  localName : string;
  id : string;
  classList : list string;
  value : string;
  validity_valid : bool;
  textContent : string
}.

Inductive Node := Elem (e : Element) (children : list Node).

Definition element (n : Node) : Element := let 'Elem e _ := n in e.
Definition children (n : Node) : list Node := let 'Elem _ cs := n in cs.

(** An element handle: the child indices from the root down to it. [None] is
    JavaScript's [null]. *)
Definition path := list nat.

Definition path_eqb (p q : path) : bool :=
  if list_eq_dec Nat.eq_dec p q then true else false.

(** *** classList *)

Definition contains (l : list string) (c : string) : bool :=
  existsb (String.eqb c) l.
Definition add (l : list string) (c : string) : list string :=
  if contains l c then l else l ++ [c].
Definition remove (l : list string) (c : string) : list string :=
  filter (fun x => negb (String.eqb c x)) l.

Definition with_classList (f : list string -> list string) (e : Element) :=
  mkElement (localName e) (id e) (f (classList e)) (value e)
            (validity_valid e) (textContent e).
Definition with_textContent (t : string) (e : Element) :=
  mkElement (localName e) (id e) (classList e) (value e) (validity_valid e) t.
Definition with_value (v : string) (e : Element) :=
  mkElement (localName e) (id e) (classList e) v (validity_valid e)
            (textContent e).

(** *** Navigation *)

Fixpoint node_at (n : Node) (p : path) : option Node :=
  match p with
  | [] => Some n
  | i :: q =>
      match nth_error (children n) i with
      | Some c => node_at c q
      | None => None
      end
  end.

Definition elem_at (n : Node) (p : path) : option Element :=
  option_map element (node_at n p).

Fixpoint update_nth {A} (i : nat) (f : A -> A) (l : list A) : list A :=
  match l, i with
  | [], _ => []
  | x :: r, O => f x :: r
  | x :: r, S j => x :: update_nth j f r
  end.

(** In-place update of the element at [p]; the tree keeps its shape. *)
Fixpoint update_at (f : Element -> Element) (p : path) (n : Node) : Node :=
  match p with
  | [] => Elem (f (element n)) (children n)
  | i :: q => Elem (element n) (update_nth i (update_at f q) (children n))
  end.

(** [p] split into its parent's path and its index among the siblings. *)
Fixpoint split_last (p : path) : option (path * nat) :=
  match p with
  | [] => None
  | [i] => Some ([], i)
  | i :: q =>
      match split_last q with
      | Some (par, k) => Some (i :: par, k)
      | None => None
      end
  end.

Definition parent_of (p : path) : option path :=
  option_map fst (split_last p).

Definition next_sibling_of (d : Node) (p : path) : option path :=
  match split_last p with
  | Some (par, k) =>
      match node_at d (par ++ [S k]) with
      | Some _ => Some (par ++ [S k])
      | None => None
      end
  | None => None
  end.

(** The first node, in document order, of the subtree [n] (root included)
    whose element satisfies [sel]; the path is relative to [n]. *)
Fixpoint first_match (sel : Element -> bool) (n : Node) : option path :=
  let 'Elem e cs := n in
  if sel e then Some []
  else
    (fix among (cs : list Node) (i : nat) : option path :=
       match cs with
       | [] => None
       | c :: r =>
           match first_match sel c with
           | Some p => Some (i :: p)
           | None => among r (S i)
           end
       end) cs 0.

(** The same search among a list of sibling subtrees, numbered from [i]. *)
Fixpoint first_among (sel : Element -> bool) (cs : list Node) (i : nat)
  : option path :=
  match cs with
  | [] => None
  | c :: r =>
      match first_match sel c with
      | Some p => Some (i :: p)
      | None => first_among sel r (S i)
      end
  end.

(** All nodes of the subtree [n] (root included) satisfying [sel], in document
    order, as paths relative to [n]. *)
Fixpoint all_matches (sel : Element -> bool) (n : Node) : list path :=
  let 'Elem e cs := n in
  (if sel e then [[]] else [])
  ++ (fix among (cs : list Node) (i : nat) : list path :=
        match cs with
        | [] => []
        | c :: r => map (cons i) (all_matches sel c) ++ among r (S i)
        end) cs 0.

Fixpoint all_among (sel : Element -> bool) (cs : list Node) (i : nat)
  : list path :=
  match cs with
  | [] => []
  | c :: r => map (cons i) (all_matches sel c) ++ all_among sel r (S i)
  end.

(** [element.closest('.cls')]: the element itself or its nearest ancestor
    carrying the class.  [rp] is the path in reverse (deepest index first). *)
Fixpoint closest_rev (d : Node) (cls : string) (rp : list nat) : option path :=
  match elem_at d (rev rp) with
  | Some e =>
      if contains (classList e) cls then Some (rev rp)
      else match rp with
           | [] => None
           | _ :: up => closest_rev d cls up
           end
  | None => None
  end.

(** The classes of the error display, and the part of a tree that the error
    display does not touch: every element without those classes and without
    its text. *)
Definition is_error_class (c : string) : bool :=
  String.eqb c "input-error" || String.eqb c "show".

Definition erase (e : Element) : Element :=
  mkElement (localName e) (id e)
            (filter (fun c => negb (is_error_class c)) (classList e))
            (value e) (validity_valid e) "".

Fixpoint skeleton (n : Node) : Node :=
  let 'Elem e cs := n in Elem (erase e) (map skeleton cs).

(** A handle is live when it is [null] or designates a node of the page. *)
Definition live (d : Node) (h : option path) : Prop :=
  forall t, h = Some t -> exists e, elem_at d t = Some e.

(** The depth of a tree, the measure for induction on nodes. *)
Fixpoint depth (n : Node) : nat :=
  let 'Elem _ cs := n in
  S ((fix deepest (cs : list Node) : nat :=
        match cs with
        | [] => 0
        | c :: r => Nat.max (depth c) (deepest r)
        end) cs).

(** *** The page and the effects of a script on it *)

Record Page := mkPage {
  document : Node;
  activeElement : option path;     (* [document.activeElement] *)
  scrolledIntoView : list path     (* [scrollIntoView] calls, latest first *)
}.

Definition M (A : Type) : Type := Script Page A.

(** A property read [h.prop]; reading through [null] throws. *)
Definition read {A} (h : option path) (prop : Element -> A) : M A :=
  fun pg =>
    match h with
    | Some p =>
        match elem_at (document pg) p with
        | Some e => (pg, Return (prop e))
        | None => (pg, Throw (TypeError "stale element handle"))
        end
    | None => (pg, Throw (TypeError "Cannot read properties of null"))
    end.

(** A property write or a [classList] mutation on [h]. *)
Definition modify (h : option path) (f : Element -> Element) : M unit :=
  fun pg =>
    match h with
    | Some p =>
        (mkPage (update_at f p (document pg)) (activeElement pg)
                (scrolledIntoView pg), Return tt)
    | None => (pg, Throw (TypeError "Cannot read properties of null"))
    end.

Definition classList_add (h : option path) (c : string) : M unit :=
  modify h (with_classList (fun l => add l c)).
Definition classList_remove (h : option path) (c : string) : M unit :=
  modify h (with_classList (fun l => remove l c)).
Definition classList_contains (h : option path) (c : string) : M bool :=
  read h (fun e => contains (classList e) c).
Definition set_textContent (h : option path) (t : string) : M unit :=
  modify h (with_textContent t).
Definition set_value (h : option path) (v : string) : M unit :=
  modify h (with_value v).

(** [h.nextElementSibling] *)
Definition nextElementSibling (h : option path) : M (option path) :=
  fun pg =>
    match h with
    | Some p => (pg, Return (next_sibling_of (document pg) p))
    | None => (pg, Throw (TypeError "Cannot read properties of null"))
    end.

(** [h.parentElement] *)
Definition parentElement (h : option path) : M (option path) :=
  fun pg =>
    match h with
    | Some p => (pg, Return (parent_of p))
    | None => (pg, Throw (TypeError "Cannot read properties of null"))
    end.

(** [h.closest('.cls')] *)
Definition closest (h : option path) (cls : string) : M (option path) :=
  fun pg =>
    match h with
    | Some p => (pg, Return (closest_rev (document pg) cls (rev p)))
    | None => (pg, Throw (TypeError "Cannot read properties of null"))
    end.

Definition has_class (cls : string) (e : Element) : bool :=
  contains (classList e) cls.
Definition has_id (i : string) (e : Element) : bool := String.eqb i (id e).

(** [h.querySelector('.cls')]: the first descendant of [h] with the class. *)
Definition querySelector (h : option path) (cls : string) : M (option path) :=
  fun pg =>
    match h with
    | Some p =>
        match node_at (document pg) p with
        | Some n =>
            (pg, Return (option_map (app p)
                           (first_among (has_class cls) (children n) 0)))
        | None => (pg, Throw (TypeError "stale element handle"))
        end
    | None => (pg, Throw (TypeError "Cannot read properties of null"))
    end.

(** [document.getElementById(i)] *)
Definition getElementById (i : string) : M (option path) :=
  fun pg => (pg, Return (first_match (has_id i) (document pg))).

(** [document.querySelector('.cls')] *)
Definition document_querySelector (cls : string) : M (option path) :=
  fun pg => (pg, Return (first_match (has_class cls) (document pg))).

(** [document.querySelectorAll('.cls')] *)
Definition document_querySelectorAll (cls : string) : M (list path) :=
  fun pg => (pg, Return (all_matches (has_class cls) (document pg))).

(** [h.scrollIntoView(...)] *)
Definition scrollIntoView (h : option path) : M unit :=
  fun pg =>
    match h with
    | Some p =>
        (mkPage (document pg) (activeElement pg) (p :: scrolledIntoView pg),
         Return tt)
    | None => (pg, Throw (TypeError "Cannot read properties of null"))
    end.

Definition get_activeElement : M (option path) :=
  fun pg => (pg, Return (activeElement pg)).
Definition set_activeElement (p : path) : M unit :=
  fun pg => (mkPage (document pg) (Some p) (scrolledIntoView pg), Return tt).

End Dom.

(* ================================================================== *)
(** ** web_app/ux-improvements.js                                      *)
(* ================================================================== *)

Module Ux.
Import Eff Dom.
Open Scope script_scope.

(** [errorDiv && errorDiv.classList.contains('error-message')] *)
Definition is_error_message (errorDiv : option path) : M bool :=
  match errorDiv with
  | Some _ => classList_contains errorDiv "error-message"
  | None => ret false
  end.

(** [function validateField(field, errorMessage)] *)
Definition validateField (field : option path) (errorMessage : string)
  : M bool :=
  errorDiv <- nextElementSibling field ;;
  valid <- read field validity_valid ;;
  if negb valid then
    classList_add field "input-error" ;;
    shown <- is_error_message errorDiv ;;
    (if shown then
       set_textContent errorDiv errorMessage ;;
       classList_add errorDiv "show"
     else ret tt) ;;
    ret false
  else
    classList_remove field "input-error" ;;
    shown <- is_error_message errorDiv ;;
    (if shown then classList_remove errorDiv "show" else ret tt) ;;
    ret true.

(** [function clearFieldError(field)] *)
Definition clearFieldError (field : option path) : M unit :=
  classList_remove field "input-error" ;;
  errorDiv <- nextElementSibling field ;;
  found <- is_error_message errorDiv ;;
  errorDiv <-
    (if negb found then
       wrapper <- closest field "input-wrapper" ;;
       parent <- match wrapper with
                 | Some _ => ret wrapper
                 | None => parentElement field
                 end ;;
       match parent with
       | Some _ => querySelector parent "error-message"
       | None => ret errorDiv
       end
     else ret errorDiv) ;;
  found <- is_error_message errorDiv ;;
  if found then classList_remove errorDiv "show" else ret tt.

(** [function validateTicket(input)] *)
Definition validateTicket (input : option path) : M bool :=
  raw <- read input value ;;
  let value := Js.strip_non_digits raw in
  if negb (String.length value =? 11) then
    validateField input "Введите ровно 11 цифр"
  else
    validateField input "".

(** [function formatEvaluation(input)]; the empty string is the only falsy
    string.  (After the write the browser recomputes the validity of the
    field; nothing in the script reads it then.) *)
Definition formatEvaluation (input : option path) : M unit :=
  raw <- read input value ;;
  let value := Js.strip_non_digits raw in
  if negb (String.eqb value "") then
    set_value input (Js.formatNumberWithSpaces value)
  else ret tt.

(** [target.matches('input, select, textarea')] *)
Definition is_form_control (e : Element) : bool :=
  String.eqb (localName e) "input" || String.eqb (localName e) "select"
  || String.eqb (localName e) "textarea".

(** The capturing ['input'] listener of the document.  Every node of the page
    model is an [HTMLElement], so the [instanceof] guard always passes. *)
Definition on_input (target : path) : M unit :=
  form_control <- read (Some target) is_form_control ;;
  if form_control then clearFieldError (Some target) else ret tt.

(** The capturing ['focus'] listener of the document. *)
Definition on_focus (target : path) : M unit :=
  form_control <- read (Some target) is_form_control ;;
  if form_control then clearFieldError (Some target) else ret tt.

(** [h.focus()]: the element becomes the active element and, unless it
    already was, a focus event is dispatched, which the capturing listener
    above receives before [focus] returns.  (The element that loses the focus
    gets a blur event; its listeners are installed when the page has loaded,
    change neither the focus nor what the caller returns, and are left
    out.) *)
Definition focus (h : option path) : M unit :=
  match h with
  | Some p =>
      active <- get_activeElement ;;
      match active with
      | Some q =>
          if path_eqb p q then ret tt
          else set_activeElement p ;; on_focus p
      | None => set_activeElement p ;; on_focus p
      end
  | None => throw (TypeError "Cannot read properties of null")
  end.

(** [function scrollToFirstError()] *)
Definition scrollToFirstError : M unit :=
  firstError <- document_querySelector "input-error" ;;
  match firstError with
  | Some _ => scrollIntoView firstError ;; focus firstError
  | None => ret tt
  end.

(** The two locals of [validateForm] that the checks update. *)
Record checks := mkChecks {
  isValid : bool;
  errors : list (option path)
}.

(** [isValid = false; errors.push(field)] *)
Definition failed (c : checks) (field : option path) : checks :=
  mkChecks false (errors c ++ [field]).

(** The body of [items.forEach((item, idx) => ...)] *)
Definition validateItem (item : path) (c : checks) : M checks :=
  desc <- querySelector (Some item) "desc" ;;
  eval_field <- querySelector (Some item) "eval" ;;
  descValue <- read desc value ;;
  c <- (if String.eqb descValue "" then
          validateField desc "Введите описание предмета" ;;
          ret (failed c desc)
        else ret c) ;;
  evalValue <- read eval_field value ;;
  if String.eqb evalValue "" then
    validateField eval_field "Введите оценку" ;;
    ret (failed c eval_field)
  else ret c.

Fixpoint validateItems (items : list path) (c : checks) : M checks :=
  match items with
  | [] => ret c
  | item :: rest => c <- validateItem item c ;; validateItems rest c
  end.

(** [function validateForm()] *)
Definition validateForm : M bool :=
  let c := mkChecks true [] in
  dept <- getElementById "department" ;;
  deptValue <- read dept value ;;
  c <- (if String.eqb deptValue "" then
          validateField dept "Укажите подразделение" ;;
          ret (failed c dept)
        else ret c) ;;
  issue <- getElementById "issue" ;;
  issueValue <- read issue value ;;
  c <- (if String.eqb issueValue "" then
          validateField issue "Укажите номер заключения" ;;
          ret (failed c issue)
        else ret c) ;;
  ticket <- getElementById "ticket" ;;
  ticketOk <- validateTicket ticket ;;
  let c := if negb ticketOk then failed c ticket else c in
  items <- document_querySelectorAll "item-card" ;;
  c <- validateItems items c ;;
  (if negb (isValid c) && (0 <? List.length (errors c)) then
     scrollIntoView (hd None (errors c)) ;;
     focus (hd None (errors c))
   else ret tt) ;;
  ret (isValid c).

(** The error display of a field, as [validateField] switches it on: the
    field carries [input-error], or the error message next to it is shown. *)
Definition error_displayed (d : Node) (field : path) : bool :=
  match elem_at d field with
  | Some e => has_class "input-error" e
  | None => false
  end
  || match next_sibling_of d field with
     | Some s =>
         match elem_at d s with
         | Some e => has_class "error-message" e && has_class "show" e
         | None => false
         end
     | None => false
     end.

(** What the browser reports for the ticket field once the page has set
    [pattern="[0-9]{11}"] on it (the [DOMContentLoaded] listener does): an
    empty value is valid unless the field is required, and any other value has
    to be eleven digits and nothing else. *)
Definition ticket_validity (required : bool) (v : string) : bool :=
  if String.eqb v "" then negb required
  else (String.length v =? 11) && Js.all_digits v.

(** *** The checks of [validateForm], read off a document *)

(** [item.querySelector('.cls')] as a function of the document. *)
Definition card_field (d : Node) (item : path) (cls : string) : option path :=
  match node_at d item with
  | Some n => option_map (app item) (first_among (has_class cls) (children n) 0)
  | None => None
  end.

Definition empty_value (e : Element) : bool := String.eqb (value e) "".
Definition reported_invalid (e : Element) : bool := negb (validity_valid e).

(** The field [h], when it fails the check [fails]. *)
Definition failing_of (d : Node) (h : option path) (fails : Element -> bool)
  : list path :=
  match h with
  | Some p =>
      match elem_at d p with
      | Some e => if fails e then [p] else []
      | None => []
      end
  | None => []
  end.

Definition item_failing (d : Node) (item : path) : list path :=
  failing_of d (card_field d item "desc") empty_value
  ++ failing_of d (card_field d item "eval") empty_value.

(** The fields that fail, in the order in which [validateForm] checks them:
    the department and the issue number when empty, the ticket when
    [validateTicket] rejects it, then, card after card in document order, the
    description and the evaluation when empty. *)
Definition failing_fields (d : Node) : list path :=
  failing_of d (first_match (has_id "department") d) empty_value
  ++ failing_of d (first_match (has_id "issue") d) empty_value
  ++ failing_of d (first_match (has_id "ticket") d) reported_invalid
  ++ flat_map (item_failing d) (all_matches (has_class "item-card") d).

(** The page has the elements [validateForm] dereferences. *)
Definition form_complete (d : Node) : Prop :=
  first_match (has_id "department") d <> None
  /\ first_match (has_id "issue") d <> None
  /\ first_match (has_id "ticket") d <> None
  /\ forall item, In item (all_matches (has_class "item-card") d) ->
       card_field d item "desc" <> None /\ card_field d item "eval" <> None.

(** The locals of [validateForm] after the fields [l] failed. *)
Definition extend (c : checks) (l : list path) : checks :=
  mkChecks (isValid c && match l with [] => true | _ => false end)
           (errors c ++ map Some l).

(** [e'] is [e] with some classes removed and nothing else changed. *)
Definition faded (e' e : Element) : Prop :=
  localName e' = localName e /\ id e' = id e /\ value e' = value e
  /\ validity_valid e' = validity_valid e /\ textContent e' = textContent e
  /\ forall c, has_class c e' = true -> has_class c e = true.

End Ux.

(* ================================================================== *)
(** ** web_app/service-worker.js                                       *)
(* ================================================================== *)

Module Sw.
Import Eff.
Open Scope script_scope.

(** *** The worker's environment *)

(** A JSON document, kept opaque. *)
Definition Json := string.

Record Request := mkRequest {
  method : string;
  url : string;
  body : option Json
}.

(** A response: its status and what [response.json()] makes of its body
    ([None] when the body is not JSON). *)
Record Response := mkResponse {
  status : nat;
  json : option Json
}.

(** [response.ok] *)
Definition ok (r : Response) : bool := (200 <=? status r) && (status r <=? 299).

Inductive FetchOutcome :=
| NetworkError                  (* the transport failed: [fetch] rejects *)
| Responded (r : Response).

(** One named cache: request URL to stored response, at most one entry per
    URL. *)
Definition Cache := list (string * Response).

Record PendingSubmission := mkPending {
  id : nat;
  data : Json
}.

(** The database ['ReportsDB']: either it cannot be opened, or it holds the
    ['pending'] object store, its records in key order. *)
Inductive Storage :=
| Unavailable
| Stored (pending : list PendingSubmission).

Record World := mkWorld {
  location_pathname : string;              (* [self.location.pathname] *)
  caches : list (string * Cache);          (* [CacheStorage], creation order *)
  network : nat -> Request -> FetchOutcome; (* answer to the n-th fetch *)
  sent : list Request;                     (* fetches so far, latest first *)
  indexedDB : Storage;
  console : list string;                   (* [console.error] lines *)
  skipWaitingFlag : bool;
  claimed : bool                           (* [clients.claim()] was called *)
}.

Definition M (A : Type) : Type := Script World A.

Definition set_caches (c : list (string * Cache)) (w : World) : World :=
  mkWorld (location_pathname w) c (network w) (sent w) (indexedDB w)
          (console w) (skipWaitingFlag w) (claimed w).
Definition set_sent (l : list Request) (w : World) : World :=
  mkWorld (location_pathname w) (caches w) (network w) l (indexedDB w)
          (console w) (skipWaitingFlag w) (claimed w).
Definition set_indexedDB (d : Storage) (w : World) : World :=
  mkWorld (location_pathname w) (caches w) (network w) (sent w) d
          (console w) (skipWaitingFlag w) (claimed w).
Definition set_console (l : list string) (w : World) : World :=
  mkWorld (location_pathname w) (caches w) (network w) (sent w) (indexedDB w)
          l (skipWaitingFlag w) (claimed w).
Definition set_skipWaitingFlag (b : bool) (w : World) : World :=
  mkWorld (location_pathname w) (caches w) (network w) (sent w) (indexedDB w)
          (console w) b (claimed w).
Definition set_claimed (b : bool) (w : World) : World :=
  mkWorld (location_pathname w) (caches w) (network w) (sent w) (indexedDB w)
          (console w) (skipWaitingFlag w) b.

(** The network's answer to one request; the request is logged. *)
Definition request (req : Request) : M FetchOutcome :=
  fun w =>
    (set_sent (req :: sent w) w,
     Return (network w (List.length (sent w)) req)).

(** [fetch(request)]: a transport failure rejects, any response fulfils. *)
Definition fetch (req : Request) : M Response :=
  outcome <- request req ;;
  match outcome with
  | Responded r => ret r
  | NetworkError => throw (TypeError "Failed to fetch")
  end.

Definition GET (u : string) : Request := mkRequest "GET" u None.

(** *** CacheStorage *)

Fixpoint lookup {A} (k : string) (l : list (string * A)) : option A :=
  match l with
  | [] => None
  | (k', v) :: r => if String.eqb k k' then Some v else lookup k r
  end.

Fixpoint replace {A} (k : string) (v : A) (l : list (string * A))
  : list (string * A) :=
  match l with
  | [] => []
  | (k', v') :: r =>
      if String.eqb k k' then (k', v) :: r else (k', v') :: replace k v r
  end.

(** Store [v] under [k]: in place when the key exists, at the end otherwise. *)
Definition put {A} (k : string) (v : A) (l : list (string * A))
  : list (string * A) :=
  match lookup k l with
  | Some _ => replace k v l
  | None => l ++ [(k, v)]
  end.

Definition remove {A} (k : string) (l : list (string * A))
  : list (string * A) :=
  filter (fun kv => negb (String.eqb k (fst kv))) l.

(** [caches.open(name)]: the cache is created, empty, when it does not
    exist.  The handle of a cache is its name. *)
Definition caches_open (name : string) : M string :=
  fun w =>
    match lookup name (caches w) with
    | Some _ => (w, Return name)
    | None => (set_caches (caches w ++ [(name, [])]) w, Return name)
    end.

(** [caches.keys()] *)
Definition caches_keys : M (list string) :=
  fun w => (w, Return (map fst (caches w))).

(** [caches.delete(name)] *)
Definition caches_delete (name : string) : M bool :=
  fun w =>
    match lookup name (caches w) with
    | Some _ => (set_caches (remove name (caches w)) w, Return true)
    | None => (w, Return false)
    end.

(** [cache.match(request)]: only [GET] requests have cache entries. *)
Definition cache_match (c : Cache) (req : Request) : option Response :=
  if String.eqb (method req) "GET" then lookup (url req) c else None.

(** [caches.match(request)]: the caches are tried in creation order. *)
Fixpoint storage_match (cs : list (string * Cache)) (req : Request)
  : option Response :=
  match cs with
  | [] => None
  | (_, c) :: r =>
      match cache_match c req with
      | Some resp => Some resp
      | None => storage_match r req
      end
  end.

Definition caches_match (req : Request) : M (option Response) :=
  fun w => (w, Return (storage_match (caches w) req)).

(** The fetching half of [cache.addAll]: every URL is requested. *)
Fixpoint request_all (urls : list string) : M (list (string * FetchOutcome)) :=
  match urls with
  | [] => ret []
  | u :: rest =>
      o <- request (GET u) ;;
      os <- request_all rest ;;
      ret ((u, o) :: os)
  end.

(** A response [addAll] accepts: the transport worked and the status is
    [ok]. *)
Definition usable (o : FetchOutcome) : option Response :=
  match o with
  | Responded r => if ok r then Some r else None
  | NetworkError => None
  end.

Fixpoint all_usable (os : list (string * FetchOutcome))
  : option (list (string * Response)) :=
  match os with
  | [] => Some []
  | (u, o) :: rest =>
      match usable o, all_usable rest with
      | Some r, Some rs => Some ((u, r) :: rs)
      | _, _ => None
      end
  end.

Definition put_all (entries : list (string * Response)) (c : Cache) : Cache :=
  fold_left (fun acc e => put (fst e) (snd e) acc) entries c.

(** [cache.addAll(urls)]: all responses are stored, or the call rejects and
    none is. *)
Definition cache_addAll (cache : string) (urls : list string) : M unit :=
  outcomes <- request_all urls ;;
  match all_usable outcomes with
  | Some entries =>
      fun w =>
        match lookup cache (caches w) with
        | Some c =>
            (set_caches (replace cache (put_all entries c) (caches w)) w,
             Return tt)
        | None => (w, Throw (TypeError "cache was deleted"))
        end
  | None => throw (TypeError "Request failed")
  end.

(** *** The script's constants *)

Definition VERSION : string := "2322".
Definition CACHE_NAME : string := ("sklad-bot-" ++ VERSION)%string.

(** [pathname.replace(/service-worker\.js.*$/, '')]: the path is cut at the
    first occurrence of the worker's file name (a URL path holds no line
    terminator, so [.*$] always reaches the end). *)
Fixpoint cut_worker_file (s : string) : string :=
  if String.prefix "service-worker.js" s then ""
  else match s with
       | EmptyString => EmptyString
       | String c r => String c (cut_worker_file r)
       end.

Fixpoint endsWith_slash (s : string) : bool :=
  match s with
  | EmptyString => false
  | String c EmptyString => Ascii.eqb c "/"
  | String _ r => endsWith_slash r
  end.

Definition swPath (w : World) : string := cut_worker_file (location_pathname w).
Definition BASE_PATH (w : World) : string :=
  if endsWith_slash (swPath w) then swPath w else (swPath w ++ "/")%string.
Definition urlsToCache (w : World) : list string :=
  [BASE_PATH w; (BASE_PATH w ++ "index.html")%string].

(** *** Listeners *)

(** [self.skipWaiting()] *)
Definition skipWaiting : M unit :=
  fun w => (set_skipWaitingFlag true w, Return tt).

(** [self.clients.claim()] *)
Definition clients_claim : M unit :=
  fun w => (set_claimed true w, Return tt).

(** The ['install'] listener.  [skipWaiting] is called synchronously; the
    completion of the script is the settlement of the promise handed to
    [event.waitUntil]. *)
Definition on_install : M unit :=
  skipWaiting ;;
  urls <- (fun w => (w, Return (urlsToCache w))) ;;
  cache <- caches_open CACHE_NAME ;;
  cache_addAll cache urls.

(** [Promise.all(cacheNames.map(cacheName => ...))] of the ['activate']
    listener. *)
Fixpoint delete_stale (cacheNames : list string) : M unit :=
  match cacheNames with
  | [] => ret tt
  | cacheName :: rest =>
      (if negb (String.eqb cacheName CACHE_NAME) then
         caches_delete cacheName ;; ret tt
       else ret tt) ;;
      delete_stale rest
  end.

(** The ['activate'] listener. *)
Definition on_activate : M unit :=
  clients_claim ;;
  cacheNames <- caches_keys ;;
  delete_stale cacheNames.

(** The ['fetch'] listener: the completion is the settlement of the promise
    handed to [event.respondWith]. *)
Definition on_fetch (request : Request) : M Response :=
  response <- caches_match request ;;
  match response with
  | Some r => ret r
  | None => fetch request
  end.


(** *** IndexedDB and background sync *)

(** The JavaScript values that flow through [syncPendingReports]. *)
Inductive value :=
| VUndefined
| VDatabase                               (* the open [IDBDatabase] *)
| VArray (items : list PendingSubmission)
| VRequest (result : value)               (* an [IDBRequest] and the result
                                             its success event will carry *)
| VPromise (settlement : completion value).

(** [await v]: a promise yields its settlement; any other value, having no
    [then] method, is yielded as it is. *)
Definition await (v : value) : M value :=
  match v with
  | VPromise (Return x) => ret x
  | VPromise (Throw e) => throw e
  | _ => ret v
  end.

(** [for (const item of v)]: only an array is iterable here. *)
Definition iterate (v : value) : M (list PendingSubmission) :=
  match v with
  | VArray items => ret items
  | _ => throw (TypeError "pending is not iterable")
  end.

(** [function openDB()]: the promise resolves with [request.result] on
    success and rejects with [request.error] on error.  A database opened for
    the first time gets its ['pending'] store from [onupgradeneeded], which is
    [Stored []] here. *)
Definition openDB : M value :=
  fun w =>
    match indexedDB w with
    | Stored _ => (w, Return (VPromise (Return VDatabase)))
    | Unavailable =>
        (w, Return (VPromise (Throw (DOMException "cannot open ReportsDB"))))
    end.

(** [db.transaction('pending', 'readonly').objectStore('pending').getAll()]:
    IndexedDB answers with an [IDBRequest]. *)
Definition objectStore_getAll (db : value) : M value :=
  fun w =>
    match db, indexedDB w with
    | VDatabase, Stored pending => (w, Return (VRequest (VArray pending)))
    | _, _ => (w, Throw (TypeError "db.transaction is not a function"))
    end.

Definition without (key : nat) (l : list PendingSubmission)
  : list PendingSubmission :=
  filter (fun r => negb (id r =? key)) l.

(** [db.transaction('pending', 'readwrite').objectStore('pending').delete(key)]:
    the record is removed when the transaction runs; deleting an absent key
    is not an error. *)
Definition objectStore_delete (db : value) (key : nat) : M value :=
  fun w =>
    match db, indexedDB w with
    | VDatabase, Stored pending =>
        (set_indexedDB (Stored (without key pending)) w,
         Return (VRequest VUndefined))
    | _, _ => (w, Throw (TypeError "db.transaction is not a function"))
    end.

(** [console.error(line, error)] *)
Definition console_error (line : string) : M unit :=
  fun w => (set_console (line :: console w) w, Return tt).

Definition POST_generate (data : Json) : Request :=
  mkRequest "POST" "/generate" (Some data).

(** [async function sendReport(data)] *)
Definition sendReport (data : Json) : M Json :=
  response <- fetch (POST_generate data) ;;
  if negb (ok response) then throw (Error "Failed to send report")
  else
    match json response with
    | Some v => ret v
    | None => throw (SyntaxError "Unexpected token in JSON")
    end.

(** The body of the [for] loop of [syncPendingReports], for each [item]. *)
Fixpoint sync_each (db : value) (pending : list PendingSubmission) : M unit :=
  match pending with
  | [] => ret tt
  | item :: rest =>
      try_catch
        (sendReport (data item) ;;
         deleted <- objectStore_delete db (id item) ;;
         await deleted ;;
         ret tt)
        (fun error => console_error "Failed to sync report:") ;;
      sync_each db rest
  end.

(** [async function syncPendingReports()] *)
Definition syncPendingReports : M unit :=
  opening <- openDB ;;
  db <- await opening ;;
  got <- objectStore_getAll db ;;
  pending <- await got ;;
  items <- iterate pending ;;
  sync_each db items.

(** The ['sync'] listener. *)
Definition on_sync (tag : string) : M unit :=
  if String.eqb tag "sync-reports" then syncPendingReports else ret tt.

(** *** The worker's life cycle, as the browser drives it *)

(** The registration: the version tag of the worker that controls the
    pages, and of the one installed but waiting. *)
Record Registration := mkRegistration {
  active : option string;
  waiting : option string
}.

(** The browser installs this script: the install event is dispatched; when
    the promise given to [waitUntil] rejects the new worker is discarded and
    the registration is left as it was; otherwise the worker is installed,
    and, [skipWaiting] having been called, activated at once. *)
Definition install_worker (reg : Registration) : M Registration :=
  fun w =>
    match on_install w with
    | (w1, Throw _) => (w1, Return reg)
    | (w1, Return _) =>
        if skipWaitingFlag w1 then
          match on_activate w1 with
          | (w2, _) => (w2, Return (mkRegistration (Some VERSION) None))
          end
        else (w1, Return (mkRegistration (active reg) (Some VERSION)))
    end.

(** *** Read off a world *)

(** The answers [request_all] collects when the next fetch is the [n]-th. *)
Fixpoint outcomes_from (net : nat -> Request -> FetchOutcome) (n : nat)
  (urls : list string) : list (string * FetchOutcome) :=
  match urls with
  | [] => []
  | u :: rest => (u, net n (GET u)) :: outcomes_from net (S n) rest
  end.

(** Precaching fails: some listed asset gets no usable answer. *)
Definition precache_fails (w : World) : Prop :=
  exists k u,
    nth_error (urlsToCache w) k = Some u
    /\ usable (network w (List.length (sent w) + k) (GET u)) = None.

(** The name [name] is stale and designates the entry [kv]. *)
Definition stale_hit (kv : string * Cache) (name : string) : bool :=
  String.eqb name (fst kv) && negb (String.eqb name CACHE_NAME).

(** An answer with which [sendReport] returns. *)
Definition accepted (o : FetchOutcome) : bool :=
  match o with
  | Responded r => ok r && match json r with Some _ => true | None => false end
  | NetworkError => false
  end.

(** The keys of the records, among [items] sent in this order from the
    [n]-th fetch on, whose delivery is accepted. *)
Fixpoint delivered (net : nat -> Request -> FetchOutcome) (n : nat)
  (items : list PendingSubmission) : list nat :=
  match items with
  | [] => []
  | item :: rest =>
      (if accepted (net n (POST_generate (data item))) then [id item] else [])
      ++ delivered net (S n) rest
  end.

End Sw.

(* ================================================================== *)
(** ** Reference definitions, in the specification's words             *)
(* ================================================================== *)

Module Spec.

(** The specification's wording: a space every three digits, counted from the
    right, so a digit is followed by a space exactly when the number of digits
    after it is a positive multiple of three. *)
Fixpoint group_from_right (s : string) : string :=
  match s with
  | EmptyString => EmptyString
  | String c r =>
      String c
        (if (0 <? String.length r) && (String.length r mod 3 =? 0)
         then String " " (group_from_right r)
         else group_from_right r)
  end.

End Spec.

(* ================================================================== *)
(** ** Concrete pages and worlds                                       *)
(* ================================================================== *)

Module Example.
Import Dom.

Definition text_input (i : string) (classes : list string) (v : string)
  (valid : bool) : Node :=
  Elem (mkElement "input" i classes v valid "") [].

Definition error_div (classes : list string) (text : string) : Node :=
  Elem (mkElement "div" "" ("error-message" :: classes) "" true text) [].

Definition item_card (desc eval : string) : Node :=
  Elem (mkElement "div" "" ["item-card"] "" true "")
       [text_input "" ["desc"] desc true; error_div [] "";
        text_input "" ["eval"] eval true; error_div [] ""].

(** A report form: department, issue and ticket, each followed by its error
    message, then the item cards. *)
Definition form (dept issue : string) (ticket : Node) (items : list Node)
  : Node :=
  Elem (mkElement "form" "report-form" [] "" true "")
       ([text_input "department" [] dept true; error_div [] "";
         text_input "issue" [] issue true; error_div [] "";
         ticket; error_div [] ""] ++ items).

(** The same form with the issue number placed before the department, both
    left empty. *)
Definition reordered_form : Node :=
  Elem (mkElement "form" "report-form" [] "" true "")
       [text_input "issue" [] "" true; error_div [] "";
        text_input "department" [] "" true; error_div [] "";
        text_input "ticket" [] "12345678901" true; error_div [] ""].

Definition page (d : Node) : Page := mkPage d None [].

(** The ticket field is the child 4 of the form, the first item card the
    child 6; a card's description is its child 0, its evaluation its
    child 2. *)
Definition ticket_path : path := [4].

(** A ticket typed with punctuation.  It holds eleven digits, and the pattern
    [[0-9]{11}] that the page sets on the field makes the browser report it
    invalid. *)
Definition formatted_ticket : Node :=
  text_input "ticket" [] "+7 (911) 234-56-78"
             (Ux.ticket_validity true "+7 (911) 234-56-78").

(** A ticket of eleven digits and nothing else. *)
Definition valid_ticket : Node :=
  text_input "ticket" [] "12345678901"
             (Ux.ticket_validity true "12345678901").

(** An empty ticket field that is not required: the browser reports it
    valid. *)
Definition empty_ticket : Node :=
  text_input "ticket" [] "" (Ux.ticket_validity false "").

(** A field that shows an error: it is highlighted and its message is
    visible. *)
Definition flagged_page : Page :=
  page (Elem (mkElement "div" "" ["input-wrapper"] "" true "")
             [text_input "ticket" ["input-error"] "12345"
                         (Ux.ticket_validity true "12345");
              error_div ["show"] "Введите ровно 11 цифр"]).

(** *** Worlds of the service worker *)

Definition ok_json : Sw.FetchOutcome :=
  Sw.Responded (Sw.mkResponse 200 (Some "{}")).

Definition world (net : nat -> Sw.Request -> Sw.FetchOutcome)
  (cs : list (string * Sw.Cache)) (db : Sw.Storage) : Sw.World :=
  Sw.mkWorld "/app/service-worker.js" cs net [] db [] false false.

(** Three queued submissions, and a server that fails the second request. *)
Definition three_queued : list Sw.PendingSubmission :=
  [Sw.mkPending 1 "r1"; Sw.mkPending 2 "r2"; Sw.mkPending 3 "r3"].

Definition second_fails (n : nat) (_ : Sw.Request) : Sw.FetchOutcome :=
  if n =? 1 then Sw.Responded (Sw.mkResponse 500 None) else ok_json.

Definition always_ok (_ : nat) (_ : Sw.Request) : Sw.FetchOutcome := ok_json.

(** A server that answers 200 with a body that is not JSON. *)
Definition ok_without_json (_ : nat) (_ : Sw.Request) : Sw.FetchOutcome :=
  Sw.Responded (Sw.mkResponse 200 None).

(** The cache of an older version, still in the storage. *)
Definition old_cache : string * Sw.Cache :=
  ("sklad-bot-2321",
   [("/app/", Sw.mkResponse 200 None);
    ("/app/index.html", Sw.mkResponse 200 None)]).

(** The storage once this version is active. *)
Definition current_cache : string * Sw.Cache :=
  (Sw.CACHE_NAME,
   [("/app/", Sw.mkResponse 200 None);
    ("/app/index.html", Sw.mkResponse 200 None)]).

(** A server that serves every asset. *)
Definition serves_all (_ : nat) (_ : Sw.Request) : Sw.FetchOutcome :=
  Sw.Responded (Sw.mkResponse 200 None).

(** A server that has lost [index.html]. *)
Definition index_missing (_ : nat) (req : Sw.Request) : Sw.FetchOutcome :=
  if String.eqb (Sw.url req) "/app/index.html"
  then Sw.Responded (Sw.mkResponse 404 None)
  else Sw.Responded (Sw.mkResponse 200 None).

End Example.

(* ================================================================== *)
(** ** Further readings of a string                                    *)
(* ================================================================== *)

Module Text.

Definition is_space (c : ascii) : bool := Ascii.eqb c " ".

(** The string without its spaces. *)
Fixpoint without_spaces (s : string) : string :=
  match s with
  | EmptyString => EmptyString
  | String c r =>
      if is_space c then without_spaces r else String c (without_spaces r)
  end.

(** No position of [s], the character before it being [prev], matches
    [/\B(?=(\d{3})+(?!\d))/]. *)
Fixpoint settled (prev : option ascii) (s : string) : Prop :=
  Js.separator_here prev s = false
  /\ match s with
     | EmptyString => True
     | String c r => settled (Some c) r
     end.

(** What [Spec.group_from_right] puts after a digit that [r] follows. *)
Definition after_digit (r : string) : string :=
  if (0 <? String.length r) && (String.length r mod 3 =? 0)
  then String " " (Spec.group_from_right r)
  else Spec.group_from_right r.

End Text.

(* ================================================================== *)
(** ** What a script leaves alone; the page after [validateField]      *)
(* ================================================================== *)

Module Frame.
Import Eff Dom.

(** The script changes nothing but the error display, however it ends. *)
Definition keeps_form {A} (m : M A) : Prop :=
  forall pg, skeleton (document (fst (m pg))) = skeleton (document pg).


(** The highlight [validateField] gives a field the browser reports valid or
    not. *)
Definition marked (valid : bool) : Element -> Element :=
  with_classList
    (fun l => if valid then remove l "input-error" else add l "input-error").

(** The document after [validateField(field, msg)] on a field whose validity
    is [valid]. *)
Definition after_validateField (d : Node) (field : path) (valid : bool)
  (msg : string) : Node :=
  let d1 := update_at (marked valid) field d in
  match next_sibling_of d field with
  | Some s =>
      match elem_at d s with
      | Some es =>
          if has_class "error-message" es then
            if valid then
              update_at (with_classList (fun l => remove l "show")) s d1
            else
              update_at (with_classList (fun l => add l "show")) s
                        (update_at (with_textContent msg) s d1)
          else d1
      | None => d1
      end
  | None => d1
  end.

(** The handle designates an element that carries [error-message]. *)
Definition is_message (d : Node) (h : option path) : bool :=
  match h with
  | Some t =>
      match elem_at d t with
      | Some e => has_class "error-message" e
      | None => false
      end
  | None => false
  end.

(** The element [clearFieldError] takes for the error message of [field]:
    the next sibling when it is an error message; otherwise the first error
    message inside the closest [input-wrapper], or inside the parent when
    there is no such wrapper. *)
Definition error_div_of (d : Node) (field : path) : option path :=
  let sibling := next_sibling_of d field in
  if is_message d sibling then sibling
  else
    match match closest_rev d "input-wrapper" (rev field) with
          | Some wrapper => Some wrapper
          | None => parent_of field
          end with
    | Some parent =>
        match node_at d parent with
        | Some n =>
            option_map (app parent)
              (first_among (has_class "error-message") (children n) 0)
        | None => None
        end
    | None => sibling
    end.

(** The document after [clearFieldError(field)]. *)
Definition after_clearFieldError (d : Node) (field : path) : Node :=
  let d1 :=
    update_at (with_classList (fun l => remove l "input-error")) field d in
  match error_div_of d1 field with
  | Some t =>
      if is_message d1 (Some t)
      then update_at (with_classList (fun l => remove l "show")) t d1
      else d1
  | None => d1
  end.

End Frame.

(* ================================================================== *)
(** ** The department remembered across page loads                     *)
(* ================================================================== *)

Module Init.
Import Eff Dom.
Open Scope script_scope.

(** A page together with the origin's [localStorage], which outlives the
    page. *)
Record Session := mkSession {
  page : Page;
  localStorage : list (string * string)
}.

Definition S (A : Type) : Type := Script Session A.

(** A script of the page, run in the session. *)
Definition on_page {A} (m : Dom.M A) : S A :=
  fun s =>
    match m (page s) with
    | (pg', r) => (mkSession pg' (localStorage s), r)
    end.

(** [localStorage.getItem(key)]: [null] for a key that was never set. *)
Definition getItem (key : string) : S (option string) :=
  fun s => (s, Return (Sw.lookup key (localStorage s))).

(** [localStorage.setItem(key, v)] *)
Definition setItem (key v : string) : S unit :=
  fun s => (mkSession (page s) (Sw.put key v (localStorage s)), Return tt).

(** The ['change'] listener of the department field:
    [localStorage.setItem('last_department', this.value)]. *)
Definition on_department_change (this : path) : S unit :=
  v <- on_page (read (Some this) value) ;;
  setItem "last_department" v.

(** Step 5 of the [DOMContentLoaded] listener, "auto-fill department from
    localStorage": [lastDept && !deptInput.value] reads the field only when a
    non-empty value is stored. *)
Definition restore_department : S unit :=
  deptInput <- on_page (getElementById "department") ;;
  match deptInput with
  | Some _ =>
      lastDept <- getItem "last_department" ;;
      match lastDept with
      | Some last =>
          if negb (String.eqb last "") then
            current <- on_page (read deptInput value) ;;
            if String.eqb current "" then on_page (set_value deptInput last)
            else ret tt
          else ret tt
      | None => ret tt
      end
  | None => ret tt
  end.

End Init.

(* ================================================================== *)
(** * Properties                                                        *)
(* ================================================================== *)

(** ** Number formatting *)

Section Formatting.
Import Js Spec.

Lemma strip_insert_separators (prev : option ascii) (s : string) :
  strip_non_digits (insert_separators prev s) = strip_non_digits s.
Proof.
  revert prev; induction s as [|c r IH]; intros prev.
  - cbn. destruct (separator_here prev ""); reflexivity.
  - cbn [insert_separators].
    destruct (separator_here prev (String c r)); cbn;
      rewrite IH; reflexivity.
Qed.

Lemma all_digits_cons (c : ascii) (r : string) :
  all_digits (String c r) = is_digit c && all_digits r.
Proof. reflexivity. Qed.

Lemma strip_all_digits (s : string) :
  all_digits s = true -> strip_non_digits s = s.
Proof.
  induction s as [|c r IH]; intros H; [reflexivity|].
  rewrite all_digits_cons in H. apply andb_prop in H as [Hc Hr].
  cbn. rewrite Hc, (IH Hr). reflexivity.
Qed.

Lemma strip_formatNumberWithSpaces (s : string) :
  strip_non_digits (formatNumberWithSpaces s) = strip_non_digits s.
Proof. apply strip_insert_separators. Qed.

Lemma is_digit_is_word (c : ascii) : is_digit c = true -> is_word c = true.
Proof. intros H. unfold is_word. rewrite H. reflexivity. Qed.

Lemma triples_all_digits_aux (n : nat) :
  forall s, String.length s <= n -> all_digits s = true ->
  triples_then_no_digit s
  = (0 <? String.length s) && (String.length s mod 3 =? 0).
Proof.
  induction n as [n IH] using lt_wf_ind. intros s Hlen Hd.
  destruct s as [|a [|b [|c r]]]; try reflexivity.
  rewrite !all_digits_cons in Hd.
  apply andb_prop in Hd as [Ha Hd]. apply andb_prop in Hd as [Hb Hd].
  apply andb_prop in Hd as [Hc Hr].
  cbn [triples_then_no_digit]. rewrite Ha, Hb, Hc. cbn [andb].
  cbn [String.length] in Hlen.
  rewrite (IH (String.length r)) by (auto; lia).
  cbn [String.length].
  replace (S (S (S (String.length r)))) with (String.length r + 1 * 3) by lia.
  rewrite Nat.Div0.mod_add.
  destruct r as [|d r']; [reflexivity|].
  rewrite all_digits_cons in Hr. apply andb_prop in Hr as [Hd' _].
  cbn [head is_digit_opt]. rewrite Hd'. cbn [negb String.length].
  rewrite orb_false_r. reflexivity.
Qed.

Lemma triples_all_digits (s : string) :
  all_digits s = true ->
  triples_then_no_digit s
  = (0 <? String.length s) && (String.length s mod 3 =? 0).
Proof. apply (triples_all_digits_aux (String.length s)); lia. Qed.

Lemma insert_separators_all_digits (c : ascii) (r : string) :
  is_digit c = true -> all_digits r = true ->
  insert_separators (Some c) r
  = if (0 <? String.length r) && (String.length r mod 3 =? 0)
    then String " " (group_from_right r)
    else group_from_right r.
Proof.
  revert c; induction r as [|d r IH]; intros c Hc Hr.
  - cbn. unfold separator_here. cbn. rewrite andb_false_r. reflexivity.
  - pose proof (triples_all_digits _ Hr) as Ht.
    rewrite all_digits_cons in Hr. apply andb_prop in Hr as [Hd Hr].
    cbn [insert_separators]. unfold separator_here, non_boundary.
    cbn [head is_word_opt].
    rewrite (is_digit_is_word _ Hc), (is_digit_is_word _ Hd). cbn [Bool.eqb].
    rewrite Ht. cbn [andb].
    rewrite (IH d Hd Hr). reflexivity.
Qed.

Lemma formatNumberWithSpaces_groups (s : string) :
  all_digits s = true -> formatNumberWithSpaces s = group_from_right s.
Proof.
  destruct s as [|c r]; intros H; [reflexivity|].
  rewrite all_digits_cons in H. apply andb_prop in H as [Hc Hr].
  unfold formatNumberWithSpaces. cbn [insert_separators].
  unfold separator_here, non_boundary. cbn [head is_word_opt].
  rewrite (is_digit_is_word _ Hc). cbn [Bool.eqb andb].
  rewrite (insert_separators_all_digits c r Hc Hr). reflexivity.
Qed.

(** C3. [formatNumberWithSpaces] groups the digits by three from the right
    (["15000"] gives ["15 000"], ["1000000"] gives ["1 000 000"], and on every
    digit-only string it is the grouping of the specification), and on a
    digit-only string, stripping the non-digits of the result and formatting
    again gives the same result. *)
Theorem formatNumberWithSpaces_grouping_idempotent :
  formatNumberWithSpaces "15000" = "15 000"
  /\ formatNumberWithSpaces "1000000" = "1 000 000"
  /\ (forall s, all_digits s = true ->
        formatNumberWithSpaces s = group_from_right s)
  /\ (forall s, all_digits s = true ->
        formatNumberWithSpaces (strip_non_digits (formatNumberWithSpaces s))
        = formatNumberWithSpaces s).
Proof.
  repeat split; try reflexivity.
  - apply formatNumberWithSpaces_groups.
  - intros s H.
    rewrite strip_formatNumberWithSpaces, (strip_all_digits s H).
    reflexivity.
Qed.

Lemma formatNumberWithSpaces_grouping_idempotent_witness :
  all_digits "1234567" = true
  /\ formatNumberWithSpaces "1234567" = "1 234 567"
  /\ formatNumberWithSpaces
       (strip_non_digits (formatNumberWithSpaces "1234567"))
     = formatNumberWithSpaces "1234567".
Proof.
  split; [reflexivity|]. split.
  - rewrite (proj1 (proj2 (proj2 formatNumberWithSpaces_grouping_idempotent))
               "1234567" eq_refl).
    reflexivity.
  - apply (proj2 (proj2 (proj2 formatNumberWithSpaces_grouping_idempotent))).
    reflexivity.
Defined.

End Formatting.

(** ** The DOM tree *)

Section DomFacts.
Import Eff Dom.

Lemma path_eqb_eq (p q : path) : path_eqb p q = true <-> p = q.
Proof.
  unfold path_eqb. destruct (list_eq_dec Nat.eq_dec p q); split; congruence.
Qed.

Lemma path_eqb_refl (p : path) : path_eqb p p = true.
Proof. apply path_eqb_eq. reflexivity. Qed.

Lemma path_eqb_neq (p q : path) : p <> q -> path_eqb p q = false.
Proof.
  intros H. destruct (path_eqb p q) eqn:E; [|reflexivity].
  apply path_eqb_eq in E. contradiction.
Qed.

Lemma nth_error_update_nth_same {A} (f : A -> A) (l : list A) (i : nat) :
  nth_error (update_nth i f l) i = option_map f (nth_error l i).
Proof.
  revert i; induction l as [|x r IH]; intros [|i]; cbn; auto.
Qed.

Lemma nth_error_update_nth_other {A} (f : A -> A) (l : list A) (i j : nat) :
  i <> j -> nth_error (update_nth i f l) j = nth_error l j.
Proof.
  revert i j; induction l as [|x r IH]; intros [|i] [|j] H; cbn; auto;
    try contradiction.
Qed.

(** Updating the element at [p] changes that element and nothing else; in
    particular the tree keeps its shape. *)
Lemma elem_at_update_at (f : Element -> Element) (p : path) :
  forall (d : Node) (q : path),
    elem_at (update_at f p d) q
    = if path_eqb p q then option_map f (elem_at d q) else elem_at d q.
Proof.
  induction p as [|i p IH]; intros [e cs] q.
  - destruct q as [|j q]; [reflexivity|].
    rewrite path_eqb_neq by discriminate. reflexivity.
  - destruct q as [|j q].
    + rewrite path_eqb_neq by discriminate. reflexivity.
    + unfold elem_at in *. cbn [update_at node_at children element].
      destruct (Nat.eq_dec i j) as [->|Hij].
      * rewrite nth_error_update_nth_same.
        destruct (nth_error cs j) as [c|]; cbn [option_map].
        -- rewrite IH.
           destruct (path_eqb p q) eqn:E.
           ++ apply path_eqb_eq in E; subst. rewrite path_eqb_refl.
              reflexivity.
           ++ rewrite path_eqb_neq; [reflexivity|].
              intros H; inversion H; subst.
              rewrite path_eqb_refl in E. discriminate.
        -- destruct (path_eqb (j :: p) (j :: q)); reflexivity.
      * rewrite nth_error_update_nth_other by assumption.
        rewrite path_eqb_neq; [reflexivity|]. congruence.
Qed.

Lemma elem_at_update_at_same f p d e :
  elem_at d p = Some e -> elem_at (update_at f p d) p = Some (f e).
Proof.
  intros H. rewrite elem_at_update_at, path_eqb_refl, H. reflexivity.
Qed.

Lemma elem_at_node_at (d : Node) (p : path) :
  elem_at d p = None <-> node_at d p = None.
Proof.
  unfold elem_at. destruct (node_at d p); cbn; split; congruence.
Qed.

Lemma node_at_update_at_none f p d q :
  node_at (update_at f p d) q = None <-> node_at d q = None.
Proof.
  rewrite <- !elem_at_node_at, elem_at_update_at.
  destruct (path_eqb p q); [|tauto].
  destruct (elem_at d q); cbn; split; congruence.
Qed.

Lemma next_sibling_of_update_at f p d q :
  next_sibling_of (update_at f p d) q = next_sibling_of d q.
Proof.
  unfold next_sibling_of. destruct (split_last q) as [[par k]|]; auto.
  destruct (node_at (update_at f p d) (par ++ [S k])) eqn:E1;
    destruct (node_at d (par ++ [S k])) eqn:E2; auto.
  - apply (proj2 (node_at_update_at_none f p d _)) in E2. congruence.
  - apply (proj1 (node_at_update_at_none f p d _)) in E1. congruence.
Qed.

Lemma next_sibling_of_exists d p s :
  next_sibling_of d p = Some s -> exists e, elem_at d s = Some e.
Proof.
  unfold next_sibling_of, elem_at.
  destruct (split_last p) as [[par k]|]; [|discriminate].
  destruct (node_at d (par ++ [S k])) eqn:E; [|discriminate].
  intros H; inversion H; subst. rewrite E. cbn. eauto.
Qed.

Lemma split_last_app (p : path) (par : path) (k : nat) :
  split_last p = Some (par, k) -> p = par ++ [k].
Proof.
  revert par k; induction p as [|i q IH]; intros par k H; [discriminate|].
  cbn in H. destruct q as [|j q'].
  - inversion H; reflexivity.
  - destruct (split_last (j :: q')) as [[par' k']|]; [|discriminate].
    inversion H; subst. cbn. f_equal. apply IH. reflexivity.
Qed.

(** A field is never its own next sibling. *)
Lemma next_sibling_of_neq d p s : next_sibling_of d p = Some s -> s <> p.
Proof.
  unfold next_sibling_of.
  destruct (split_last p) as [[par k]|] eqn:E; [|discriminate].
  destruct (node_at d (par ++ [S k])); [|discriminate].
  intros H; inversion H; subst. apply split_last_app in E. subst.
  intros Heq. apply app_inv_head in Heq. inversion Heq. lia.
Qed.

Lemma node_at_app d p q :
  node_at d (p ++ q)
  = match node_at d p with Some n => node_at n q | None => None end.
Proof.
  revert d; induction p as [|i p IH]; intros d; [reflexivity|].
  cbn. destruct (nth_error (children d) i); auto.
Qed.

Lemma node_at_parent d p par k n :
  split_last p = Some (par, k) -> node_at d p = Some n ->
  exists m, node_at d par = Some m.
Proof.
  intros Hs Hn. apply split_last_app in Hs. subst.
  rewrite node_at_app in Hn. destruct (node_at d par); eauto.
Qed.

Lemma first_match_unfold sel n :
  first_match sel n
  = if sel (element n) then Some []
    else first_among sel (children n) 0.
Proof.
  destruct n as [e cs]. cbn [first_match element children].
  destruct (sel e); [reflexivity|].
  generalize 0. induction cs as [|c r IH]; intros i; [reflexivity|].
  cbn [first_among]. destruct (first_match sel c); [reflexivity|]. apply IH.
Qed.

Lemma depth_child n c : In c (children n) -> depth c < depth n.
Proof.
  destruct n as [e cs]. cbn [children depth].
  induction cs as [|x r IH]; intros H; [contradiction|].
  destruct H as [->|H]; [lia|]. specialize (IH H). lia.
Qed.

Lemma Node_depth_ind (P : Node -> Prop) :
  (forall n, (forall c, In c (children n) -> P c) -> P n) ->
  forall n, P n.
Proof.
  intros Hstep n. remember (depth n) as k eqn:Hk.
  revert n Hk. induction k as [k IH] using lt_wf_ind. intros n ->.
  apply Hstep. intros c Hc. apply (IH (depth c)); [|reflexivity].
  apply depth_child; assumption.
Qed.

Lemma first_among_inv sel cs :
  forall i p, first_among sel cs i = Some p ->
  exists j c q, p = (i + j) :: q /\ nth_error cs j = Some c
                /\ first_match sel c = Some q.
Proof.
  induction cs as [|c r IH]; intros i p H; [discriminate|].
  cbn [first_among] in H. destruct (first_match sel c) as [q|] eqn:E.
  - inversion H; subst. exists 0, c, q. rewrite Nat.add_0_r. auto.
  - destruct (IH _ _ H) as (j & c' & q & -> & Hn & Hq).
    exists (S j), c', q. repeat split; auto. f_equal. lia.
Qed.

(** A search answers with a node of the tree, and one that satisfies the
    selector. *)
Lemma first_match_sound sel :
  forall n q, first_match sel n = Some q ->
  exists e, elem_at n q = Some e /\ sel e = true.
Proof.
  induction n as [n IH] using Node_depth_ind. intros q H.
  rewrite first_match_unfold in H. destruct (sel (element n)) eqn:E.
  - inversion H; subst. exists (element n). auto.
  - apply first_among_inv in H as (j & c & q' & -> & Hn & Hq).
    destruct (IH c (nth_error_In _ _ Hn) _ Hq) as (e & He & Hs).
    exists e. split; [|assumption].
    unfold elem_at in *. cbn [node_at Nat.add]. rewrite Hn. assumption.
Qed.

Lemma first_among_sound sel n p :
  first_among sel (children n) 0 = Some p ->
  exists e, elem_at n p = Some e /\ sel e = true.
Proof.
  intros H. apply first_among_inv in H as (j & c & q & -> & Hn & Hq).
  destruct (first_match_sound sel c q Hq) as (e & He & Hs).
  exists e. split; [|assumption].
  unfold elem_at in *. cbn [node_at Nat.add]. rewrite Hn. assumption.
Qed.

Lemma elem_at_app d p q n :
  node_at d p = Some n -> elem_at d (p ++ q) = elem_at n q.
Proof. intros H. unfold elem_at. rewrite node_at_app, H. reflexivity. Qed.

Lemma closest_rev_sound d cls rp t :
  closest_rev d cls rp = Some t -> exists n, node_at d t = Some n.
Proof.
  induction rp as [|i up IH]; cbn [closest_rev].
  - unfold elem_at. destruct (node_at d (rev [])) eqn:E; cbn; [|discriminate].
    destruct (contains _ _); [|discriminate].
    intros H; inversion H; subst. eauto.
  - unfold elem_at. destruct (node_at d (rev (i :: up))) eqn:E; cbn;
      [|discriminate].
    destruct (contains _ _); [|exact IH].
    intros H; inversion H; subst. eauto.
Qed.

End DomFacts.

(** ** Form validation helpers *)

Section UxFacts.
Import Eff Dom Ux.
Open Scope script_scope.

Lemma bind_Return {S A B} (m : Script S A) (k : A -> Script S B) s s' a :
  m s = (s', Return a) -> bind m k s = k a s'.
Proof. intros H. unfold bind. rewrite H. reflexivity. Qed.

Lemma bind_Throw {S A B} (m : Script S A) (k : A -> Script S B) s s' e :
  m s = (s', Throw e) -> bind m k s = (s', Throw e).
Proof. intros H. unfold bind. rewrite H. reflexivity. Qed.

Lemma is_error_message_run pg h :
  live (document pg) h ->
  exists b,
    is_error_message h pg = (pg, Return b)
    /\ (forall t e, h = Some t -> elem_at (document pg) t = Some e ->
          b = has_class "error-message" e)
    /\ (h = None -> b = false).
Proof.
  intros Hl. destruct h as [t|].
  - destruct (Hl t eq_refl) as [e He].
    exists (has_class "error-message" e).
    unfold is_error_message, classList_contains, read. rewrite He.
    repeat split; try discriminate.
    intros t' e' H1 H2. inversion H1; subst. congruence.
  - exists false. repeat split; try discriminate.
Qed.

Lemma live_update_at f p d h : live d h -> live (update_at f p d) h.
Proof.
  intros Hl t Ht. destruct (Hl t Ht) as [e He].
  rewrite elem_at_update_at, He.
  destruct (path_eqb p t); cbn; eauto.
Qed.

Lemma elem_at_Some_node_at d p e :
  elem_at d p = Some e -> exists n, node_at d p = Some n.
Proof. unfold elem_at. destruct (node_at d p); cbn; [eauto|discriminate]. Qed.

Lemma node_at_Some_elem_at d p n :
  node_at d p = Some n -> elem_at d p = Some (element n).
Proof. unfold elem_at. intros ->. reflexivity. Qed.

(** The search of [clearFieldError] for an error message away from the next
    sibling: it never throws, leaves the page alone, and its answer is a live
    handle. *)
Lemma clearFieldError_search_run pg p e (errorDiv : option path) :
  elem_at (document pg) p = Some e ->
  live (document pg) errorDiv ->
  exists h,
    (wrapper <- closest (Some p) "input-wrapper" ;;
     parent <- match wrapper with
               | Some _ => ret wrapper
               | None => parentElement (Some p)
               end ;;
     match parent with
     | Some _ => querySelector parent "error-message"
     | None => ret errorDiv
     end) pg = (pg, Return h)
    /\ live (document pg) h.
Proof.
  intros He Hl.
  assert (Hq : forall par n, node_at (document pg) par = Some n ->
            exists h, querySelector (Some par) "error-message" pg
                      = (pg, Return h) /\ live (document pg) h).
  { intros par n Hn. unfold querySelector. rewrite Hn.
    eexists; split; [reflexivity|].
    intros t Ht.
    destruct (first_among (has_class "error-message") (children n) 0)
      as [q|] eqn:E; [|discriminate].
    cbn in Ht. inversion Ht; subst.
    destruct (first_among_sound _ _ _ E) as (e' & He' & _).
    exists e'. rewrite (elem_at_app _ _ _ _ Hn). assumption. }
  unfold bind at 1. unfold closest at 1.
  destruct (closest_rev (document pg) "input-wrapper" (rev p)) as [wp|] eqn:Ew.
  - destruct (closest_rev_sound _ _ _ _ Ew) as [n Hn].
    unfold bind at 1. unfold ret at 1. apply (Hq wp n Hn).
  - unfold bind at 1. unfold parentElement at 1.
    destruct (parent_of p) as [par|] eqn:Ep.
    + unfold parent_of in Ep.
      destruct (split_last p) as [[par' k]|] eqn:Es; [|discriminate].
      cbn in Ep. inversion Ep; subst.
      destruct (elem_at_Some_node_at _ _ _ He) as [n Hn].
      destruct (node_at_parent _ _ _ _ _ Es Hn) as [m Hm].
      apply (Hq par m Hm).
    + exists errorDiv. split; [reflexivity|assumption].
Qed.

(** The last step of [clearFieldError]: the message [h], when it is one, is
    hidden. *)
Lemma clearFieldError_hide_run pg h :
  live (document pg) h ->
  exists target,
    (found <- is_error_message h ;;
     if found then classList_remove h "show" else ret tt) pg
    = (mkPage match target with
              | Some t =>
                  update_at (with_classList (fun l => remove l "show")) t
                            (document pg)
              | None => document pg
              end (activeElement pg) (scrolledIntoView pg), Return tt)
    /\ (forall t e, h = Some t -> elem_at (document pg) t = Some e ->
          has_class "error-message" e = true -> target = Some t).
Proof.
  intros Hl. destruct (is_error_message_run pg h Hl) as (b & Hrun & Hb & Hn).
  rewrite (bind_Return _ _ _ _ _ Hrun). destruct b.
  - destruct h as [t|]; [|specialize (Hn eq_refl); discriminate].
    exists (Some t). split; [reflexivity|].
    intros t' e' H1 _ _. assumption.
  - exists None. split; [destruct pg; reflexivity|].
    intros t e Ht He Hc. rewrite <- (Hb t e Ht He) in Hc. discriminate.
Qed.

(** What [clearFieldError] does to the page: [input-error] leaves the field,
    [show] leaves at most one other element, and that element is the next
    sibling whenever the next sibling is an error message. *)
Lemma clearFieldError_run pg p e :
  elem_at (document pg) p = Some e ->
  exists target,
    clearFieldError (Some p) pg
    = (mkPage
         match target with
         | Some t =>
             update_at (with_classList (fun l => remove l "show")) t
               (update_at (with_classList (fun l => remove l "input-error")) p
                          (document pg))
         | None =>
             update_at (with_classList (fun l => remove l "input-error")) p
                       (document pg)
         end (activeElement pg) (scrolledIntoView pg), Return tt)
    /\ (forall s es, next_sibling_of (document pg) p = Some s ->
          elem_at (document pg) s = Some es ->
          has_class "error-message" es = true -> target = Some s).
Proof.
  intros He.
  set (f := with_classList (fun l => remove l "input-error")).
  set (pg1 := mkPage (update_at f p (document pg)) (activeElement pg)
                     (scrolledIntoView pg)).
  assert (He1 : elem_at (document pg1) p = Some (f e))
    by (apply elem_at_update_at_same; assumption).
  assert (Hsib : live (document pg1) (next_sibling_of (document pg) p)).
  { apply live_update_at. intros s Hs.
    apply (next_sibling_of_exists _ _ _ Hs). }
  assert (Hother : forall s es, next_sibling_of (document pg) p = Some s ->
            elem_at (document pg) s = Some es ->
            elem_at (document pg1) s = Some es).
  { intros s es Hs Hes. cbn [pg1 document].
    rewrite elem_at_update_at, path_eqb_neq; [assumption|].
    intros Heq. apply (next_sibling_of_neq _ _ _ Hs). congruence. }
  unfold clearFieldError.
  rewrite (bind_Return _ _ pg pg1 tt) by reflexivity.
  rewrite (bind_Return _ _ pg1 pg1 (next_sibling_of (document pg) p))
    by (unfold nextElementSibling; cbn [pg1 document];
        rewrite next_sibling_of_update_at; reflexivity).
  destruct (is_error_message_run pg1 _ Hsib) as (b & Hrun & Hb & Hn).
  rewrite (bind_Return _ _ _ _ _ Hrun).
  destruct b; cbn [negb].
  - rewrite (bind_Return _ _ pg1 pg1 (next_sibling_of (document pg) p))
      by reflexivity.
    destruct (clearFieldError_hide_run pg1 _ Hsib) as (target & Ht & Htgt).
    exists target. split; [exact Ht|].
    intros s es Hs Hes Hc. apply (Htgt s es Hs); auto.
  - destruct (clearFieldError_search_run pg1 p (f e)
                (next_sibling_of (document pg) p) He1 Hsib)
      as (h & Hsearch & Hlive).
    rewrite (bind_Return _ _ _ _ _ Hsearch).
    destruct (clearFieldError_hide_run pg1 h Hlive) as (target & Ht & _).
    exists target. split; [exact Ht|].
    intros s es Hs Hes Hc.
    rewrite <- (Hb s es Hs (Hother s es Hs Hes)) in Hc. discriminate.
Qed.

Lemma contains_remove_same l c : contains (remove l c) c = false.
Proof.
  unfold contains, remove. induction l as [|x r IH]; [reflexivity|].
  cbn [filter]. destruct (String.eqb c x) eqn:E; cbn [negb]; [exact IH|].
  cbn [existsb]. rewrite E, IH. reflexivity.
Qed.

Lemma contains_remove_sub l c c' :
  contains (remove l c) c' = true -> contains l c' = true.
Proof.
  unfold contains, remove. induction l as [|x r IH]; [auto|].
  cbn [filter existsb]. destruct (String.eqb c x); cbn [negb existsb].
  - intros H. rewrite (IH H). apply orb_true_r.
  - intros H. apply orb_prop in H as [H|H].
    + rewrite H. reflexivity.
    + rewrite (IH H). apply orb_true_r.
Qed.

Lemma faded_refl e : faded e e.
Proof. repeat split; auto. Qed.

Lemma faded_trans e1 e2 e3 : faded e1 e2 -> faded e2 e3 -> faded e1 e3.
Proof.
  intros (A1 & A2 & A3 & A4 & A5 & A6) (B1 & B2 & B3 & B4 & B5 & B6).
  repeat split; try congruence. auto.
Qed.

Lemma faded_remove c e : faded (with_classList (fun l => remove l c) e) e.
Proof.
  repeat split; auto. intros c'. unfold has_class.
  cbn [classList with_classList]. apply contains_remove_sub.
Qed.

Lemma elem_at_update_remove c t d q e' :
  elem_at (update_at (with_classList (fun l => remove l c)) t d) q = Some e' ->
  exists e0, elem_at d q = Some e0 /\ faded e' e0.
Proof.
  rewrite elem_at_update_at. destruct (path_eqb t q).
  - destruct (elem_at d q) as [e0|]; cbn; [|discriminate].
    intros H; inversion H; subst. exists e0. split; auto. apply faded_remove.
  - intros H. exists e'. split; auto. apply faded_refl.
Qed.

(** [clearFieldError] on a field of the page: it returns, the error display
    of the field is off afterwards, and every element is what it was, except
    for classes it may have lost. *)
Lemma clearFieldError_clears pg p e :
  elem_at (document pg) p = Some e ->
  exists pg',
    clearFieldError (Some p) pg = (pg', Return tt)
    /\ activeElement pg' = activeElement pg
    /\ scrolledIntoView pg' = scrolledIntoView pg
    /\ error_displayed (document pg') p = false
    /\ (forall q e', elem_at (document pg') q = Some e' ->
          exists e0, elem_at (document pg) q = Some e0 /\ faded e' e0).
Proof.
  intros He. destruct (clearFieldError_run pg p e He) as (target & Hrun & Ht).
  eexists. split; [exact Hrun|]. cbn [document activeElement scrolledIntoView].
  split; [reflexivity|]. split; [reflexivity|].
  set (d1 := update_at (with_classList (fun l => remove l "input-error")) p
                       (document pg)) in *.
  set (d' := match target with
             | Some t =>
                 update_at (with_classList (fun l => remove l "show")) t d1
             | None => d1
             end).
  assert (Hfade : forall q e', elem_at d' q = Some e' ->
            exists e0, elem_at d1 q = Some e0 /\ faded e' e0).
  { intros q e' H. subst d'. destruct target as [t|].
    - apply (elem_at_update_remove _ _ _ _ _ H).
    - exists e'. split; auto. apply faded_refl. }
  assert (Hfade1 : forall q e', elem_at d1 q = Some e' ->
            exists e0, elem_at (document pg) q = Some e0 /\ faded e' e0).
  { intros q e' H. apply (elem_at_update_remove _ _ _ _ _ H). }
  assert (Hshape : next_sibling_of d' p = next_sibling_of (document pg) p).
  { subst d' d1. destruct target; rewrite !next_sibling_of_update_at;
      reflexivity. }
  split.
  - unfold error_displayed. apply orb_false_intro.
    + destruct (elem_at d' p) as [e'|] eqn:E; [|reflexivity].
      destruct (Hfade _ _ E) as (e1 & He1 & (_ & _ & _ & _ & _ & Hsub)).
      destruct (has_class "input-error" e') eqn:Hc; [|reflexivity].
      apply Hsub in Hc. subst d1.
      rewrite (elem_at_update_at_same _ _ _ _ He) in He1.
      inversion He1; subst. unfold has_class in Hc.
      cbn [classList with_classList] in Hc.
      rewrite contains_remove_same in Hc. discriminate.
    + rewrite Hshape.
      destruct (next_sibling_of (document pg) p) as [s|] eqn:Es;
        [|reflexivity].
      destruct (elem_at d' s) as [e'|] eqn:E; [|reflexivity].
      destruct (has_class "error-message" e') eqn:Hm; [|reflexivity].
      cbn [andb].
      destruct (Hfade _ _ E) as (e1 & He1 & F1).
      destruct (Hfade1 _ _ He1) as (e0 & He0 & F0).
      pose proof (faded_trans _ _ _ F1 F0) as (_ & _ & _ & _ & _ & Hsub).
      specialize (Ht s e0 eq_refl He0 (Hsub _ Hm)). subst d'. rewrite Ht in E.
      rewrite elem_at_update_at, path_eqb_refl, He1 in E. cbn in E.
      inversion E; subst. unfold has_class.
      cbn [classList with_classList]. apply contains_remove_same.
  - intros q e' H. destruct (Hfade _ _ H) as (e1 & He1 & F1).
    destruct (Hfade1 _ _ He1) as (e0 & He0 & F0).
    exists e0. split; auto. apply (faded_trans _ _ _ F1 F0).
Qed.

End UxFacts.

(** ** What the error display leaves alone *)

Section Skeleton.
Import Eff Dom Ux.

Lemma filter_filter_absorb {A} (keep drop : A -> bool) (l : list A) :
  (forall x, keep x = true -> drop x = true) ->
  filter keep (filter drop l) = filter keep l.
Proof.
  intros H. induction l as [|x r IH]; [reflexivity|].
  cbn [filter]. destruct (drop x) eqn:D; cbn [filter].
  - rewrite IH. reflexivity.
  - destruct (keep x) eqn:K; [|exact IH].
    rewrite (H x K) in D. discriminate.
Qed.

Lemma eqb_is_error_class c x :
  is_error_class c = true -> String.eqb c x = true -> is_error_class x = true.
Proof. intros Hc Hx. apply String.eqb_eq in Hx. congruence. Qed.

Lemma erase_remove c e :
  is_error_class c = true ->
  erase (with_classList (fun l => remove l c) e) = erase e.
Proof.
  intros Hc. unfold erase, with_classList, remove. cbn. f_equal.
  apply filter_filter_absorb. intros x Hx.
  destruct (String.eqb c x) eqn:E; [|reflexivity].
  rewrite (eqb_is_error_class c x Hc E) in Hx. discriminate.
Qed.

Lemma erase_add c e :
  is_error_class c = true ->
  erase (with_classList (fun l => add l c) e) = erase e.
Proof.
  intros Hc. unfold erase, with_classList, add. cbn.
  destruct (contains (classList e) c); [reflexivity|]. f_equal.
  rewrite filter_app. cbn. rewrite Hc. cbn. apply app_nil_r.
Qed.

Lemma erase_textContent t e : erase (with_textContent t e) = erase e.
Proof. reflexivity. Qed.

Lemma update_nth_map {A B} (g : A -> B) (f : A -> A) (l : list A) (i : nat) :
  (forall x, g (f x) = g x) -> map g (update_nth i f l) = map g l.
Proof.
  intros H. revert i; induction l as [|x r IH]; intros [|i]; cbn; auto.
  - rewrite H. reflexivity.
  - rewrite IH. reflexivity.
Qed.

Lemma skeleton_update_at f p :
  (forall e, erase (f e) = erase e) ->
  forall d, skeleton (update_at f p d) = skeleton d.
Proof.
  intros Hf. induction p as [|i p IH]; intros [e cs]; cbn.
  - rewrite Hf. reflexivity.
  - rewrite (update_nth_map skeleton _ _ _ IH). reflexivity.
Qed.

Lemma node_at_skeleton d p :
  node_at (skeleton d) p = option_map skeleton (node_at d p).
Proof.
  revert d; induction p as [|i p IH]; intros [e cs]; [reflexivity|].
  cbn [skeleton node_at children]. rewrite nth_error_map.
  destruct (nth_error cs i) as [c|]; cbn; [apply IH|reflexivity].
Qed.

Lemma elem_at_skeleton d p :
  elem_at (skeleton d) p = option_map erase (elem_at d p).
Proof.
  unfold elem_at. rewrite node_at_skeleton.
  destruct (node_at d p) as [[e cs]|]; reflexivity.
Qed.

Lemma first_among_skeleton sel cs :
  (forall c, In c cs -> first_match sel (skeleton c) = first_match sel c) ->
  forall i, first_among sel (map skeleton cs) i = first_among sel cs i.
Proof.
  induction cs as [|c r IH]; intros H i; [reflexivity|].
  cbn [map first_among]. rewrite (H c (or_introl eq_refl)).
  destruct (first_match sel c); [reflexivity|].
  apply IH. intros c' Hc'. apply H. right. assumption.
Qed.

(** A search that does not look at the error display finds the same node in
    the skeleton. *)
Lemma first_match_skeleton sel :
  (forall e, sel (erase e) = sel e) ->
  forall n, first_match sel (skeleton n) = first_match sel n.
Proof.
  intros Hsel. induction n as [n IH] using Node_depth_ind.
  rewrite !first_match_unfold. destruct n as [e cs].
  cbn [skeleton element children] in *. rewrite Hsel.
  destruct (sel e); [reflexivity|]. apply first_among_skeleton. exact IH.
Qed.

Lemma all_matches_unfold sel n :
  all_matches sel n
  = (if sel (element n) then [[]] else []) ++ all_among sel (children n) 0.
Proof.
  destruct n as [e cs]. cbn [all_matches element children]. f_equal.
  generalize 0. induction cs as [|c r IH]; intros i; [reflexivity|].
  cbn [all_among]. rewrite IH. reflexivity.
Qed.

Lemma all_among_skeleton sel cs :
  (forall c, In c cs -> all_matches sel (skeleton c) = all_matches sel c) ->
  forall i, all_among sel (map skeleton cs) i = all_among sel cs i.
Proof.
  induction cs as [|c r IH]; intros H i; [reflexivity|].
  cbn [map all_among]. rewrite (H c (or_introl eq_refl)). f_equal.
  apply IH. intros c' Hc'. apply H. right. assumption.
Qed.

Lemma all_matches_skeleton sel :
  (forall e, sel (erase e) = sel e) ->
  forall n, all_matches sel (skeleton n) = all_matches sel n.
Proof.
  intros Hsel. induction n as [n IH] using Node_depth_ind.
  rewrite !all_matches_unfold. destruct n as [e cs].
  cbn [skeleton element children] in *. rewrite Hsel. f_equal.
  apply all_among_skeleton. exact IH.
Qed.

Lemma has_id_erase i e : has_id i (erase e) = has_id i e.
Proof. reflexivity. Qed.

Lemma contains_filter (keep : string -> bool) l c :
  keep c = true -> contains (filter keep l) c = contains l c.
Proof.
  intros Hk. unfold contains. induction l as [|x r IH]; [reflexivity|].
  cbn [filter existsb]. destruct (keep x) eqn:K; cbn [existsb].
  - rewrite IH. reflexivity.
  - destruct (String.eqb c x) eqn:E; [|exact IH].
    apply String.eqb_eq in E. congruence.
Qed.

Lemma has_class_erase cls e :
  is_error_class cls = false -> has_class cls (erase e) = has_class cls e.
Proof.
  intros H. unfold has_class, erase. cbn [classList].
  apply contains_filter. rewrite H. reflexivity.
Qed.

End Skeleton.

(** ** Field validation *)

Section Validation.
Import Eff Dom Ux.
Open Scope script_scope.

(** [validateField] returns what the browser says about the field, and only
    touches the error display. *)
Lemma validateField_run pg p e msg :
  elem_at (document pg) p = Some e ->
  exists pg',
    validateField (Some p) msg pg = (pg', Return (validity_valid e))
    /\ skeleton (document pg') = skeleton (document pg)
    /\ activeElement pg' = activeElement pg
    /\ scrolledIntoView pg' = scrolledIntoView pg.
Proof.
  intros He. unfold validateField.
  rewrite (bind_Return _ _ pg pg (next_sibling_of (document pg) p))
    by reflexivity.
  rewrite (bind_Return _ _ pg pg (validity_valid e))
    by (unfold read; rewrite He; reflexivity).
  set (sib := next_sibling_of (document pg) p).
  assert (Hsib : forall f, live (update_at f p (document pg)) sib).
  { intros f. apply live_update_at. intros s Hs.
    apply (next_sibling_of_exists _ _ _ Hs). }
  destruct (validity_valid e); cbn [negb].
  - set (f := with_classList (fun l => remove l "input-error")).
    set (pg1 := mkPage (update_at f p (document pg)) (activeElement pg)
                       (scrolledIntoView pg)).
    rewrite (bind_Return _ _ pg pg1 tt) by reflexivity.
    destruct (is_error_message_run pg1 sib (Hsib f)) as (b & Hrun & _ & Hn).
    rewrite (bind_Return _ _ _ _ _ Hrun).
    assert (Hsk1 : skeleton (document pg1) = skeleton (document pg))
      by (apply skeleton_update_at; intros; apply erase_remove; reflexivity).
    destruct b.
    + destruct sib as [s|]; [|specialize (Hn eq_refl); discriminate].
      eexists. split; [reflexivity|].
      cbn [document activeElement scrolledIntoView].
      repeat split; try reflexivity.
      rewrite skeleton_update_at; [exact Hsk1|].
      intros; apply erase_remove; reflexivity.
    + eexists. split; [reflexivity|]. repeat split; try reflexivity.
      exact Hsk1.
  - set (f := with_classList (fun l => add l "input-error")).
    set (pg1 := mkPage (update_at f p (document pg)) (activeElement pg)
                       (scrolledIntoView pg)).
    rewrite (bind_Return _ _ pg pg1 tt) by reflexivity.
    destruct (is_error_message_run pg1 sib (Hsib f)) as (b & Hrun & _ & Hn).
    rewrite (bind_Return _ _ _ _ _ Hrun).
    assert (Hsk1 : skeleton (document pg1) = skeleton (document pg))
      by (apply skeleton_update_at; intros; apply erase_add; reflexivity).
    destruct b.
    + destruct sib as [s|]; [|specialize (Hn eq_refl); discriminate].
      eexists. split; [reflexivity|].
      cbn [document activeElement scrolledIntoView].
      repeat split; try reflexivity.
      rewrite skeleton_update_at;
        [|intros; apply erase_add; reflexivity].
      rewrite skeleton_update_at; [exact Hsk1|].
      intros; apply erase_textContent.
    + eexists. split; [reflexivity|]. repeat split; try reflexivity.
      exact Hsk1.
Qed.

(** [validateTicket] counts the digits to choose the message, and returns
    what [validateField] returns: the browser's verdict on the field. *)
Lemma validateTicket_run pg p e :
  elem_at (document pg) p = Some e ->
  exists pg',
    validateTicket (Some p) pg = (pg', Return (validity_valid e))
    /\ skeleton (document pg') = skeleton (document pg)
    /\ activeElement pg' = activeElement pg
    /\ scrolledIntoView pg' = scrolledIntoView pg.
Proof.
  intros He. unfold validateTicket.
  rewrite (bind_Return _ _ pg pg (value e))
    by (unfold read; rewrite He; reflexivity).
  destruct (negb (String.length (Js.strip_non_digits (value e)) =? 11));
    apply validateField_run; assumption.
Qed.

(** On the ticket field as the page configures it, [validateTicket] accepts
    the raw value when it is eleven digits and nothing else (or empty and
    optional); the digits left after stripping play no part. *)
Lemma validateTicket_on_patterned_field pg p e required :
  elem_at (document pg) p = Some e ->
  validity_valid e = ticket_validity required (value e) ->
  snd (validateTicket (Some p) pg)
  = Return (ticket_validity required (value e)).
Proof.
  intros He Hv. destruct (validateTicket_run pg p e He) as (pg' & Hrun & _).
  rewrite Hrun, Hv. reflexivity.
Qed.

(** C2 (the code departs from it).  Eleven digits do not make a ticket
    valid, and another count does not make it invalid: [validateTicket]
    returns [field.validity.valid].  A ticket typed as ["+7 (911) 234-56-78"]
    has eleven digits; the field carries the pattern [[0-9]{11}], so the
    browser reports it invalid, [validateTicket] returns [false] and shows an
    empty message.  An empty optional field has no digit, is reported valid,
    and [validateTicket] returns [true]. *)
Theorem validateTicket_follows_validity_not_digit_count :
  let pg := Example.page (Example.form "Sklad" "17" Example.formatted_ticket [])
  in
  let pg0 := Example.page (Example.form "Sklad" "17" Example.empty_ticket [])
  in
  (option_map (fun e => String.length (Js.strip_non_digits (value e)))
              (elem_at (document pg) Example.ticket_path) = Some 11
   /\ snd (validateTicket (Some Example.ticket_path) pg) = Return false
   /\ option_map (fun e => (has_class "show" e, textContent e))
        (elem_at (document (fst (validateTicket (Some Example.ticket_path) pg)))
                 [5])
      = Some (true, ""))
  /\ (option_map (fun e => String.length (Js.strip_non_digits (value e)))
                 (elem_at (document pg0) Example.ticket_path) = Some 0
      /\ snd (validateTicket (Some Example.ticket_path) pg0) = Return true).
Proof. vm_compute. repeat split. Qed.

(** C10. A value without any digit is left as it is by [formatEvaluation]:
    the page is unchanged, so the field is neither cleared nor rewritten.  The
    field is rewritten, with the grouped digits, exactly when the value holds
    a digit. *)
Theorem formatEvaluation_without_digit_keeps_value pg input e :
  elem_at (document pg) input = Some e ->
  (Js.strip_non_digits (value e) = "" ->
   formatEvaluation (Some input) pg = (pg, Return tt))
  /\ (Js.strip_non_digits (value e) <> "" ->
      exists pg',
        formatEvaluation (Some input) pg = (pg', Return tt)
        /\ option_map value (elem_at (document pg') input)
           = Some (Js.formatNumberWithSpaces (Js.strip_non_digits (value e)))).
Proof.
  intros He. unfold formatEvaluation.
  rewrite (bind_Return _ _ pg pg (value e))
    by (unfold read; rewrite He; reflexivity).
  split; intros H.
  - rewrite H. reflexivity.
  - apply String.eqb_neq in H. rewrite H. cbn [negb].
    eexists. split; [reflexivity|]. cbn [document].
    rewrite (elem_at_update_at_same _ _ _ _ He). reflexivity.
Qed.

Lemma formatEvaluation_without_digit_keeps_value_witness :
  let pg := Example.page (Example.item_card "ring" "n/a") in
  formatEvaluation (Some [2]) pg = (pg, Return tt).
Proof.
  intros pg.
  apply (proj1 (formatEvaluation_without_digit_keeps_value pg [2]
                  (mkElement "input" "" ["eval"] "n/a" true "") eq_refl)).
  reflexivity.
Defined.

(** C9. An input event or a focus event on a field (an [input], [select] or
    [textarea] element) switches the error display of that field off,
    whatever the value of the field and whatever the browser thinks of it.
    The listener validates nothing: every element keeps its value, validity
    and text, and no element gains a class, so no error display comes (back)
    with the event. *)
Theorem input_or_focus_clears_error_display pg target e :
  elem_at (document pg) target = Some e ->
  is_form_control e = true ->
  forall listener, listener = on_input \/ listener = on_focus ->
  exists pg',
    listener target pg = (pg', Return tt)
    /\ error_displayed (document pg') target = false
    /\ (forall q e', elem_at (document pg') q = Some e' ->
          exists e0, elem_at (document pg) q = Some e0 /\ faded e' e0).
Proof.
  intros He Hc listener Hl.
  destruct (clearFieldError_clears pg target e He)
    as (pg' & Hrun & _ & _ & Hoff & Hfade).
  exists pg'. split; [|split; assumption].
  destruct Hl as [-> | ->].
  - unfold on_input.
    rewrite (bind_Return _ _ pg pg true)
      by (unfold read; rewrite He, Hc; reflexivity).
    exact Hrun.
  - unfold on_focus.
    rewrite (bind_Return _ _ pg pg true)
      by (unfold read; rewrite He, Hc; reflexivity).
    exact Hrun.
Qed.

Lemma input_or_focus_clears_error_display_witness :
  error_displayed (document Example.flagged_page) [0] = true
  /\ exists pg',
       on_input [0] Example.flagged_page = (pg', Return tt)
       /\ error_displayed (document pg') [0] = false.
Proof.
  split; [reflexivity|].
  destruct (input_or_focus_clears_error_display Example.flagged_page [0]
              (mkElement "input" "ticket" ["input-error"] "12345" false "")
              eq_refl eq_refl on_input (or_introl eq_refl))
    as (pg' & Hrun & Hoff & _).
  exists pg'. split; assumption.
Defined.

End Validation.

(** ** Form validation *)

Section FormValidation.
Import Eff Dom Ux.
Open Scope script_scope.

Lemma first_match_same sel d d' :
  (forall e, sel (erase e) = sel e) ->
  skeleton d = skeleton d' -> first_match sel d = first_match sel d'.
Proof.
  intros Hsel H.
  rewrite <- (first_match_skeleton sel Hsel d),
          <- (first_match_skeleton sel Hsel d'), H.
  reflexivity.
Qed.

Lemma all_matches_same sel d d' :
  (forall e, sel (erase e) = sel e) ->
  skeleton d = skeleton d' -> all_matches sel d = all_matches sel d'.
Proof.
  intros Hsel H.
  rewrite <- (all_matches_skeleton sel Hsel d),
          <- (all_matches_skeleton sel Hsel d'), H.
  reflexivity.
Qed.

Lemma elem_at_same d d' p e :
  skeleton d = skeleton d' -> elem_at d p = Some e ->
  exists e', elem_at d' p = Some e' /\ erase e' = erase e.
Proof.
  intros H He. pose proof (elem_at_skeleton d p) as H1.
  pose proof (elem_at_skeleton d' p) as H2.
  rewrite H, H2, He in H1.
  destruct (elem_at d' p) as [e'|]; cbn [option_map] in H1; [|discriminate].
  exists e'. split; [reflexivity|congruence].
Qed.

Lemma erase_value e e' : erase e' = erase e -> value e' = value e.
Proof. intros H. apply (f_equal value) in H. exact H. Qed.

Lemma erase_validity e e' :
  erase e' = erase e -> validity_valid e' = validity_valid e.
Proof. intros H. apply (f_equal validity_valid) in H. exact H. Qed.

Lemma card_field_skeleton d item cls :
  is_error_class cls = false ->
  card_field (skeleton d) item cls = card_field d item cls.
Proof.
  intros Hc. unfold card_field. rewrite node_at_skeleton.
  destruct (node_at d item) as [[e cs]|]; [|reflexivity].
  cbn [option_map skeleton children]. f_equal.
  apply first_among_skeleton. intros c _.
  apply first_match_skeleton. intros e'. apply has_class_erase. exact Hc.
Qed.

Lemma card_field_same d d' item cls :
  is_error_class cls = false ->
  skeleton d = skeleton d' -> card_field d item cls = card_field d' item cls.
Proof.
  intros Hc H.
  rewrite <- (card_field_skeleton d item cls Hc),
          <- (card_field_skeleton d' item cls Hc), H.
  reflexivity.
Qed.

Lemma card_field_sound d item cls p :
  card_field d item cls = Some p -> exists e, elem_at d p = Some e.
Proof.
  unfold card_field. destruct (node_at d item) as [n|] eqn:En; [|discriminate].
  destruct (first_among (has_class cls) (children n) 0) as [q|] eqn:E;
    [|discriminate].
  cbn. intros H; inversion H; subst.
  destruct (first_among_sound _ _ _ E) as (e & He & _).
  exists e. rewrite (elem_at_app _ _ _ _ En). assumption.
Qed.

Lemma failing_of_same d d' h fails :
  (forall e e', erase e' = erase e -> fails e' = fails e) ->
  skeleton d = skeleton d' ->
  failing_of d h fails = failing_of d' h fails.
Proof.
  intros Hf H. destruct h as [p|]; [|reflexivity]. cbn.
  destruct (elem_at d p) as [e|] eqn:E.
  - destruct (elem_at_same d d' p e H E) as (e' & -> & He').
    rewrite (Hf e e' He'). reflexivity.
  - destruct (elem_at d' p) as [e'|] eqn:E'; [|reflexivity].
    destruct (elem_at_same d' d p e' (eq_sym H) E') as (e & He & _).
    congruence.
Qed.

Lemma extend_nil c : extend c [] = c.
Proof.
  destruct c as [v l]. unfold extend. cbn.
  rewrite andb_true_r, app_nil_r. reflexivity.
Qed.

Lemma extend_failed c f : failed c (Some f) = extend c [f].
Proof. unfold failed, extend. cbn. rewrite andb_false_r. reflexivity. Qed.

Lemma extend_app c l1 l2 : extend (extend c l1) l2 = extend c (l1 ++ l2).
Proof.
  unfold extend. cbn. rewrite map_app, app_assoc, <- andb_assoc. f_equal.
  destruct l1, l2; reflexivity.
Qed.

(** One check of [validateForm] on a field that exists: the field is reported
    when its value is empty, and only the error display changes. *)
Lemma empty_check_run pg p e msg c :
  elem_at (document pg) p = Some e ->
  exists pg',
    (if String.eqb (value e) "" then
       validateField (Some p) msg ;; ret (failed c (Some p))
     else ret c) pg
    = (pg', Return (extend c (failing_of (document pg) (Some p) empty_value)))
    /\ skeleton (document pg') = skeleton (document pg)
    /\ activeElement pg' = activeElement pg
    /\ scrolledIntoView pg' = scrolledIntoView pg.
Proof.
  intros He. cbn [failing_of]. rewrite He. unfold empty_value.
  destruct (String.eqb (value e) "").
  - destruct (validateField_run pg p e msg He) as (pg' & Hrun & Hsk & Ha & Hs).
    exists pg'. rewrite (bind_Return _ _ _ _ _ Hrun), extend_failed. auto.
  - exists pg. rewrite extend_nil. auto.
Qed.

Lemma querySelector_card pg item cls q :
  card_field (document pg) item cls = Some q ->
  querySelector (Some item) cls pg = (pg, Return (Some q)).
Proof.
  unfold card_field, querySelector.
  destruct (node_at (document pg) item); [|discriminate].
  intros ->. reflexivity.
Qed.

Lemma failing_of_live d h fails f :
  In f (failing_of d h fails) -> exists e, elem_at d f = Some e.
Proof.
  destruct h as [p|]; [|contradiction]. cbn.
  destruct (elem_at d p) as [e|] eqn:E; [|contradiction].
  destruct (fails e); [|contradiction].
  intros [<-|[]]. eauto.
Qed.

(** The checks of one item card. *)
Lemma validateItem_run d0 pg item c dp ep :
  skeleton (document pg) = skeleton d0 ->
  card_field d0 item "desc" = Some dp ->
  card_field d0 item "eval" = Some ep ->
  exists pg',
    validateItem item c pg = (pg', Return (extend c (item_failing d0 item)))
    /\ skeleton (document pg') = skeleton d0
    /\ activeElement pg' = activeElement pg
    /\ scrolledIntoView pg' = scrolledIntoView pg.
Proof.
  intros Hsk Hd He.
  assert (Hd' : card_field (document pg) item "desc" = Some dp)
    by (rewrite (card_field_same _ d0 item "desc" eq_refl Hsk); exact Hd).
  assert (He' : card_field (document pg) item "eval" = Some ep)
    by (rewrite (card_field_same _ d0 item "eval" eq_refl Hsk); exact He).
  destruct (card_field_sound _ _ _ _ Hd') as [ed Hed].
  destruct (card_field_sound _ _ _ _ He') as [ee Hee].
  unfold validateItem.
  rewrite (bind_Return _ _ _ _ _ (querySelector_card pg item "desc" dp Hd')).
  rewrite (bind_Return _ _ _ _ _ (querySelector_card pg item "eval" ep He')).
  rewrite (bind_Return _ _ pg pg (value ed))
    by (unfold read; rewrite Hed; reflexivity).
  destruct (empty_check_run pg dp ed "Введите описание предмета" c Hed)
    as (pg1 & Hrun1 & Hsk1 & Ha1 & Hs1).
  rewrite (bind_Return _ _ _ _ _ Hrun1).
  destruct (elem_at_same _ (document pg1) ep ee (eq_sym Hsk1) Hee)
    as (ee1 & Hee1 & _).
  rewrite (bind_Return _ _ pg1 pg1 (value ee1))
    by (unfold read; rewrite Hee1; reflexivity).
  destruct (empty_check_run pg1 ep ee1 "Введите оценку"
              (extend c (failing_of (document pg) (Some dp) empty_value)) Hee1)
    as (pg2 & Hrun2 & Hsk2 & Ha2 & Hs2).
  exists pg2. split.
  - unfold bind in Hrun2 |- *. rewrite Hrun2. f_equal. f_equal.
    rewrite extend_app. unfold item_failing. rewrite Hd, He. f_equal. f_equal.
    + apply failing_of_same; [|assumption].
      intros e e' H. unfold empty_value. rewrite (erase_value _ _ H).
      reflexivity.
    + apply failing_of_same; [|congruence].
      intros e e' H. unfold empty_value. rewrite (erase_value _ _ H).
      reflexivity.
  - repeat split; congruence.
Qed.

Lemma validateItems_run d0 items :
  (forall item, In item items ->
     card_field d0 item "desc" <> None /\ card_field d0 item "eval" <> None) ->
  forall pg c,
    skeleton (document pg) = skeleton d0 ->
    exists pg',
      validateItems items c pg
      = (pg', Return (extend c (flat_map (item_failing d0) items)))
      /\ skeleton (document pg') = skeleton d0
      /\ activeElement pg' = activeElement pg
      /\ scrolledIntoView pg' = scrolledIntoView pg.
Proof.
  induction items as [|item rest IH]; intros Hall pg c Hsk.
  - exists pg. cbn. rewrite extend_nil. auto.
  - destruct (Hall item (or_introl eq_refl)) as [Hd He].
    destruct (card_field d0 item "desc") as [dp|] eqn:Ed; [|congruence].
    destruct (card_field d0 item "eval") as [ep|] eqn:Ee; [|congruence].
    destruct (validateItem_run d0 pg item c dp ep Hsk Ed Ee)
      as (pg1 & Hrun1 & Hsk1 & Ha1 & Hs1).
    destruct (IH (fun i Hi => Hall i (or_intror Hi)) pg1
                 (extend c (item_failing d0 item)) Hsk1)
      as (pg2 & Hrun2 & Hsk2 & Ha2 & Hs2).
    exists pg2. cbn [validateItems flat_map].
    rewrite (bind_Return _ _ _ _ _ Hrun1), Hrun2, extend_app.
    repeat split; congruence.
Qed.

(** [focus()] on an element of the page: the element is the active element
    afterwards, and nothing is scrolled. *)
Lemma focus_run pg p e :
  elem_at (document pg) p = Some e ->
  exists pg',
    focus (Some p) pg = (pg', Return tt)
    /\ activeElement pg' = Some p
    /\ scrolledIntoView pg' = scrolledIntoView pg.
Proof.
  intros He.
  assert (Hfresh : exists pg',
            (set_activeElement p ;; on_focus p) pg = (pg', Return tt)
            /\ activeElement pg' = Some p
            /\ scrolledIntoView pg' = scrolledIntoView pg).
  { set (pg1 := mkPage (document pg) (Some p) (scrolledIntoView pg)).
    rewrite (bind_Return _ _ pg pg1 tt) by reflexivity.
    unfold on_focus.
    rewrite (bind_Return _ _ pg1 pg1 (is_form_control e))
      by (unfold read; cbn [pg1 document]; rewrite He; reflexivity).
    destruct (is_form_control e).
    - destruct (clearFieldError_clears pg1 p e He)
        as (pg' & Hrun & Ha & Hs & _).
      exists pg'. auto.
    - exists pg1. auto. }
  unfold focus.
  rewrite (bind_Return _ _ pg pg (activeElement pg)) by reflexivity.
  destruct (activeElement pg) as [q|] eqn:Ea; [|exact Hfresh].
  destruct (path_eqb p q) eqn:E; [|exact Hfresh].
  apply path_eqb_eq in E. subst. exists pg. auto.
Qed.

Lemma failing_fields_live d f :
  In f (failing_fields d) -> exists e, elem_at d f = Some e.
Proof.
  unfold failing_fields. rewrite !in_app_iff, in_flat_map.
  intros [H|[H|[H|(item & _ & H)]]];
    try (apply (failing_of_live _ _ _ _ H)).
  unfold item_failing in H. apply in_app_iff in H as [H|H];
    apply (failing_of_live _ _ _ _ H).
Qed.

(** [validateForm] on a page that has the form: it returns whether no field
    fails, and when one fails the first of them, in check order, is scrolled
    into view and focused. *)
Lemma validateForm_run pg :
  form_complete (document pg) ->
  exists pg',
    validateForm pg
    = (pg', Return match failing_fields (document pg) with
                   | [] => true
                   | _ :: _ => false
                   end)
    /\ match failing_fields (document pg) with
       | [] => activeElement pg' = activeElement pg
               /\ scrolledIntoView pg' = scrolledIntoView pg
       | f :: _ => activeElement pg' = Some f
                   /\ scrolledIntoView pg' = f :: scrolledIntoView pg
       end.
Proof.
  intros (Hdept & Hissue & Hticket & Hitems).
  set (d0 := document pg) in *.
  assert (Hid : forall i e, has_id i (erase e) = has_id i e) by reflexivity.
  assert (Hval : forall e e', erase e' = erase e ->
            empty_value e' = empty_value e)
    by (intros e e' H; unfold empty_value; rewrite (erase_value _ _ H);
        reflexivity).
  assert (Hinv : forall e e', erase e' = erase e ->
            reported_invalid e' = reported_invalid e)
    by (intros e e' H; unfold reported_invalid;
        rewrite (erase_validity _ _ H); reflexivity).
  destruct (first_match (has_id "department") d0) as [dept|] eqn:Ed;
    [|congruence].
  destruct (first_match (has_id "issue") d0) as [issue|] eqn:Ei;
    [|congruence].
  destruct (first_match (has_id "ticket") d0) as [ticket|] eqn:Et;
    [|congruence].
  destruct (first_match_sound _ _ _ Ed) as (ed & Hed & _).
  destruct (first_match_sound _ _ _ Ei) as (ei & Hei & _).
  destruct (first_match_sound _ _ _ Et) as (et & Het & _).
  unfold validateForm.
  (* department *)
  rewrite (bind_Return _ _ pg pg (Some dept))
    by (unfold getElementById; fold d0; rewrite Ed; reflexivity).
  rewrite (bind_Return _ _ pg pg (value ed))
    by (unfold read; fold d0; rewrite Hed; reflexivity).
  destruct (empty_check_run pg dept ed "Укажите подразделение"
              (mkChecks true []) Hed) as (pg1 & Hrun1 & Hsk1 & Ha1 & Hs1).
  rewrite (bind_Return _ _ _ _ _ Hrun1). fold d0 in Hsk1 |- *.
  (* issue *)
  rewrite (bind_Return _ _ pg1 pg1 (Some issue))
    by (unfold getElementById;
        rewrite (first_match_same _ _ d0 (Hid "issue") Hsk1), Ei;
        reflexivity).
  destruct (elem_at_same d0 (document pg1) issue ei (eq_sym Hsk1) Hei)
    as (ei1 & Hei1 & _).
  rewrite (bind_Return _ _ pg1 pg1 (value ei1))
    by (unfold read; rewrite Hei1; reflexivity).
  destruct (empty_check_run pg1 issue ei1 "Укажите номер заключения"
              (extend (mkChecks true [])
                      (failing_of d0 (Some dept) empty_value)) Hei1)
    as (pg2 & Hrun2 & Hsk2 & Ha2 & Hs2).
  rewrite (bind_Return _ _ _ _ _ Hrun2).
  rewrite (failing_of_same (document pg1) d0 _ _ Hval Hsk1), extend_app.
  assert (Hsk2' : skeleton (document pg2) = skeleton d0) by congruence.
  (* ticket *)
  rewrite (bind_Return _ _ pg2 pg2 (Some ticket))
    by (unfold getElementById;
        rewrite (first_match_same _ _ d0 (Hid "ticket") Hsk2'), Et;
        reflexivity).
  destruct (elem_at_same d0 (document pg2) ticket et (eq_sym Hsk2') Het)
    as (et2 & Het2 & Het2e).
  destruct (validateTicket_run pg2 ticket et2 Het2)
    as (pg3 & Hrun3 & Hsk3 & Ha3 & Hs3).
  rewrite (bind_Return _ _ _ _ _ Hrun3).
  assert (Hsk3' : skeleton (document pg3) = skeleton d0) by congruence.
  set (c2 := extend (mkChecks true [])
               (failing_of d0 (Some dept) empty_value
                ++ failing_of d0 (Some issue) empty_value)).
  assert (Hc3 : (if negb (validity_valid et2) then failed c2 (Some ticket)
                 else c2)
                = extend c2 (failing_of d0 (Some ticket) reported_invalid)).
  { cbn [failing_of]. rewrite Het. unfold reported_invalid.
    rewrite <- (erase_validity _ _ Het2e).
    destruct (validity_valid et2); cbn [negb].
    - rewrite extend_nil. reflexivity.
    - apply extend_failed. }
  rewrite Hc3. unfold c2. rewrite extend_app, <- app_assoc.
  (* items *)
  rewrite (bind_Return _ _ pg3 pg3 (all_matches (has_class "item-card") d0))
    by (unfold document_querySelectorAll;
        rewrite (all_matches_same _ _ d0
                   (fun e => has_class_erase "item-card" e eq_refl) Hsk3');
        reflexivity).
  destruct (validateItems_run d0 _ Hitems pg3
              (extend (mkChecks true [])
                 (failing_of d0 (Some dept) empty_value
                  ++ failing_of d0 (Some issue) empty_value
                  ++ failing_of d0 (Some ticket) reported_invalid)) Hsk3')
    as (pg4 & Hrun4 & Hsk4 & Ha4 & Hs4).
  rewrite (bind_Return _ _ _ _ _ Hrun4), extend_app, <- !app_assoc.
  (* the first error *)
  assert (HF : failing_fields d0
               = failing_of d0 (Some dept) empty_value
                 ++ failing_of d0 (Some issue) empty_value
                 ++ failing_of d0 (Some ticket) reported_invalid
                 ++ flat_map (item_failing d0)
                      (all_matches (has_class "item-card") d0))
    by (unfold failing_fields; rewrite Ed, Ei, Et; reflexivity).
  rewrite <- HF.
  assert (Hact : activeElement pg4 = activeElement pg) by congruence.
  assert (Hscr : scrolledIntoView pg4 = scrolledIntoView pg) by congruence.
  destruct (failing_fields d0) as [|f rest] eqn:EF.
  - exists pg4. split; [reflexivity|]. auto.
  - assert (Hf : exists e, elem_at (document pg4) f = Some e).
    { destruct (failing_fields_live d0 f) as [e He];
        [rewrite EF; left; reflexivity|].
      destruct (elem_at_same d0 (document pg4) f e (eq_sym Hsk4) He)
        as (e' & He' & _). eauto. }
    destruct Hf as [ef Hef].
    cbn [extend isValid errors andb negb app map hd List.length Nat.ltb
         Nat.leb].
    set (pg5 := mkPage (document pg4) (activeElement pg4)
                       (f :: scrolledIntoView pg4)).
    destruct (focus_run pg5 f ef Hef) as (pg6 & Hrun6 & Ha6 & Hs6).
    exists pg6. split.
    + rewrite (bind_Return _ _ pg4 pg6 tt); [reflexivity|].
      rewrite (bind_Return _ _ pg4 pg5 tt) by reflexivity. exact Hrun6.
    + split; [exact Ha6|]. rewrite Hs6. cbn [pg5 scrolledIntoView].
      congruence.
Qed.

Lemma failing_of_nil d p e fails :
  elem_at d p = Some e ->
  failing_of d (Some p) fails = [] <-> fails e = false.
Proof.
  intros He. cbn. rewrite He. destruct (fails e); split; congruence.
Qed.

Lemma flat_map_nil {A B} (f : A -> list B) l :
  flat_map f l = [] <-> forall x, In x l -> f x = [].
Proof.
  induction l as [|x r IH]; cbn.
  - split; [intros _ y []|reflexivity].
  - split.
    + intros H. apply app_eq_nil in H as [H1 H2].
      intros y [<-|Hy]; [exact H1|]. apply (proj1 IH H2 y Hy).
    + intros H. rewrite (H x (or_introl eq_refl)). apply IH.
      intros y Hy. apply H. right. exact Hy.
Qed.

Lemma empty_value_false e : empty_value e = false <-> value e <> "".
Proof. unfold empty_value. apply String.eqb_neq. Qed.

(** No field fails, spelled out. *)
Lemma failing_fields_nil d dept issue ticket ed ei et :
  first_match (has_id "department") d = Some dept -> elem_at d dept = Some ed ->
  first_match (has_id "issue") d = Some issue -> elem_at d issue = Some ei ->
  first_match (has_id "ticket") d = Some ticket -> elem_at d ticket = Some et ->
  (forall item, In item (all_matches (has_class "item-card") d) ->
     card_field d item "desc" <> None /\ card_field d item "eval" <> None) ->
  failing_fields d = []
  <-> value ed <> "" /\ value ei <> "" /\ validity_valid et = true
      /\ forall item f e,
           In item (all_matches (has_class "item-card") d) ->
           card_field d item "desc" = Some f
           \/ card_field d item "eval" = Some f ->
           elem_at d f = Some e -> value e <> "".
Proof.
  intros Hd Hed Hi Hei Ht Het Hitems. unfold failing_fields.
  rewrite Hd, Hi, Ht. split.
  - intros H. apply app_eq_nil in H as [H1 H]. apply app_eq_nil in H as [H2 H].
    apply app_eq_nil in H as [H3 H4].
    apply (failing_of_nil _ _ _ _ Hed) in H1.
    apply (failing_of_nil _ _ _ _ Hei) in H2.
    apply (failing_of_nil _ _ _ _ Het) in H3.
    apply empty_value_false in H1. apply empty_value_false in H2.
    unfold reported_invalid in H3. apply negb_false_iff in H3.
    repeat split; auto.
    intros item f e Hin Hf He.
    pose proof (proj1 (flat_map_nil _ _) H4 item Hin) as Hitem.
    unfold item_failing in Hitem. apply app_eq_nil in Hitem as [Ha Hb].
    apply empty_value_false.
    destruct Hf as [Hf|Hf]; rewrite Hf in *;
      [apply (failing_of_nil _ _ _ _ He) in Ha
      |apply (failing_of_nil _ _ _ _ He) in Hb]; assumption.
  - intros (H1 & H2 & H3 & H4).
    rewrite (proj2 (failing_of_nil _ _ _ _ Hed)) by (apply empty_value_false; auto).
    rewrite (proj2 (failing_of_nil _ _ _ _ Hei)) by (apply empty_value_false; auto).
    rewrite (proj2 (failing_of_nil _ _ _ _ Het))
      by (unfold reported_invalid; rewrite H3; reflexivity).
    cbn [app]. apply flat_map_nil. intros item Hin.
    destruct (Hitems item Hin) as [Hdn Hen]. unfold item_failing.
    destruct (card_field d item "desc") as [dp|] eqn:Edp; [|congruence].
    destruct (card_field d item "eval") as [ep|] eqn:Eep; [|congruence].
    destruct (card_field_sound _ _ _ _ Edp) as [edp Hedp].
    destruct (card_field_sound _ _ _ _ Eep) as [eep Heep].
    rewrite (proj2 (failing_of_nil _ _ _ _ Hedp))
      by (apply empty_value_false; apply (H4 item dp edp Hin); auto).
    rewrite (proj2 (failing_of_nil _ _ _ _ Heep))
      by (apply empty_value_false; apply (H4 item ep eep Hin); auto).
    reflexivity.
Qed.

(** C8, as the code has it.  On a page that has the form, [validateForm]
    returns [true] exactly when the department and the issue number are not
    empty, [validateTicket] returns [true] for the ticket, and the description
    and the evaluation of every item card are not empty (the evaluation is not
    required to be a number).  When it returns [false], the first failing
    field, in the order of the checks (department, issue, ticket, then the
    cards in document order, description before evaluation), is scrolled into
    view and focused. *)
Theorem validateForm_true_iff_no_field_fails pg dept issue ticket :
  let d := document pg in
  let cards := all_matches (has_class "item-card") d in
  first_match (has_id "department") d = Some dept ->
  first_match (has_id "issue") d = Some issue ->
  first_match (has_id "ticket") d = Some ticket ->
  (forall item, In item cards ->
     card_field d item "desc" <> None /\ card_field d item "eval" <> None) ->
  exists pg' b,
    validateForm pg = (pg', Return b)
    /\ (b = true
        <-> option_map value (elem_at d dept) <> Some ""
            /\ option_map value (elem_at d issue) <> Some ""
            /\ snd (validateTicket (Some ticket) pg) = Return true
            /\ forall item f,
                 In item cards ->
                 card_field d item "desc" = Some f
                 \/ card_field d item "eval" = Some f ->
                 option_map value (elem_at d f) <> Some "")
    /\ (forall f rest, failing_fields d = f :: rest ->
          b = false /\ activeElement pg' = Some f
          /\ scrolledIntoView pg' = f :: scrolledIntoView pg).
Proof.
  intros d cards Hd Hi Ht Hitems.
  assert (Hc : form_complete (document pg)).
  { fold d. unfold form_complete. rewrite Hd, Hi, Ht.
    repeat split; try discriminate; apply Hitems; assumption. }
  destruct (first_match_sound _ _ _ Hd) as (ed & Hed & _).
  destruct (first_match_sound _ _ _ Hi) as (ei & Hei & _).
  destruct (first_match_sound _ _ _ Ht) as (et & Het & _).
  destruct (validateTicket_run pg ticket et Het) as (pgt & Hrunt & _).
  pose proof (failing_fields_nil d dept issue ticket ed ei et
                Hd Hed Hi Hei Ht Het Hitems) as Hnil.
  assert (Hiff : failing_fields d = []
                 <-> option_map value (elem_at d dept) <> Some ""
                     /\ option_map value (elem_at d issue) <> Some ""
                     /\ snd (validateTicket (Some ticket) pg) = Return true
                     /\ forall item f,
                          In item cards ->
                          card_field d item "desc" = Some f
                          \/ card_field d item "eval" = Some f ->
                          option_map value (elem_at d f) <> Some "").
  { rewrite Hnil, Hed, Hei, Hrunt. cbn [option_map snd]. split.
    - intros (H1 & H2 & H3 & H4). repeat split; try congruence.
      intros item f Hin Hf.
      destruct (elem_at d f) as [e|] eqn:E; [|discriminate].
      cbn. intros H. inversion H. apply (H4 item f e Hin Hf E). assumption.
    - intros (H1 & H2 & H3 & H4). repeat split; try congruence.
      intros item f e Hin Hf He Hv. apply (H4 item f Hin Hf).
      rewrite He. cbn. congruence. }
  destruct (validateForm_run pg Hc) as (pg' & Hrun & Hfocus).
  fold d in Hrun, Hfocus.
  exists pg'. destruct (failing_fields d) as [|f rest].
  - exists true. split; [exact Hrun|]. split; [|discriminate].
    split; [intros _; apply Hiff; reflexivity|reflexivity].
  - exists false. split; [exact Hrun|]. split.
    + split; [discriminate|]. intros H. apply Hiff in H. discriminate.
    + intros f' rest' H. inversion H; subst. tauto.
Qed.

Lemma validateForm_true_iff_no_field_fails_witness :
  let pg := Example.page
              (Example.form "" "17" Example.valid_ticket
                            [Example.item_card "" "5"]) in
  exists pg',
    validateForm pg = (pg', Return false)
    /\ activeElement pg' = Some [0]
    /\ scrolledIntoView pg' = [[0]].
Proof.
  intros pg.
  assert (Hitems : forall item,
            In item (all_matches (has_class "item-card") (document pg)) ->
            card_field (document pg) item "desc" <> None
            /\ card_field (document pg) item "eval" <> None).
  { intros item [<-|[]]. split; discriminate. }
  destruct (validateForm_true_iff_no_field_fails pg [0] [2] [4]
              eq_refl eq_refl eq_refl Hitems)
    as (pg' & b & Hrun & _ & Hfirst).
  destruct (Hfirst [0] [[6; 0]] eq_refl) as (-> & Ha & Hs).
  exists pg'. auto.
Defined.

(** The order of the checks is not the order of the document when the page
    lists the fields otherwise: with an empty issue number placed before an
    empty department, the department is focused. *)
Lemma validateForm_focus_follows_check_order :
  let pg := Example.page Example.reordered_form in
  failing_fields (document pg) = [[2]; [0]]
  /\ snd (validateForm pg) = Return false
  /\ activeElement (fst (validateForm pg)) = Some [2]
  /\ option_map id (elem_at (document pg) [2]) = Some "department".
Proof. vm_compute. repeat split. Qed.

(** C8, as stated, fails: an evaluation without a single digit passes. *)
Lemma validateForm_accepts_non_numeric_evaluation :
  let pg := Example.page
              (Example.form "Sklad" "17" Example.valid_ticket
                            [Example.item_card "ring" "abc"]) in
  Js.strip_non_digits "abc" = ""
  /\ form_complete (document pg)
  /\ snd (validateForm pg) = Return true.
Proof.
  intros pg. split; [reflexivity|]. split.
  - repeat split; try discriminate;
      match goal with H : In _ _ |- _ => destruct H as [<-|[]] end;
      discriminate.
  - vm_compute. reflexivity.
Qed.

End FormValidation.

(** ** Delivery of a report *)

Section Delivery.
Import Eff Sw.
Open Scope script_scope.

Lemma ok_iff r : ok r = true <-> 200 <= status r <= 299.
Proof.
  unfold ok. rewrite andb_true_iff, !Nat.leb_le. reflexivity.
Qed.

(** What [sendReport] does with each answer of the network: exactly one
    request is sent, and the completion depends on the answer alone. *)
Lemma sendReport_run w data :
  sendReport data w
  = (set_sent (POST_generate data :: sent w) w,
     match network w (List.length (sent w)) (POST_generate data) with
     | NetworkError => Throw (TypeError "Failed to fetch")
     | Responded r =>
         if ok r then
           match json r with
           | Some v => Return v
           | None => Throw (SyntaxError "Unexpected token in JSON")
           end
         else Throw (Error "Failed to send report")
     end).
Proof.
  unfold sendReport, fetch, bind, request.
  destruct (network w (List.length (sent w)) (POST_generate data)) as [|r];
    [reflexivity|].
  cbn. destruct (ok r); cbn; [|reflexivity].
  destruct (json r); reflexivity.
Qed.

(** C7, as the code has it.  [sendReport] returns exactly when the server
    answers with a status from 200 to 299 and a body that is JSON, and it
    returns that JSON; it raises an error in every other case: a transport
    failure, another status, or a body that is not JSON. *)
Theorem sendReport_returns_iff_ok_and_json w data :
  let answer := network w (List.length (sent w)) (POST_generate data) in
  (forall v, snd (sendReport data w) = Return v
             <-> exists r, answer = Responded r
                           /\ 200 <= status r <= 299 /\ json r = Some v)
  /\ ((exists e, snd (sendReport data w) = Throw e)
      <-> answer = NetworkError
          \/ exists r, answer = Responded r
                       /\ (~ 200 <= status r <= 299 \/ json r = None)).
Proof.
  cbn zeta. rewrite sendReport_run. cbn [snd].
  destruct (network w (List.length (sent w)) (POST_generate data)) as [|r].
  - split.
    + intros v. split; [discriminate|]. intros (r & H & _). discriminate.
    + split; [auto|]. intros _. eauto.
  - pose proof (ok_iff r) as Hok. destruct (ok r).
    + assert (Hs : 200 <= status r <= 299) by (apply Hok; reflexivity).
      destruct (json r) as [j|] eqn:Ej.
      * split.
        -- intros v. split.
           ++ intros H. inversion H; subst. exists r. auto.
           ++ intros (r' & H & _ & Hj). inversion H; subst.
              congruence.
        -- split.
           ++ intros (e & H). discriminate.
           ++ intros [H|(r' & H & [Hn|Hj])]; [discriminate| |].
              ** inversion H; subst. contradiction.
              ** inversion H; subst. congruence.
      * split.
        -- intros v. split; [discriminate|].
           intros (r' & H & _ & Hj). inversion H; subst. congruence.
        -- split; [|eauto]. intros _. right. exists r. auto.
    + assert (Hs : ~ 200 <= status r <= 299)
        by (intros H; apply Hok in H; discriminate).
      split.
      * intros v. split; [discriminate|].
        intros (r' & H & Hr & _). inversion H; subst. contradiction.
      * split; [|eauto]. intros _. right. exists r. auto.
Qed.

(** C7, as stated, fails: a 200 answer whose body is not JSON makes
    [sendReport] raise an error. *)
Lemma sendReport_raises_on_success_status :
  let w := Example.world Example.ok_without_json [] (Stored []) in
  network w (List.length (sent w)) (POST_generate "r1")
  = Responded (mkResponse 200 None)
  /\ ok (mkResponse 200 None) = true
  /\ snd (sendReport "r1" w) = Throw (SyntaxError "Unexpected token in JSON").
Proof. repeat split. Qed.

End Delivery.

(** ** Background sync *)

Section BackgroundSync.
Import Eff Sw.
Open Scope script_scope.

(** The loop of [syncPendingReports], had it been given the records: every
    record is sent once, in order; the accepted ones leave the store, the
    others stay, and a failure does not stop the loop. *)
Lemma sync_each_run items :
  forall w pending,
    indexedDB w = Stored pending ->
    exists w',
      sync_each VDatabase items w = (w', Return tt)
      /\ sent w' = rev (map (fun item => POST_generate (data item)) items)
                   ++ sent w
      /\ indexedDB w'
         = Stored (fold_left (fun l key => without key l)
                     (delivered (network w) (List.length (sent w)) items)
                     pending)
      /\ network w' = network w /\ caches w' = caches w.
Proof.
  induction items as [|item rest IH]; intros w pending Hdb.
  - exists w. cbn. auto.
  - cbn [sync_each delivered map rev].
    set (o := network w (List.length (sent w)) (POST_generate (data item))).
    set (w1 := set_sent (POST_generate (data item) :: sent w) w).
    assert (Hstep : exists w2,
              try_catch
                (sendReport (data item) ;;
                 deleted <- objectStore_delete VDatabase (id item) ;;
                 await deleted ;; ret tt)
                (fun _ => console_error "Failed to sync report:") w
              = (w2, Return tt)
              /\ sent w2 = POST_generate (data item) :: sent w
              /\ indexedDB w2
                 = Stored (if accepted o then without (id item) pending
                           else pending)
              /\ network w2 = network w /\ caches w2 = caches w).
    { unfold try_catch, bind. rewrite sendReport_run. fold o. fold w1.
      unfold accepted. destruct o as [|r].
      - eexists. split; [reflexivity|]. cbn. auto.
      - destruct (ok r); cbn [andb].
        + destruct (json r).
          * unfold objectStore_delete. cbn [w1 indexedDB set_sent].
            rewrite Hdb. eexists. split; [reflexivity|]. cbn. auto.
          * eexists. split; [reflexivity|]. cbn. auto.
        + eexists. split; [reflexivity|]. cbn. auto. }
    destruct Hstep as (w2 & Hrun2 & Hs2 & Hdb2 & Hn2 & Hc2).
    destruct (IH w2 _ Hdb2) as (w3 & Hrun3 & Hs3 & Hdb3 & Hn3 & Hc3).
    exists w3. rewrite (bind_Return _ _ _ _ _ Hrun2).
    split; [exact Hrun3|].
    rewrite Hs3, Hdb3, Hn3, Hc3, Hs2, Hn2, Hc2.
    repeat split; auto.
    + rewrite <- app_assoc. reflexivity.
    + f_equal. cbn [List.length]. fold o.
      rewrite fold_left_app. destruct (accepted o); reflexivity.
Qed.

(** The loop on the batch of the specification: of three records, the
    second refused, the first and the third leave the store. *)
Lemma sync_each_partial_failure :
  let w := Example.world Example.second_fails []
                         (Stored Example.three_queued) in
  indexedDB (fst (sync_each VDatabase Example.three_queued w))
  = Stored [mkPending 2 "r2"]
  /\ List.length (sent (fst (sync_each VDatabase Example.three_queued w))) = 3.
Proof. split; reflexivity. Qed.

(** [syncPendingReports] itself never reaches that loop.  [getAll()] answers
    with an [IDBRequest]; it is not a promise, so [await] hands it back
    unchanged, and it is not iterable, so [for ... of] throws. *)
Lemma syncPendingReports_run w :
  syncPendingReports w
  = (w, match indexedDB w with
        | Stored _ => Throw (TypeError "pending is not iterable")
        | Unavailable => Throw (DOMException "cannot open ReportsDB")
        end).
Proof.
  unfold syncPendingReports, bind, openDB, objectStore_getAll.
  destruct (indexedDB w) eqn:E; cbn; [reflexivity|].
  rewrite E. reflexivity.
Qed.

(** C1 (the code departs from it).  With three records queued and a server
    that fails the second request, one sync trigger delivers nothing: the
    script throws before the first delivery attempt, no request is sent, and
    the three records stay queued, where the specification has records 1 and 3
    removed. *)
Theorem sync_trigger_attempts_no_delivery :
  let w := Example.world Example.second_fails []
                         (Stored Example.three_queued) in
  on_sync "sync-reports" w
  = (w, Throw (TypeError "pending is not iterable"))
  /\ sent (fst (on_sync "sync-reports" w)) = []
  /\ indexedDB (fst (on_sync "sync-reports" w)) = Stored Example.three_queued.
Proof. repeat split. Qed.

End BackgroundSync.

(** ** The offline cache *)

Section OfflineCache.
Import Eff Sw.
Open Scope script_scope.

(** *** Association lists *)

Lemma lookup_app_Some {A} k (l l' : list (string * A)) v :
  lookup k l = Some v -> lookup k (l ++ l') = Some v.
Proof.
  induction l as [|[k' v'] r IH]; [discriminate|].
  cbn. destruct (String.eqb k k'); auto.
Qed.

Lemma lookup_app_None {A} k (l l' : list (string * A)) :
  lookup k l = None -> lookup k (l ++ l') = lookup k l'.
Proof.
  induction l as [|[k' v'] r IH]; [reflexivity|].
  cbn. destruct (String.eqb k k'); [discriminate|auto].
Qed.

Lemma lookup_replace_same {A} k (v : A) l :
  lookup k l <> None -> lookup k (replace k v l) = Some v.
Proof.
  induction l as [|[k' v'] r IH]; [cbn; congruence|].
  cbn. destruct (String.eqb k k') eqn:E; cbn; rewrite E; auto.
Qed.

Lemma lookup_replace_other {A} k k' (v : A) l :
  k' <> k -> lookup k' (replace k v l) = lookup k' l.
Proof.
  intros Hk. induction l as [|[k0 v0] r IH]; [reflexivity|].
  cbn. destruct (String.eqb k k0) eqn:E; cbn.
  - apply String.eqb_eq in E. subst.
    destruct (String.eqb_spec k' k0); [contradiction|reflexivity].
  - rewrite IH. reflexivity.
Qed.

Lemma map_fst_replace {A} k (v : A) l : map fst (replace k v l) = map fst l.
Proof.
  induction l as [|[k' v'] r IH]; [reflexivity|].
  cbn. destruct (String.eqb k k'); cbn; [|rewrite IH]; reflexivity.
Qed.

Lemma lookup_put_same {A} k (v : A) l : lookup k (put k v l) = Some v.
Proof.
  unfold put. destruct (lookup k l) eqn:E.
  - apply lookup_replace_same. congruence.
  - rewrite (lookup_app_None _ _ _ E). cbn. rewrite String.eqb_refl.
    reflexivity.
Qed.

Lemma lookup_put_keeps {A} k k' (v : A) l :
  lookup k' l <> None -> lookup k' (put k v l) <> None.
Proof.
  intros H. destruct (String.eqb_spec k' k) as [->|Hne].
  - rewrite lookup_put_same. discriminate.
  - unfold put. destruct (lookup k l).
    + rewrite (lookup_replace_other _ _ _ _ Hne). exact H.
    + destruct (lookup k' l) eqn:E; [|congruence].
      rewrite (lookup_app_Some _ _ _ _ E). discriminate.
Qed.

Lemma put_all_keeps entries :
  forall c u, lookup u c <> None -> lookup u (put_all entries c) <> None.
Proof.
  induction entries as [|[k v] r IH]; intros c u H; [exact H|].
  cbn. apply IH. apply lookup_put_keeps. exact H.
Qed.

Lemma put_all_has entries :
  forall c u, In u (map fst entries) -> lookup u (put_all entries c) <> None.
Proof.
  induction entries as [|[k v] r IH]; intros c u H; [contradiction|].
  cbn in H |- *. destruct (String.eqb_spec u k) as [->|Hne].
  - apply put_all_keeps. rewrite lookup_put_same. discriminate.
  - destruct H as [H|H]; [congruence|]. apply IH. exact H.
Qed.

Lemma remove_absent {A} k (l : list (string * A)) :
  lookup k l = None -> remove k l = l.
Proof.
  unfold remove. induction l as [|[k' v'] r IH]; [reflexivity|].
  cbn. destruct (String.eqb k k'); [discriminate|].
  intros H. cbn. rewrite (IH H). reflexivity.
Qed.

Lemma lookup_not_in {A} k (l : list (string * A)) :
  ~ In k (map fst l) -> lookup k l = None.
Proof.
  induction l as [|[k' v'] r IH]; [reflexivity|].
  cbn. intros H. destruct (String.eqb_spec k k') as [->|Hne]; [tauto|].
  apply IH. tauto.
Qed.

Lemma filter_key_absent {A} k (l : list (string * A)) :
  ~ In k (map fst l) -> filter (fun kv => String.eqb (fst kv) k) l = [].
Proof.
  induction l as [|[k' v'] r IH]; [reflexivity|].
  cbn. intros H. destruct (String.eqb_spec k' k) as [->|Hne]; [tauto|].
  apply IH. tauto.
Qed.

(** In a storage without duplicate names, keeping the caches named [k]
    keeps exactly the cache [k]. *)
Lemma filter_key_unique {A} k (v : A) l :
  NoDup (map fst l) -> lookup k l = Some v ->
  filter (fun kv => String.eqb (fst kv) k) l = [(k, v)].
Proof.
  induction l as [|[k' v'] r IH]; [discriminate|].
  cbn. intros Hnd H. inversion Hnd as [|? ? Hnot Hnd']; subst.
  destruct (String.eqb_spec k k') as [->|Hne].
  - rewrite String.eqb_refl. inversion H; subst.
    rewrite (filter_key_absent _ _ Hnot). reflexivity.
  - destruct (String.eqb_spec k' k) as [->|_]; [congruence|].
    apply IH; assumption.
Qed.

(** *** Precaching *)

Lemma request_all_run urls :
  forall w,
    request_all urls w
    = (set_sent (rev (map GET urls) ++ sent w) w,
       Return (outcomes_from (network w) (List.length (sent w)) urls)).
Proof.
  induction urls as [|u rest IH]; intros w.
  - destruct w; reflexivity.
  - cbn [request_all]. unfold bind. unfold request at 1.
    rewrite IH. cbn. rewrite <- app_assoc. reflexivity.
Qed.

Lemma all_usable_fails net urls :
  forall n k u,
    nth_error urls k = Some u -> usable (net (n + k) (GET u)) = None ->
    all_usable (outcomes_from net n urls) = None.
Proof.
  induction urls as [|u0 rest IH]; intros n [|k] u Hn Hu; try discriminate.
  - cbn in Hn. inversion Hn; subst. rewrite Nat.add_0_r in Hu.
    cbn. rewrite Hu. reflexivity.
  - cbn [nth_error] in Hn. cbn [outcomes_from all_usable].
    rewrite (IH (S n) k u Hn)
      by (replace (S n + k) with (n + S k) by lia; exact Hu).
    destruct (usable (net n (GET u0))); reflexivity.
Qed.

Lemma all_usable_keys os :
  forall entries, all_usable os = Some entries -> map fst entries = map fst os.
Proof.
  induction os as [|[u o] rest IH]; intros entries H.
  - inversion H. reflexivity.
  - cbn in H. destruct (usable o); [|discriminate].
    destruct (all_usable rest) as [rs|]; [|discriminate].
    inversion H; subst. cbn. rewrite (IH rs eq_refl). reflexivity.
Qed.

Lemma outcomes_from_keys net urls : forall n,
  map fst (outcomes_from net n urls) = urls.
Proof.
  induction urls as [|u rest IH]; intros n; [reflexivity|].
  cbn. rewrite IH. reflexivity.
Qed.

(** [caches.open(CACHE_NAME)]: afterwards the cache exists, the caches that
    existed are unchanged, and a cache that was created is empty. *)
Lemma caches_open_run name w :
  exists w',
    caches_open name w = (w', Return name)
    /\ (caches w' = caches w
        \/ (lookup name (caches w) = None
            /\ caches w' = caches w ++ [(name, [])]))
    /\ lookup name (caches w') <> None
    /\ network w' = network w /\ sent w' = sent w
    /\ location_pathname w' = location_pathname w
    /\ indexedDB w' = indexedDB w
    /\ skipWaitingFlag w' = skipWaitingFlag w.
Proof.
  unfold caches_open. destruct (lookup name (caches w)) eqn:E.
  - exists w. rewrite E. repeat split; auto. discriminate.
  - eexists. split; [reflexivity|]. cbn. repeat split; auto.
    rewrite (lookup_app_None _ _ _ E). cbn. rewrite String.eqb_refl.
    discriminate.
Qed.

(** The two ways the ['install'] listener can end. *)
Lemma on_install_run w :
  exists w1,
    (caches w1 = caches w
     \/ (lookup CACHE_NAME (caches w) = None
         /\ caches w1 = caches w ++ [(CACHE_NAME, [])]))
    /\ lookup CACHE_NAME (caches w1) <> None
    /\ match all_usable (outcomes_from (network w) (List.length (sent w))
                                       (urlsToCache w)) with
       | None =>
           exists w', on_install w = (w', Throw (TypeError "Request failed"))
                      /\ caches w' = caches w1
       | Some entries =>
           exists c0,
             lookup CACHE_NAME (caches w1) = Some c0
             /\ exists w',
                  on_install w = (w', Return tt)
                  /\ caches w'
                     = replace CACHE_NAME (put_all entries c0) (caches w1)
                  /\ skipWaitingFlag w' = true
                  /\ location_pathname w' = location_pathname w
       end.
Proof.
  set (wa := set_skipWaitingFlag true w).
  destruct (caches_open_run CACHE_NAME wa)
    as (w1 & Hopen & Hcs & Hhas & Hnet & Hsent & Hloc & Hdb & Hflag).
  exists w1. split; [exact Hcs|]. split; [exact Hhas|].
  assert (Hrun : on_install w
                 = cache_addAll CACHE_NAME (urlsToCache w) w1).
  { unfold on_install.
    rewrite (bind_Return _ _ w wa tt) by reflexivity.
    rewrite (bind_Return _ _ wa wa (urlsToCache w)) by reflexivity.
    rewrite (bind_Return _ _ _ _ _ Hopen). reflexivity. }
  rewrite Hrun. unfold cache_addAll.
  rewrite (bind_Return _ _ _ _ _ (request_all_run _ w1)).
  rewrite Hnet, Hsent. cbn [wa network sent set_skipWaitingFlag].
  destruct (all_usable _) as [entries|].
  - destruct (lookup CACHE_NAME (caches w1)) as [c0|] eqn:E; [|congruence].
    exists c0. split; [reflexivity|].
    cbn [caches set_sent]. rewrite E.
    eexists. split; [reflexivity|].
    cbn [caches skipWaitingFlag location_pathname set_caches set_sent].
    repeat split; [rewrite Hflag; reflexivity|rewrite Hloc; reflexivity].
  - eexists. split; [reflexivity|]. reflexivity.
Qed.

(** *** Activation *)

Lemma filter_filter_and {A} (f g : A -> bool) l :
  filter f (filter g l) = filter (fun x => g x && f x) l.
Proof.
  induction l as [|x r IH]; [reflexivity|].
  cbn. destruct (g x); cbn; [destruct (f x)|]; rewrite IH; reflexivity.
Qed.

Lemma filter_all_true {A} (f : A -> bool) l :
  (forall x, f x = true) -> filter f l = l.
Proof.
  intros H. induction l as [|x r IH]; [reflexivity|].
  cbn. rewrite H, IH. reflexivity.
Qed.

Lemma delete_stale_run names :
  forall w,
    exists w',
      delete_stale names w = (w', Return tt)
      /\ caches w'
         = filter (fun kv => negb (existsb (stale_hit kv) names)) (caches w)
      /\ network w' = network w /\ sent w' = sent w
      /\ location_pathname w' = location_pathname w
      /\ indexedDB w' = indexedDB w.
Proof.
  induction names as [|name rest IH]; intros w.
  - exists w. cbn [delete_stale existsb negb].
    rewrite filter_all_true by reflexivity. repeat split; reflexivity.
  - assert (Hstep : exists w1,
              (if negb (String.eqb name CACHE_NAME)
               then caches_delete name ;; ret tt else ret tt) w
              = (w1, Return tt)
              /\ caches w1
                 = filter (fun kv => negb (stale_hit kv name)) (caches w)
              /\ network w1 = network w /\ sent w1 = sent w
              /\ location_pathname w1 = location_pathname w
              /\ indexedDB w1 = indexedDB w).
    { unfold stale_hit. destruct (String.eqb name CACHE_NAME); cbn [negb].
      - exists w. split; [reflexivity|].
        rewrite filter_all_true
          by (intros kv; rewrite andb_false_r; reflexivity).
        repeat split; reflexivity.
      - unfold bind, caches_delete.
        destruct (lookup name (caches w)) eqn:E.
        + eexists. split; [reflexivity|].
          cbn [caches network sent location_pathname indexedDB set_caches].
          repeat split; try reflexivity.
          unfold remove. apply filter_ext. intros kv.
          rewrite andb_true_r. reflexivity.
        + exists w. split; [reflexivity|].
          repeat split; try reflexivity.
          rewrite <- (remove_absent _ _ E) at 1.
          unfold remove. apply filter_ext. intros kv.
          rewrite andb_true_r. reflexivity. }
    destruct Hstep as (w1 & Hrun1 & Hc1 & Hn1 & Hs1 & Hl1 & Hd1).
    destruct (IH w1) as (w2 & Hrun2 & Hc2 & Hn2 & Hs2 & Hl2 & Hd2).
    exists w2. cbn [delete_stale].
    rewrite (bind_Return _ _ _ _ _ Hrun1). split; [exact Hrun2|].
    repeat split; try congruence.
    rewrite Hc2, Hc1, filter_filter_and. apply filter_ext. intros kv.
    cbn [existsb]. rewrite negb_orb. reflexivity.
Qed.

Lemma stale_hits_all_names (l : list (string * Cache)) kv :
  In kv l ->
  negb (existsb (stale_hit kv) (map fst l)) = String.eqb (fst kv) CACHE_NAME.
Proof.
  intros Hin. destruct (String.eqb_spec (fst kv) CACHE_NAME) as [Heq|Hne].
  - destruct (existsb (stale_hit kv) (map fst l)) eqn:E; [|reflexivity].
    apply existsb_exists in E as (n & _ & Hn). unfold stale_hit in Hn.
    apply andb_prop in Hn as [H1 H2]. apply String.eqb_eq in H1.
    rewrite H1, Heq, String.eqb_refl in H2. discriminate.
  - assert (E : existsb (stale_hit kv) (map fst l) = true).
    { apply existsb_exists. exists (fst kv). split; [apply in_map; auto|].
      unfold stale_hit. rewrite String.eqb_refl.
      destruct (String.eqb_spec (fst kv) CACHE_NAME); [contradiction|].
      reflexivity. }
    rewrite E. reflexivity.
Qed.

(** The ['activate'] listener keeps the caches named [CACHE_NAME] and deletes
    all the others. *)
Lemma on_activate_run w :
  exists w',
    on_activate w = (w', Return tt)
    /\ caches w'
       = filter (fun kv => String.eqb (fst kv) CACHE_NAME) (caches w)
    /\ network w' = network w /\ sent w' = sent w
    /\ location_pathname w' = location_pathname w
    /\ indexedDB w' = indexedDB w.
Proof.
  set (wa := set_claimed true w).
  destruct (delete_stale_run (map fst (caches w)) wa)
    as (w' & Hrun & Hc & Hn & Hs & Hl & Hd).
  exists w'. split.
  - unfold on_activate.
    rewrite (bind_Return _ _ w wa tt) by reflexivity.
    rewrite (bind_Return _ _ wa wa (map fst (caches w))) by reflexivity.
    exact Hrun.
  - repeat split; auto. rewrite Hc. cbn [wa caches set_claimed].
    apply filter_ext_in. intros kv Hin. apply stale_hits_all_names. exact Hin.
Qed.

Lemma lookup_None_not_in {A} k (l : list (string * A)) :
  lookup k l = None -> ~ In k (map fst l).
Proof.
  induction l as [|[k' v'] r IH]; [auto|].
  cbn. destruct (String.eqb_spec k k') as [->|Hne]; [discriminate|].
  intros H [Heq|Hin]; [congruence|]. apply (IH H Hin).
Qed.

Lemma NoDup_keys_snoc {A} k (v : A) l :
  NoDup (map fst l) -> lookup k l = None -> NoDup (map fst (l ++ [(k, v)])).
Proof.
  intros Hnd Hk. rewrite map_app. cbn.
  apply NoDup_app; [exact Hnd|repeat constructor; auto|].
  intros x Hx [<-|[]]. apply (lookup_None_not_in _ _ Hk Hx).
Qed.

(** Installation then activation, step by step. *)
Lemma install_then_activate w w1 :
  NoDup (map fst (caches w)) ->
  on_install w = (w1, Return tt) ->
  exists w2 c,
    on_activate w1 = (w2, Return tt)
    /\ caches w2 = [(CACHE_NAME, c)]
    /\ (forall u, In u (urlsToCache w) -> lookup u c <> None).
Proof.
  intros Hnd Hinst.
  destruct (on_install_run w) as (wo & Hopen & _ & Hcase).
  destruct (all_usable _) as [entries|] eqn:Eu.
  2:{ destruct Hcase as (w' & Hrun & _). congruence. }
  destruct Hcase as (c0 & Hc0 & w' & Hrun & Hcs & _).
  assert (w' = w1) by congruence. subst w'.
  assert (Hndo : NoDup (map fst (caches wo))).
  { destruct Hopen as [->|[Hnone ->]]; [exact Hnd|].
    apply NoDup_keys_snoc; assumption. }
  assert (Hnd1 : NoDup (map fst (caches w1)))
    by (rewrite Hcs, map_fst_replace; exact Hndo).
  assert (Hl1 : lookup CACHE_NAME (caches w1) = Some (put_all entries c0))
    by (rewrite Hcs; apply lookup_replace_same; congruence).
  destruct (on_activate_run w1) as (w2 & Hrun2 & Hc2 & _).
  rewrite (filter_key_unique _ _ _ Hnd1 Hl1) in Hc2.
  exists w2, (put_all entries c0). split; [exact Hrun2|].
  split; [exact Hc2|].
  intros u Hu. apply put_all_has.
  rewrite (all_usable_keys _ _ Eu), outcomes_from_keys. exact Hu.
Qed.

Lemma install_then_activate_only_current w w1 :
  NoDup (map fst (caches w)) ->
  on_install w = (w1, Return tt) ->
  exists w2 c, on_activate w1 = (w2, Return tt)
               /\ caches w2 = [(CACHE_NAME, c)].
Proof.
  intros Hnd Hinst.
  destruct (install_then_activate w w1 Hnd Hinst) as (w2 & c & H1 & H2 & _).
  eauto.
Qed.

(** C4.  Once this version is installed, its activation leaves exactly one
    cache in the storage, the one named [CACHE_NAME]: the cache of any other
    version is deleted, and a fetch for a precached path is answered from the
    cache of this version. *)
Theorem activation_leaves_only_current_cache w w1 :
  NoDup (map fst (caches w)) ->
  on_install w = (w1, Return tt) ->
  exists w2 c,
    on_activate w1 = (w2, Return tt)
    /\ caches w2 = [(CACHE_NAME, c)]
    /\ (forall name, name <> CACHE_NAME -> lookup name (caches w2) = None)
    /\ (forall u, In u (urlsToCache w) ->
          exists r, lookup u c = Some r
                    /\ on_fetch (GET u) w2 = (w2, Return r)).
Proof.
  intros Hnd Hinst.
  destruct (install_then_activate w w1 Hnd Hinst)
    as (w2 & c & Hrun2 & Hc2 & Hhas).
  exists w2, c. split; [exact Hrun2|]. split; [exact Hc2|]. split.
  - intros name Hne. rewrite Hc2. cbn [lookup].
    destruct (String.eqb_spec name CACHE_NAME); [contradiction|reflexivity].
  - intros u Hu.
    destruct (lookup u c) as [r|] eqn:Er; [|exfalso; apply (Hhas u Hu Er)].
    exists r. split; [reflexivity|].
    unfold on_fetch, bind, caches_match. rewrite Hc2.
    cbn [storage_match]. unfold cache_match, GET. cbn [method url].
    change (String.eqb "GET" "GET") with true. cbn iota.
    rewrite Er. reflexivity.
Qed.

Lemma activation_leaves_only_current_cache_witness :
  let w := Example.world Example.serves_all [Example.old_cache] (Stored []) in
  exists w2 c,
    on_activate (fst (on_install w)) = (w2, Return tt)
    /\ caches w2 = [(CACHE_NAME, c)]
    /\ lookup "sklad-bot-2321" (caches w2) = None.
Proof.
  intros w.
  assert (Hnd : NoDup (map fst (caches w)))
    by (repeat constructor; cbn; tauto).
  destruct (activation_leaves_only_current_cache w (fst (on_install w)) Hnd
              eq_refl) as (w2 & c & Hrun & Hc & Hgone & _).
  exists w2, c. repeat split; auto. apply Hgone. discriminate.
Defined.

(** Version rollover through the life cycle: when every asset is served,
    installing this script activates it, and the storage is left with the
    cache of this version alone. *)
Lemma install_worker_rollover w reg entries :
  NoDup (map fst (caches w)) ->
  all_usable (outcomes_from (network w) (List.length (sent w))
                            (urlsToCache w)) = Some entries ->
  exists w2 c,
    install_worker reg w = (w2, Return (mkRegistration (Some VERSION) None))
    /\ caches w2 = [(CACHE_NAME, c)].
Proof.
  intros Hnd Hu.
  destruct (on_install_run w) as (wo & _ & _ & Hcase). rewrite Hu in Hcase.
  destruct Hcase as (c0 & _ & w1 & Hrun & _ & Hflag & _).
  destruct (install_then_activate_only_current w w1 Hnd Hrun)
    as (w2 & c & Hrun2 & Hc2).
  exists w2, c. split; [|exact Hc2].
  unfold install_worker. rewrite Hrun, Hflag, Hrun2. reflexivity.
Qed.

Lemma storage_match_snoc_empty cs name req :
  storage_match (cs ++ [(name, [])]) req = storage_match cs req.
Proof.
  induction cs as [|[n c] r IH]; cbn.
  - unfold cache_match. destruct (String.eqb (method req) "GET"); reflexivity.
  - destruct (cache_match c req); [reflexivity|exact IH].
Qed.

(** C5.  When precaching a listed asset fails, the installation fails: the
    new worker is not activated and the registration stays as it was; every
    cache that existed keeps its content, the cache of the new version, if it
    was created, is empty, and the storage answers every request as
    before. *)
Theorem failed_precache_keeps_previous_version w reg :
  precache_fails w ->
  exists w',
    install_worker reg w = (w', Return reg)
    /\ (forall name c, lookup name (caches w) = Some c ->
                       lookup name (caches w') = Some c)
    /\ (lookup CACHE_NAME (caches w) = None ->
        lookup CACHE_NAME (caches w') = Some [])
    /\ (forall req, storage_match (caches w') req
                    = storage_match (caches w) req).
Proof.
  intros (k & u & Hk & Hu).
  destruct (on_install_run w) as (wo & Hopen & Hhas & Hcase).
  rewrite (all_usable_fails _ _ _ k u Hk Hu) in Hcase.
  destruct Hcase as (w' & Hrun & Hcs).
  exists w'. split; [unfold install_worker; rewrite Hrun; reflexivity|].
  rewrite Hcs. destruct Hopen as [Hsame|[Hnone ->]].
  - rewrite Hsame in *. repeat split; auto. intros H. contradiction.
  - repeat split.
    + intros name c H. apply lookup_app_Some. exact H.
    + intros _. rewrite (lookup_app_None _ _ _ Hnone). cbn [lookup].
      rewrite String.eqb_refl. reflexivity.
    + intros req. apply storage_match_snoc_empty.
Qed.

Lemma failed_precache_keeps_previous_version_witness :
  let w := Example.world Example.index_missing [Example.old_cache]
                         (Stored []) in
  let reg := mkRegistration (Some "2321") None in
  exists w',
    install_worker reg w = (w', Return reg)
    /\ lookup "sklad-bot-2321" (caches w') = Some (snd Example.old_cache)
    /\ lookup CACHE_NAME (caches w') = Some []
    /\ storage_match (caches w') (GET "/app/")
       = Some (mkResponse 200 None).
Proof.
  intros w reg.
  assert (Hfail : precache_fails w)
    by (exists 1, "/app/index.html"; split; reflexivity).
  destruct (failed_precache_keeps_previous_version w reg Hfail)
    as (w' & Hrun & Hkeep & Hempty & Hmatch).
  exists w'. split; [exact Hrun|]. split; [apply Hkeep; reflexivity|].
  split; [apply Hempty; reflexivity|]. rewrite Hmatch. reflexivity.
Defined.

(** No fetch changes the cache storage, in any state of the worker. *)
Lemma on_fetch_keeps_caches w request :
  caches (fst (on_fetch request w)) = caches w.
Proof.
  unfold on_fetch, bind, caches_match.
  destruct (storage_match (caches w) request); [reflexivity|].
  unfold fetch, bind, Sw.request.
  destruct (network w (List.length (sent w)) request); reflexivity.
Qed.

(** C6.  In the active state, where the storage holds the cache of this
    version and no other, a fetch is answered from that cache when it has a
    matching entry, without asking the network, and by the network
    otherwise; in both cases the cache storage is left as it was, so no
    answer of the network is ever cached. *)
Theorem fetch_is_cache_first_and_never_fills w request c :
  caches w = [(CACHE_NAME, c)] ->
  (forall r, cache_match c request = Some r ->
             on_fetch request w = (w, Return r))
  /\ (cache_match c request = None ->
      on_fetch request w
      = (set_sent (request :: sent w) w,
         match network w (List.length (sent w)) request with
         | Responded r => Return r
         | NetworkError => Throw (TypeError "Failed to fetch")
         end))
  /\ caches (fst (on_fetch request w)) = caches w.
Proof.
  intros Hc. split; [|split].
  - intros r Hr. unfold on_fetch, bind, caches_match. rewrite Hc.
    cbn [storage_match]. rewrite Hr. reflexivity.
  - intros Hr. unfold on_fetch, bind, caches_match. rewrite Hc.
    cbn [storage_match]. rewrite Hr.
    unfold fetch, bind, Sw.request.
    destruct (network w (List.length (sent w)) request); reflexivity.
  - apply on_fetch_keeps_caches.
Qed.

Lemma fetch_is_cache_first_and_never_fills_witness :
  let w := Example.world Example.serves_all [Example.current_cache]
                         (Stored []) in
  on_fetch (GET "/app/index.html") w = (w, Return (mkResponse 200 None))
  /\ snd (on_fetch (GET "/app/logo.png") w) = Return (mkResponse 200 None)
  /\ caches (fst (on_fetch (GET "/app/logo.png") w)) = caches w.
Proof.
  intros w.
  destruct (fetch_is_cache_first_and_never_fills w (GET "/app/index.html")
              (snd Example.current_cache) eq_refl) as (Hhit & _ & _).
  destruct (fetch_is_cache_first_and_never_fills w (GET "/app/logo.png")
              (snd Example.current_cache) eq_refl) as (_ & Hmiss & Hkeep).
  split; [apply Hhit; reflexivity|].
  split; [rewrite (Hmiss eq_refl); reflexivity|exact Hkeep].
Defined.

End OfflineCache.

(** ** More on number formatting *)

Section FormattingMore.
Import Js Spec Text.

Lemma without_spaces_insert_separators (prev : option ascii) (s : string) :
  without_spaces (insert_separators prev s) = without_spaces s.
Proof.
  revert prev; induction s as [|c r IH]; intros prev.
  - cbn. destruct (separator_here prev ""); reflexivity.
  - cbn [insert_separators].
    destruct (separator_here prev (String c r)); cbn [without_spaces];
      change (is_space " ") with true; cbn iota; rewrite IH; reflexivity.
Qed.

Lemma length_insert_separators (prev : option ascii) (s : string) :
  String.length s <= String.length (insert_separators prev s).
Proof.
  revert prev; induction s as [|c r IH]; intros prev.
  - cbn. destruct (separator_here prev ""); cbn; lia.
  - cbn [insert_separators]. specialize (IH (Some c)).
    destruct (separator_here prev (String c r)); cbn [String.length]; lia.
Qed.

(** X1. Whatever the string, [formatNumberWithSpaces] only inserts spaces:
    the result without its spaces is the argument without its spaces, the
    digits come out in the same order, and the result is never shorter. *)
Theorem formatNumberWithSpaces_only_inserts_spaces (s : string) :
  without_spaces (formatNumberWithSpaces s) = without_spaces s
  /\ strip_non_digits (formatNumberWithSpaces s) = strip_non_digits s
  /\ String.length s <= String.length (formatNumberWithSpaces s).
Proof.
  split; [apply without_spaces_insert_separators|].
  split; [apply strip_insert_separators|apply length_insert_separators].
Qed.

Lemma div3_step (n : nat) :
  n / 3 = (n - 1) / 3 + (if (0 <? n) && (n mod 3 =? 0) then 1 else 0).
Proof.
  destruct n as [|m]; [reflexivity|].
  replace (S m - 1) with m by lia. cbn [Nat.ltb Nat.leb andb].
  pose proof (Nat.div_mod_eq (S m) 3) as H1.
  pose proof (Nat.div_mod_eq m 3) as H2.
  pose proof (Nat.mod_upper_bound (S m) 3 ltac:(lia)) as B1.
  pose proof (Nat.mod_upper_bound m 3 ltac:(lia)) as B2.
  destruct (Nat.eqb_spec (S m mod 3) 0); lia.
Qed.

Lemma length_group_from_right (s : string) :
  String.length (group_from_right s)
  = String.length s + (String.length s - 1) / 3.
Proof.
  induction s as [|c r IH]; [reflexivity|].
  cbn [group_from_right String.length].
  replace (S (String.length r) - 1) with (String.length r) by lia.
  rewrite (div3_step (String.length r)).
  destruct ((0 <? String.length r) && (String.length r mod 3 =? 0));
    cbn [String.length]; rewrite IH; lia.
Qed.

(** X2. A string of [n] digits is formatted into [n + (n - 1) / 3]
    characters: one space for every complete group of three digits that
    follows another digit. *)
Theorem formatNumberWithSpaces_length (s : string) :
  all_digits s = true ->
  String.length (formatNumberWithSpaces s)
  = String.length s + (String.length s - 1) / 3.
Proof.
  intros H. rewrite (formatNumberWithSpaces_groups s H).
  apply length_group_from_right.
Qed.

Lemma formatNumberWithSpaces_length_witness :
  String.length (formatNumberWithSpaces "1234567") = 9.
Proof.
  rewrite (formatNumberWithSpaces_length "1234567" eq_refl). reflexivity.
Defined.

Lemma insert_separators_settled (s : string) :
  forall prev, settled prev s -> insert_separators prev s = s.
Proof.
  induction s as [|c r IH]; intros prev [H1 H2]; cbn [insert_separators].
  - rewrite H1. reflexivity.
  - rewrite H1, (IH _ H2). reflexivity.
Qed.

Lemma group_from_right_cons (c : ascii) (r : string) :
  group_from_right (String c r) = String c (after_digit r).
Proof. reflexivity. Qed.

Lemma mod3_cases (n : nat) :
  (n mod 3 =? 0) = false -> (S n mod 3 =? 0) = false ->
  (S (S n) mod 3 =? 0) = true.
Proof.
  rewrite !Nat.eqb_neq, Nat.eqb_eq.
  pose proof (Nat.div_mod_eq n 3). pose proof (Nat.div_mod_eq (S n) 3).
  pose proof (Nat.div_mod_eq (S (S n)) 3).
  pose proof (Nat.mod_upper_bound n 3 ltac:(lia)).
  pose proof (Nat.mod_upper_bound (S n) 3 ltac:(lia)).
  pose proof (Nat.mod_upper_bound (S (S n)) 3 ltac:(lia)).
  lia.
Qed.

(** After a digit that is not followed by a separator, fewer than three
    digits come before the next space or the end. *)
Lemma triples_after_digit (d : ascii) (r : string) :
  (S (String.length r) mod 3 =? 0) = false ->
  triples_then_no_digit (String d (after_digit r)) = false.
Proof.
  intros Hr. destruct r as [|d2 r']; [reflexivity|].
  unfold after_digit at 1. cbn [String.length Nat.ltb Nat.leb andb].
  destruct (S (String.length r') mod 3 =? 0) eqn:E2.
  - cbn [triples_then_no_digit].
    destruct (group_from_right (String d2 r')); [reflexivity|].
    change (is_digit " ") with false. rewrite andb_false_r. reflexivity.
  - rewrite group_from_right_cons.
    assert (E3 : (String.length r' mod 3 =? 0) = true).
    { destruct (String.length r' mod 3 =? 0) eqn:E; [reflexivity|].
      pose proof (mod3_cases _ E E2) as H. cbn [String.length] in Hr.
      congruence. }
    unfold after_digit. rewrite E3, andb_true_r.
    destruct r' as [|d3 r'']; [reflexivity|].
    cbn [String.length Nat.ltb Nat.leb triples_then_no_digit].
    change (is_digit " ") with false. rewrite andb_false_r. reflexivity.
Qed.

Lemma settled_after_digit (r : string) :
  forall c, is_digit c = true -> all_digits r = true ->
  settled (Some c) (after_digit r).
Proof.
  induction r as [|d r IH]; intros c Hc Hr.
  - cbn. unfold separator_here. cbn. rewrite andb_false_r. auto.
  - rewrite all_digits_cons in Hr. apply andb_prop in Hr as [Hd Hr].
    specialize (IH d Hd Hr).
    unfold after_digit. cbn [String.length Nat.ltb Nat.leb andb].
    rewrite group_from_right_cons.
    destruct (S (String.length r) mod 3 =? 0) eqn:E.
    + cbn [settled]. repeat split; [| |exact IH].
      * unfold separator_here.
        replace (triples_then_no_digit (String " " (String d (after_digit r))))
          with false; [apply andb_false_r|].
        cbn [triples_then_no_digit].
        destruct (after_digit r); [reflexivity|].
        change (is_digit " ") with false. reflexivity.
      * unfold separator_here, non_boundary. cbn [head is_word_opt].
        rewrite (is_digit_is_word _ Hd). reflexivity.
    + cbn [settled]. split; [|exact IH].
      unfold separator_here. rewrite (triples_after_digit d r E).
      apply andb_false_r.
Qed.

(** X3. On a string of digits, formatting the formatted string changes
    nothing: no further space is inserted into a number that is already
    grouped. *)
Theorem formatNumberWithSpaces_twice (s : string) :
  all_digits s = true ->
  formatNumberWithSpaces (formatNumberWithSpaces s)
  = formatNumberWithSpaces s.
Proof.
  intros H. rewrite (formatNumberWithSpaces_groups s H).
  unfold formatNumberWithSpaces. apply insert_separators_settled.
  destruct s as [|c r]; [cbn; auto|].
  rewrite all_digits_cons in H. apply andb_prop in H as [Hc Hr].
  rewrite group_from_right_cons. cbn [settled]. split.
  - unfold separator_here, non_boundary. cbn [head is_word_opt].
    rewrite (is_digit_is_word _ Hc). reflexivity.
  - apply settled_after_digit; assumption.
Qed.

Lemma formatNumberWithSpaces_twice_witness :
  formatNumberWithSpaces (formatNumberWithSpaces "1234567") = "1 234 567".
Proof.
  rewrite (formatNumberWithSpaces_twice "1234567" eq_refl). reflexivity.
Defined.

End FormattingMore.

(** ** The page after a field validation *)

Section FieldDisplay.
Import Eff Dom Ux Frame.
Open Scope script_scope.

Lemma update_nth_fix {A} (f : A -> A) (l : list A) (i : nat) :
  (forall x, nth_error l i = Some x -> f x = x) -> update_nth i f l = l.
Proof.
  revert i; induction l as [|x r IH]; intros [|i] H; cbn; auto.
  - rewrite (H x eq_refl). reflexivity.
  - rewrite IH; auto.
Qed.

(** An update that maps the element to itself leaves the tree as it is. *)
Lemma update_at_fix (f : Element -> Element) (p : path) :
  forall d e, elem_at d p = Some e -> f e = e -> update_at f p d = d.
Proof.
  induction p as [|i p IH]; intros [e0 cs] e He Hf.
  - cbn in He. inversion He; subst. cbn. rewrite Hf. reflexivity.
  - cbn [update_at element children]. f_equal.
    apply update_nth_fix. intros c Hc. apply (IH c e); [|exact Hf].
    unfold elem_at in *. cbn [node_at children] in He. rewrite Hc in He.
    exact He.
Qed.

Lemma contains_add_same l c : contains (add l c) c = true.
Proof.
  unfold add. destruct (contains l c) eqn:E; [exact E|].
  unfold contains. rewrite existsb_app. cbn. rewrite String.eqb_refl.
  apply orb_true_r.
Qed.

Lemma contains_add_other l c c' :
  c' <> c -> contains (add l c) c' = contains l c'.
Proof.
  intros H. unfold add. destruct (contains l c); [reflexivity|].
  unfold contains. rewrite existsb_app. cbn.
  destruct (String.eqb_spec c' c); [contradiction|].
  rewrite !orb_false_r. reflexivity.
Qed.

Lemma contains_remove_other l c c' :
  c' <> c -> contains (remove l c) c' = contains l c'.
Proof.
  intros H. unfold contains, remove. induction l as [|x r IH]; [reflexivity|].
  cbn [filter existsb]. destruct (String.eqb_spec c x) as [->|Hx]; cbn [negb].
  - destruct (String.eqb_spec c' x); [contradiction|]. exact IH.
  - cbn [existsb]. rewrite IH. reflexivity.
Qed.

Lemma add_present l c : contains l c = true -> add l c = l.
Proof. intros H. unfold add. rewrite H. reflexivity. Qed.

Lemma remove_absent_class l c : contains l c = false -> remove l c = l.
Proof.
  unfold contains, remove. induction l as [|x r IH]; [reflexivity|].
  cbn [existsb filter]. intros H. apply orb_false_elim in H as [H1 H2].
  rewrite H1. cbn [negb]. rewrite (IH H2). reflexivity.
Qed.

(** [validateField] on a field of the page, in full: what it returns and the
    page it leaves. *)
Lemma validateField_page pg p e msg :
  elem_at (document pg) p = Some e ->
  validateField (Some p) msg pg
  = (mkPage (after_validateField (document pg) p (validity_valid e) msg)
            (activeElement pg) (scrolledIntoView pg),
     Return (validity_valid e)).
Proof.
  intros He. unfold validateField, after_validateField.
  rewrite (bind_Return _ _ pg pg (next_sibling_of (document pg) p))
    by reflexivity.
  rewrite (bind_Return _ _ pg pg (validity_valid e))
    by (unfold read; rewrite He; reflexivity).
  assert (Hread : forall f s es,
            next_sibling_of (document pg) p = Some s ->
            elem_at (document pg) s = Some es ->
            elem_at (update_at f p (document pg)) s = Some es).
  { intros f s es Hs Hes. rewrite elem_at_update_at, path_eqb_neq; auto.
    intros Heq. apply (next_sibling_of_neq _ _ _ Hs). congruence. }
  destruct (next_sibling_of (document pg) p) as [s|] eqn:Es.
  - destruct (next_sibling_of_exists _ _ _ Es) as [es Hes]. rewrite Hes.
    destruct (validity_valid e); cbn [negb]; unfold marked;
      unfold bind, classList_add, classList_remove, modify, is_error_message,
        classList_contains, read, set_textContent, ret;
      cbn [document activeElement scrolledIntoView];
      rewrite (Hread _ s es eq_refl Hes);
      unfold has_class; destruct (contains (classList es) "error-message");
      reflexivity.
  - destruct (validity_valid e); reflexivity.
Qed.

Lemma after_validateField_shape d p valid msg q :
  next_sibling_of (after_validateField d p valid msg) q = next_sibling_of d q.
Proof.
  unfold after_validateField.
  destruct (next_sibling_of d p) as [s|];
    [destruct (elem_at d s) as [es|];
     [destruct (has_class "error-message" es); [destruct valid|]|]|];
    rewrite ?next_sibling_of_update_at; reflexivity.
Qed.

Lemma after_validateField_field d p e valid msg :
  elem_at d p = Some e ->
  elem_at (after_validateField d p valid msg) p = Some (marked valid e).
Proof.
  intros He. unfold after_validateField.
  pose proof (elem_at_update_at_same (marked valid) p d e He) as H1.
  destruct (next_sibling_of d p) as [s|] eqn:Es; [|exact H1].
  assert (Hne : path_eqb s p = false)
    by (apply path_eqb_neq; apply (next_sibling_of_neq _ _ _ Es)).
  destruct (elem_at d s) as [es|]; [|exact H1].
  destruct (has_class "error-message" es); [|exact H1].
  destruct valid.
  - rewrite elem_at_update_at, Hne. exact H1.
  - rewrite elem_at_update_at, Hne, elem_at_update_at, Hne. exact H1.
Qed.

Lemma after_validateField_sibling d p valid msg s es :
  next_sibling_of d p = Some s -> elem_at d s = Some es ->
  elem_at (after_validateField d p valid msg) s
  = Some (if has_class "error-message" es then
            if valid then with_classList (fun l => remove l "show") es
            else with_classList (fun l => add l "show")
                                (with_textContent msg es)
          else es).
Proof.
  intros Es Hes. unfold after_validateField. rewrite Es, Hes.
  assert (Hne : path_eqb p s = false).
  { apply path_eqb_neq. intros H. apply (next_sibling_of_neq _ _ _ Es).
    congruence. }
  assert (H1 : elem_at (update_at (marked valid) p d) s = Some es)
    by (rewrite elem_at_update_at, Hne; exact Hes).
  destruct (has_class "error-message" es); [|exact H1].
  destruct valid.
  - rewrite elem_at_update_at, path_eqb_refl, H1. reflexivity.
  - rewrite elem_at_update_at, path_eqb_refl.
    rewrite elem_at_update_at, path_eqb_refl, H1. reflexivity.
Qed.

Lemma has_class_marked valid e :
  has_class "input-error" (marked valid e) = negb valid.
Proof.
  unfold has_class, marked. cbn [classList with_classList].
  destruct valid; [apply contains_remove_same|apply contains_add_same].
Qed.

Lemma validateField_sets_error_display_aux pg p e msg s es :
  elem_at (document pg) p = Some e ->
  next_sibling_of (document pg) p = Some s ->
  elem_at (document pg) s = Some es ->
  has_class "error-message" es = true ->
  exists es',
    elem_at (document (fst (validateField (Some p) msg pg))) s = Some es'
    /\ has_class "show" es' = negb (validity_valid e)
    /\ textContent es' = if validity_valid e then textContent es else msg.
Proof.
  intros He Es Hes Hm. rewrite (validateField_page pg p e msg He).
  cbn [fst document].
  rewrite (after_validateField_sibling _ _ _ msg s es Es Hes), Hm.
  eexists. split; [reflexivity|].
  unfold has_class. destruct (validity_valid e);
    cbn [classList with_classList with_textContent textContent negb].
  - split; [apply contains_remove_same|reflexivity].
  - split; [apply contains_add_same|reflexivity].
Qed.

(** X4. [validateField] returns the browser's verdict on the field and makes
    the error display say the same: afterwards the display of the field is on
    exactly when the field is invalid.  The error message next to the field,
    when there is one, is shown with the given text for an invalid field, and
    hidden with its text left in place for a valid one.  The focus and the
    scroll position are not touched. *)
Theorem validateField_sets_error_display pg p e msg :
  elem_at (document pg) p = Some e ->
  let pg' := fst (validateField (Some p) msg pg) in
  snd (validateField (Some p) msg pg) = Return (validity_valid e)
  /\ error_displayed (document pg') p = negb (validity_valid e)
  /\ (forall s es,
        next_sibling_of (document pg) p = Some s ->
        elem_at (document pg) s = Some es ->
        has_class "error-message" es = true ->
        exists es',
          elem_at (document pg') s = Some es'
          /\ has_class "show" es' = negb (validity_valid e)
          /\ textContent es'
             = if validity_valid e then textContent es else msg)
  /\ activeElement pg' = activeElement pg
  /\ scrolledIntoView pg' = scrolledIntoView pg.
Proof.
  intros He pg'. subst pg'. rewrite (validateField_page pg p e msg He).
  cbn [fst snd document activeElement scrolledIntoView].
  split; [reflexivity|]. split; [|split; [|split; reflexivity]].
  - unfold error_displayed.
    rewrite (after_validateField_field _ _ _ _ msg He), has_class_marked.
    rewrite after_validateField_shape.
    destruct (validity_valid e); [|reflexivity]. cbn [negb orb].
    destruct (next_sibling_of (document pg) p) as [s|] eqn:Es; [|reflexivity].
    destruct (next_sibling_of_exists _ _ _ Es) as [es Hes].
    rewrite (after_validateField_sibling _ _ true msg s es Es Hes).
    destruct (has_class "error-message" es) eqn:Hm.
    + unfold has_class at 2. cbn [classList with_classList].
      rewrite contains_remove_same. apply andb_false_r.
    + rewrite Hm. reflexivity.
  - intros s es Es Hes Hm.
    rewrite (after_validateField_sibling _ _ _ msg s es Es Hes), Hm.
    eexists. split; [reflexivity|].
    unfold has_class. destruct (validity_valid e);
      cbn [classList with_classList with_textContent textContent negb].
    + split; [apply contains_remove_same|reflexivity].
    + split; [apply contains_add_same|reflexivity].
Qed.

Lemma validateField_sets_error_display_witness :
  let pg := Example.page
              (Example.form "Sklad" "17" Example.formatted_ticket []) in
  snd (validateField (Some [4]) "Введите ровно 11 цифр" pg) = Return false
  /\ error_displayed
       (document (fst (validateField (Some [4]) "Введите ровно 11 цифр" pg)))
       [4] = true.
Proof.
  intros pg.
  destruct (validateField_sets_error_display pg [4]
              (mkElement "input" "ticket" [] "+7 (911) 234-56-78" false "")
              "Введите ровно 11 цифр" eq_refl) as (H1 & H2 & _).
  split; assumption.
Defined.

Lemma marked_twice valid e : marked valid (marked valid e) = marked valid e.
Proof.
  unfold marked, with_classList.
  cbn [classList localName id value validity_valid textContent].
  f_equal. destruct valid.
  - apply remove_absent_class. apply contains_remove_same.
  - apply add_present. apply contains_add_same.
Qed.

Lemma after_validateField_twice d p e valid msg :
  elem_at d p = Some e ->
  after_validateField (after_validateField d p valid msg) p valid msg
  = after_validateField d p valid msg.
Proof.
  intros He. set (d' := after_validateField d p valid msg).
  pose proof (after_validateField_field d p e valid msg He) as Hp.
  fold d' in Hp.
  assert (H1 : update_at (marked valid) p d' = d')
    by (apply (update_at_fix _ _ _ _ Hp); apply marked_twice).
  unfold after_validateField at 1. fold d'. rewrite H1.
  unfold d' at 1. rewrite after_validateField_shape.
  destruct (next_sibling_of d p) as [s|] eqn:Es; [|reflexivity].
  destruct (next_sibling_of_exists _ _ _ Es) as [es Hes].
  pose proof (after_validateField_sibling d p valid msg s es Es Hes) as Hs.
  fold d' in Hs. rewrite Hs.
  destruct (has_class "error-message" es) eqn:Hm; [|rewrite Hm; reflexivity].
  destruct valid.
  - replace (has_class "error-message"
               (with_classList (fun l => remove l "show") es)) with true
      by (unfold has_class in *; cbn [classList with_classList];
          rewrite contains_remove_other by discriminate; auto).
    apply (update_at_fix _ _ _ _ Hs).
    unfold with_classList.
    cbn [classList localName id value validity_valid textContent]. f_equal.
    apply remove_absent_class. apply contains_remove_same.
  - replace (has_class "error-message"
               (with_classList (fun l => add l "show")
                               (with_textContent msg es))) with true
      by (unfold has_class in *;
          cbn [classList with_classList with_textContent];
          rewrite contains_add_other by discriminate; auto).
    rewrite (update_at_fix (with_textContent msg) s d' _ Hs) by reflexivity.
    apply (update_at_fix _ _ _ _ Hs).
    unfold with_classList, with_textContent.
    cbn [classList localName id value validity_valid textContent]. f_equal.
    apply add_present. apply contains_add_same.
Qed.

(** X5. Validating a field a second time changes nothing: [validateField]
    run again on the page it has left returns the same verdict and leaves
    that page as it is. *)
Theorem validateField_twice pg p e msg :
  elem_at (document pg) p = Some e ->
  validateField (Some p) msg (fst (validateField (Some p) msg pg))
  = (fst (validateField (Some p) msg pg), Return (validity_valid e)).
Proof.
  intros He. rewrite (validateField_page pg p e msg He). cbn [fst].
  pose proof (after_validateField_field (document pg) p e (validity_valid e)
                msg He) as Hp.
  set (pg1 := mkPage (after_validateField (document pg) p (validity_valid e)
                                          msg)
                     (activeElement pg) (scrolledIntoView pg)).
  rewrite (validateField_page pg1 p (marked (validity_valid e) e) msg Hp).
  cbn [pg1 document activeElement scrolledIntoView].
  change (validity_valid (marked (validity_valid e) e))
    with (validity_valid e).
  rewrite (after_validateField_twice _ _ _ _ _ He). reflexivity.
Qed.

Lemma validateField_twice_witness :
  let pg := Example.page
              (Example.form "Sklad" "17" Example.formatted_ticket []) in
  validateField (Some [4]) "?" (fst (validateField (Some [4]) "?" pg))
  = (fst (validateField (Some [4]) "?" pg), Return false).
Proof.
  intros pg.
  apply (validateField_twice pg [4]
           (mkElement "input" "ticket" [] "+7 (911) 234-56-78" false "")
           "?" eq_refl).
Defined.

(** X6. The message of [validateTicket].  When the browser reports the
    ticket invalid, the error message next to it is shown, with the text
    "enter exactly 11 digits" when the value does not hold eleven digits and
    with an empty text when it does; when the browser reports it valid, the
    message is hidden, whatever the number of digits. *)
Theorem validateTicket_message pg p e s es :
  elem_at (document pg) p = Some e ->
  next_sibling_of (document pg) p = Some s ->
  elem_at (document pg) s = Some es ->
  has_class "error-message" es = true ->
  exists es',
    elem_at (document (fst (validateTicket (Some p) pg))) s = Some es'
    /\ has_class "show" es' = negb (validity_valid e)
    /\ textContent es'
       = if validity_valid e then textContent es
         else if String.length (Js.strip_non_digits (value e)) =? 11
              then "" else "Введите ровно 11 цифр".
Proof.
  intros He Es Hes Hm. unfold validateTicket.
  rewrite (bind_Return _ _ pg pg (value e))
    by (unfold read; rewrite He; reflexivity).
  destruct (String.length (Js.strip_non_digits (value e)) =? 11);
    cbn [negb].
  - destruct (validateField_sets_error_display_aux pg p e "" s es
                He Es Hes Hm) as (es' & H1 & H2 & H3).
    exists es'. repeat split; auto.
  - destruct (validateField_sets_error_display_aux pg p e
                "Введите ровно 11 цифр" s es He Es Hes Hm)
      as (es' & H1 & H2 & H3).
    exists es'. repeat split; auto.
Qed.

Lemma validateTicket_message_witness :
  let pg := Example.page
              (Example.form "Sklad" "17" Example.formatted_ticket []) in
  exists es',
    elem_at (document (fst (validateTicket (Some [4]) pg))) [5] = Some es'
    /\ has_class "show" es' = true /\ textContent es' = "".
Proof.
  intros pg.
  destruct (validateTicket_message pg [4]
              (mkElement "input" "ticket" [] "+7 (911) 234-56-78" false "")
              [5] (mkElement "div" "" ["error-message"] "" true "")
              eq_refl eq_refl eq_refl eq_refl) as (es' & H1 & H2 & H3).
  exists es'. auto.
Defined.

End FieldDisplay.

(** ** Reformatting an evaluation; scrolling to the first error *)

Section EvaluationMore.
Import Eff Dom Ux Frame.
Open Scope script_scope.

Lemma all_digits_strip (s : string) :
  Js.all_digits (Js.strip_non_digits s) = true.
Proof.
  induction s as [|c r IH]; [reflexivity|].
  cbn [Js.strip_non_digits]. destruct (Js.is_digit c) eqn:E; [|exact IH].
  rewrite all_digits_cons, E, IH. reflexivity.
Qed.

Lemma strip_strip (s : string) :
  Js.strip_non_digits (Js.strip_non_digits s) = Js.strip_non_digits s.
Proof. apply strip_all_digits. apply all_digits_strip. Qed.

Lemma formatEvaluation_page pg p e :
  elem_at (document pg) p = Some e ->
  (Js.strip_non_digits (value e) = ""
   /\ formatEvaluation (Some p) pg = (pg, Return tt))
  \/ (Js.strip_non_digits (value e) <> ""
      /\ formatEvaluation (Some p) pg
         = (mkPage (update_at
                      (with_value
                         (Js.formatNumberWithSpaces
                            (Js.strip_non_digits (value e))))
                      p (document pg))
                   (activeElement pg) (scrolledIntoView pg), Return tt)).
Proof.
  intros He. unfold formatEvaluation.
  rewrite (bind_Return _ _ pg pg (value e))
    by (unfold read; rewrite He; reflexivity).
  destruct (String.eqb_spec (Js.strip_non_digits (value e)) "") as [H|H].
  - left. split; [exact H|reflexivity].
  - right. split; [exact H|reflexivity].
Qed.

(** X7. [formatEvaluation] on a field of the page changes nothing but the
    value of that field, keeps the digits of the value and their order, and
    has nothing left to do when it is run again on the page it has left. *)
Theorem formatEvaluation_keeps_digits_and_settles pg p e :
  elem_at (document pg) p = Some e ->
  let pg1 := fst (formatEvaluation (Some p) pg) in
  exists e',
    elem_at (document pg1) p = Some e'
    /\ Js.strip_non_digits (value e') = Js.strip_non_digits (value e)
    /\ classList e' = classList e /\ textContent e' = textContent e
    /\ (forall q, q <> p -> elem_at (document pg1) q = elem_at (document pg) q)
    /\ activeElement pg1 = activeElement pg
    /\ scrolledIntoView pg1 = scrolledIntoView pg
    /\ formatEvaluation (Some p) pg1 = (pg1, Return tt).
Proof.
  intros He.
  destruct (formatEvaluation_page pg p e He)
    as [[Hnone Hrun]|[Hsome Hrun]]; rewrite Hrun; cbn [fst].
  - exists e. repeat split; auto.
  - set (v' := Js.formatNumberWithSpaces (Js.strip_non_digits (value e))).
    assert (Hv : Js.strip_non_digits v' = Js.strip_non_digits (value e))
      by (unfold v'; rewrite strip_formatNumberWithSpaces; apply strip_strip).
    exists (with_value v' e). cbn [document activeElement scrolledIntoView].
    pose proof (elem_at_update_at_same (with_value v') p _ e He) as Hp.
    split; [exact Hp|]. split; [exact Hv|].
    split; [reflexivity|]. split; [reflexivity|].
    split; [|split; [|split]]; auto.
    + intros q Hq. rewrite elem_at_update_at, path_eqb_neq by congruence.
      reflexivity.
    + set (pg1 := mkPage (update_at (with_value v') p (document pg))
                         (activeElement pg) (scrolledIntoView pg)).
      destruct (formatEvaluation_page pg1 p
                  (with_value v' e) Hp) as [[Hnone' _]|[_ Hrun']].
      * cbn [with_value value] in Hnone'. congruence.
      * rewrite Hrun'. cbn [with_value value pg1 document activeElement
                            scrolledIntoView].
        rewrite Hv. fold v'.
        rewrite (update_at_fix (with_value v') p _ _ Hp) by reflexivity.
        reflexivity.
Qed.

Lemma formatEvaluation_keeps_digits_and_settles_witness :
  let pg := Example.page (Example.item_card "ring" "15000 rub") in
  exists e',
    elem_at (document (fst (formatEvaluation (Some [2]) pg))) [2] = Some e'
    /\ Js.strip_non_digits (value e') = "15000".
Proof.
  intros pg.
  destruct (formatEvaluation_keeps_digits_and_settles pg [2]
              (mkElement "input" "" ["eval"] "15000 rub" true "") eq_refl)
    as (e' & H1 & H2 & _).
  exists e'. split; assumption.
Defined.

(** X8. [scrollToFirstError] does nothing on a page without a highlighted
    element; otherwise the first element, in document order, that carries
    [input-error] is scrolled into view and becomes the active element. *)
Theorem scrollToFirstError_targets_first_highlight pg :
  (first_match (has_class "input-error") (document pg) = None ->
   scrollToFirstError pg = (pg, Return tt))
  /\ (forall f, first_match (has_class "input-error") (document pg) = Some f ->
        exists pg',
          scrollToFirstError pg = (pg', Return tt)
          /\ activeElement pg' = Some f
          /\ scrolledIntoView pg' = f :: scrolledIntoView pg).
Proof.
  unfold scrollToFirstError, bind, document_querySelector. split.
  - intros ->. reflexivity.
  - intros f Hf. rewrite Hf.
    destruct (first_match_sound _ _ _ Hf) as (e & He & _).
    set (pg1 := mkPage (document pg) (activeElement pg)
                       (f :: scrolledIntoView pg)).
    destruct (focus_run pg1 f e He) as (pg' & Hrun & Ha & Hs).
    exists pg'. cbn [scrollIntoView]. fold pg1. rewrite Hrun. auto.
Qed.

Lemma scrollToFirstError_targets_first_highlight_witness :
  exists pg',
    scrollToFirstError Example.flagged_page = (pg', Return tt)
    /\ activeElement pg' = Some [0].
Proof.
  destruct (proj2 (scrollToFirstError_targets_first_highlight
                     Example.flagged_page) [0] eq_refl)
    as (pg' & Hrun & Ha & _).
  exists pg'. split; assumption.
Defined.

End EvaluationMore.

(** ** What the form validation leaves alone *)

Section FormFrame.
Import Eff Dom Ux Frame.
Open Scope script_scope.

Lemma keeps_form_ret {A} (a : A) : keeps_form (ret a).
Proof. intros pg. reflexivity. Qed.

Lemma keeps_form_throw {A} (e : exn) : keeps_form (@throw Page A e).
Proof. intros pg. reflexivity. Qed.

Lemma keeps_form_bind {A B} (m : M A) (k : A -> M B) :
  keeps_form m -> (forall a, keeps_form (k a)) -> keeps_form (bind m k).
Proof.
  intros Hm Hk pg. unfold bind. specialize (Hm pg).
  destruct (m pg) as [pg1 [a|e]]; cbn [fst] in *.
  - rewrite (Hk a pg1). exact Hm.
  - exact Hm.
Qed.

Lemma keeps_form_read {A} h (prop : Element -> A) : keeps_form (read h prop).
Proof.
  intros pg. unfold read. destruct h as [p|]; [|reflexivity].
  destruct (elem_at (document pg) p); reflexivity.
Qed.

Lemma keeps_form_modify h f :
  (forall e, erase (f e) = erase e) -> keeps_form (modify h f).
Proof.
  intros Hf pg. unfold modify. destruct h as [p|]; [|reflexivity].
  cbn. apply skeleton_update_at. exact Hf.
Qed.

Lemma keeps_form_query {A} (q : Page -> A) :
  keeps_form (fun pg => (pg, Return (q pg))).
Proof. intros pg. reflexivity. Qed.

Lemma keeps_form_step {A} (m : M A) :
  (forall pg, document (fst (m pg)) = document pg) -> keeps_form m.
Proof. intros H pg. rewrite H. reflexivity. Qed.

Lemma keeps_form_nextElementSibling h : keeps_form (nextElementSibling h).
Proof. apply keeps_form_step. intros pg. destruct h; reflexivity. Qed.

Lemma keeps_form_parentElement h : keeps_form (parentElement h).
Proof. apply keeps_form_step. intros pg. destruct h; reflexivity. Qed.

Lemma keeps_form_closest h cls : keeps_form (closest h cls).
Proof. apply keeps_form_step. intros pg. destruct h; reflexivity. Qed.

Lemma keeps_form_querySelector h cls : keeps_form (querySelector h cls).
Proof.
  apply keeps_form_step. intros pg. unfold querySelector.
  destruct h as [p|]; [|reflexivity].
  destruct (node_at (document pg) p); reflexivity.
Qed.

Lemma keeps_form_scrollIntoView h : keeps_form (scrollIntoView h).
Proof. apply keeps_form_step. intros pg. destruct h; reflexivity. Qed.

Lemma keeps_form_set_activeElement p : keeps_form (set_activeElement p).
Proof. apply keeps_form_step. intros pg. reflexivity. Qed.

Lemma keeps_form_is_error_message h : keeps_form (is_error_message h).
Proof.
  destruct h; [apply keeps_form_read|apply keeps_form_ret].
Qed.

Ltac keeps_form_prim :=
  first
    [ apply keeps_form_ret
    | apply keeps_form_throw
    | apply keeps_form_read
    | apply keeps_form_nextElementSibling
    | apply keeps_form_parentElement
    | apply keeps_form_closest
    | apply keeps_form_querySelector
    | apply keeps_form_scrollIntoView
    | apply keeps_form_set_activeElement
    | apply keeps_form_is_error_message
    | apply keeps_form_query
    | apply keeps_form_modify; intros;
      first [ apply erase_add; reflexivity
            | apply erase_remove; reflexivity
            | apply erase_textContent ] ].

Ltac keeps_form_steps :=
  repeat
    (intros;
     match goal with
     | |- keeps_form (bind _ _) => apply keeps_form_bind
     | |- keeps_form (if ?b then _ else _) => destruct b
     | |- keeps_form (match ?x with Some _ => _ | None => _ end) =>
         destruct x
     | |- keeps_form _ => keeps_form_prim
     end).

Lemma keeps_form_validateField h msg : keeps_form (validateField h msg).
Proof.
  unfold validateField, classList_add, classList_remove, set_textContent.
  keeps_form_steps.
Qed.


Lemma keeps_form_validateTicket h : keeps_form (validateTicket h).
Proof.
  unfold validateTicket. keeps_form_steps; intros; apply keeps_form_validateField.
Qed.


Lemma keeps_form_validateItem item c : keeps_form (validateItem item c).
Proof.
  unfold validateItem. keeps_form_steps; intros; apply keeps_form_validateField.
Qed.






End FormFrame.

(** ** The form validation, step by step *)

Section FormSteps.
Import Eff Dom Ux Frame.
Open Scope script_scope.

(** On a page that has the form, the checks of [validateForm] leave the
    locals as [failing_fields] says and touch only the error display; what
    remains is the scroll to the first error. *)
Lemma validateForm_checks pg :
  form_complete (document pg) ->
  exists pg4,
    skeleton (document pg4) = skeleton (document pg)
    /\ activeElement pg4 = activeElement pg
    /\ scrolledIntoView pg4 = scrolledIntoView pg
    /\ validateForm pg
       = ((if negb (isValid (extend (mkChecks true [])
                                    (failing_fields (document pg))))
              && (0 <? List.length
                         (errors (extend (mkChecks true [])
                                         (failing_fields (document pg)))))
           then
             scrollIntoView
               (hd None (errors (extend (mkChecks true [])
                                        (failing_fields (document pg))))) ;;
             focus
               (hd None (errors (extend (mkChecks true [])
                                        (failing_fields (document pg)))))
           else ret tt) ;;
          ret (isValid (extend (mkChecks true [])
                               (failing_fields (document pg))))) pg4.
Proof.
  intros (Hdept & Hissue & Hticket & Hitems).
  set (d0 := document pg) in *.
  assert (Hid : forall i e, has_id i (erase e) = has_id i e) by reflexivity.
  assert (Hval : forall e e', erase e' = erase e ->
            empty_value e' = empty_value e)
    by (intros e e' H; unfold empty_value; rewrite (erase_value _ _ H);
        reflexivity).
  assert (Hinv : forall e e', erase e' = erase e ->
            reported_invalid e' = reported_invalid e)
    by (intros e e' H; unfold reported_invalid;
        rewrite (erase_validity _ _ H); reflexivity).
  destruct (first_match (has_id "department") d0) as [dept|] eqn:Ed;
    [|congruence].
  destruct (first_match (has_id "issue") d0) as [issue|] eqn:Ei;
    [|congruence].
  destruct (first_match (has_id "ticket") d0) as [ticket|] eqn:Et;
    [|congruence].
  destruct (first_match_sound _ _ _ Ed) as (ed & Hed & _).
  destruct (first_match_sound _ _ _ Ei) as (ei & Hei & _).
  destruct (first_match_sound _ _ _ Et) as (et & Het & _).
  unfold validateForm.
  (* department *)
  rewrite (bind_Return _ _ pg pg (Some dept))
    by (unfold getElementById; fold d0; rewrite Ed; reflexivity).
  rewrite (bind_Return _ _ pg pg (value ed))
    by (unfold read; fold d0; rewrite Hed; reflexivity).
  destruct (empty_check_run pg dept ed "Укажите подразделение"
              (mkChecks true []) Hed) as (pg1 & Hrun1 & Hsk1 & Ha1 & Hs1).
  rewrite (bind_Return _ _ _ _ _ Hrun1). fold d0 in Hsk1 |- *.
  (* issue *)
  rewrite (bind_Return _ _ pg1 pg1 (Some issue))
    by (unfold getElementById;
        rewrite (first_match_same _ _ d0 (Hid "issue") Hsk1), Ei;
        reflexivity).
  destruct (elem_at_same d0 (document pg1) issue ei (eq_sym Hsk1) Hei)
    as (ei1 & Hei1 & _).
  rewrite (bind_Return _ _ pg1 pg1 (value ei1))
    by (unfold read; rewrite Hei1; reflexivity).
  destruct (empty_check_run pg1 issue ei1 "Укажите номер заключения"
              (extend (mkChecks true [])
                      (failing_of d0 (Some dept) empty_value)) Hei1)
    as (pg2 & Hrun2 & Hsk2 & Ha2 & Hs2).
  rewrite (bind_Return _ _ _ _ _ Hrun2).
  rewrite (failing_of_same (document pg1) d0 _ _ Hval Hsk1), extend_app.
  assert (Hsk2' : skeleton (document pg2) = skeleton d0) by congruence.
  (* ticket *)
  rewrite (bind_Return _ _ pg2 pg2 (Some ticket))
    by (unfold getElementById;
        rewrite (first_match_same _ _ d0 (Hid "ticket") Hsk2'), Et;
        reflexivity).
  destruct (elem_at_same d0 (document pg2) ticket et (eq_sym Hsk2') Het)
    as (et2 & Het2 & Het2e).
  destruct (validateTicket_run pg2 ticket et2 Het2)
    as (pg3 & Hrun3 & Hsk3 & Ha3 & Hs3).
  rewrite (bind_Return _ _ _ _ _ Hrun3).
  assert (Hsk3' : skeleton (document pg3) = skeleton d0) by congruence.
  set (c2 := extend (mkChecks true [])
               (failing_of d0 (Some dept) empty_value
                ++ failing_of d0 (Some issue) empty_value)).
  assert (Hc3 : (if negb (validity_valid et2) then failed c2 (Some ticket)
                 else c2)
                = extend c2 (failing_of d0 (Some ticket) reported_invalid)).
  { cbn [failing_of]. rewrite Het. unfold reported_invalid.
    rewrite <- (erase_validity _ _ Het2e).
    destruct (validity_valid et2); cbn [negb].
    - rewrite extend_nil. reflexivity.
    - apply extend_failed. }
  rewrite Hc3. unfold c2. rewrite extend_app, <- app_assoc.
  (* items *)
  rewrite (bind_Return _ _ pg3 pg3 (all_matches (has_class "item-card") d0))
    by (unfold document_querySelectorAll;
        rewrite (all_matches_same _ _ d0
                   (fun e => has_class_erase "item-card" e eq_refl) Hsk3');
        reflexivity).
  destruct (validateItems_run d0 _ Hitems pg3
              (extend (mkChecks true [])
                 (failing_of d0 (Some dept) empty_value
                  ++ failing_of d0 (Some issue) empty_value
                  ++ failing_of d0 (Some ticket) reported_invalid)) Hsk3')
    as (pg4 & Hrun4 & Hsk4 & Ha4 & Hs4).
  rewrite (bind_Return _ _ _ _ _ Hrun4), extend_app, <- !app_assoc.
  (* the first error *)
  assert (HF : failing_fields d0
               = failing_of d0 (Some dept) empty_value
                 ++ failing_of d0 (Some issue) empty_value
                 ++ failing_of d0 (Some ticket) reported_invalid
                 ++ flat_map (item_failing d0)
                      (all_matches (has_class "item-card") d0))
    by (unfold failing_fields; rewrite Ed, Ei, Et; reflexivity).
  rewrite <- HF.
  assert (Hact : activeElement pg4 = activeElement pg) by congruence.
  assert (Hscr : scrolledIntoView pg4 = scrolledIntoView pg) by congruence.
  exists pg4. repeat split; auto.
Qed.

Lemma bind_Return_inv {S A B} (m : Script S A) (k : A -> Script S B)
  s s' b :
  bind m k s = (s', Return b) ->
  exists s1 a, m s = (s1, Return a) /\ k a s1 = (s', Return b).
Proof.
  unfold bind. destruct (m s) as [s1 [a|e]]; [eauto|discriminate].
Qed.

Lemma keeps_form_run {A} (m : M A) pg pg' r :
  keeps_form m -> m pg = (pg', r) ->
  skeleton (document pg') = skeleton (document pg).
Proof. intros H E. specialize (H pg). rewrite E in H. exact H. Qed.

Lemma read_Return_inv {A} h (prop : Element -> A) pg pg' a :
  read h prop pg = (pg', Return a) -> pg' = pg /\ h <> None.
Proof.
  unfold read. destruct h as [p|]; [|discriminate].
  destruct (elem_at (document pg) p); [|discriminate].
  intros H; inversion H. split; [reflexivity|discriminate].
Qed.

Lemma querySelector_Return_inv item cls pg pg' r :
  querySelector (Some item) cls pg = (pg', Return r) ->
  pg' = pg /\ r = card_field (document pg) item cls.
Proof.
  unfold querySelector, card_field.
  destruct (node_at (document pg) item); [|discriminate].
  intros H; inversion H. auto.
Qed.

Lemma keeps_form_empty_check h msg c (v : string) :
  keeps_form (if String.eqb v "" then
                validateField h msg ;; ret (failed c h)
              else ret c).
Proof.
  destruct (String.eqb v "").
  - apply keeps_form_bind; [apply keeps_form_validateField|].
    intros. apply keeps_form_ret.
  - apply keeps_form_ret.
Qed.

(** An item card that [validateItem] gets through has both its fields. *)
Lemma validateItem_Return_inv item c pg pg' c' :
  validateItem item c pg = (pg', Return c') ->
  card_field (document pg) item "desc" <> None
  /\ card_field (document pg) item "eval" <> None.
Proof.
  unfold validateItem. intros H.
  apply bind_Return_inv in H as (pg1 & desc & Hq1 & H).
  apply querySelector_Return_inv in Hq1 as [-> ->].
  apply bind_Return_inv in H as (pg2 & ev & Hq2 & H).
  apply querySelector_Return_inv in Hq2 as [-> ->].
  apply bind_Return_inv in H as (pg3 & dv & Hr & H).
  apply read_Return_inv in Hr as [-> Hdesc].
  apply bind_Return_inv in H as (pg4 & c1 & Hc & H).
  apply bind_Return_inv in H as (pg5 & evv & Hr2 & H).
  apply read_Return_inv in Hr2 as [_ Heval].
  split; assumption.
Qed.

Lemma validateItems_Return_inv d0 items :
  forall c pg pg' c',
    skeleton (document pg) = skeleton d0 ->
    validateItems items c pg = (pg', Return c') ->
    forall item, In item items ->
      card_field d0 item "desc" <> None /\ card_field d0 item "eval" <> None.
Proof.
  induction items as [|item rest IH]; intros c pg pg' c' Hsk H it Hin;
    [contradiction|].
  cbn [validateItems] in H.
  apply bind_Return_inv in H as (pg1 & c1 & H1 & H).
  destruct Hin as [<-|Hin].
  - apply validateItem_Return_inv in H1.
    rewrite <- (card_field_same _ d0 item "desc" eq_refl Hsk),
            <- (card_field_same _ d0 item "eval" eq_refl Hsk).
    exact H1.
  - apply (IH c1 pg1 pg' c'); auto.
    rewrite (keeps_form_run _ _ _ _ (keeps_form_validateItem item c) H1).
    exact Hsk.
Qed.

(** X10. [validateForm] returns, with a verdict, exactly on the pages that
    have every element it dereferences: the department, issue and ticket
    fields, and in each item card a description and an evaluation.  On any
    other page it throws. *)
Theorem validateForm_returns_iff_form_complete pg :
  (exists pg' b, validateForm pg = (pg', Return b))
  <-> form_complete (document pg).
Proof.
  split.
  - intros (pg' & b & H). set (d0 := document pg).
    assert (Hid : forall i e, has_id i (erase e) = has_id i e)
      by reflexivity.
    unfold validateForm in H.
    apply bind_Return_inv in H as (pg1 & dept & Hg & H).
    unfold getElementById in Hg. inversion Hg; subst pg1 dept. clear Hg.
    apply bind_Return_inv in H as (pg1 & dv & Hr & H).
    apply read_Return_inv in Hr as [-> Hdept].
    apply bind_Return_inv in H as (pg1 & c1 & Hc1 & H).
    pose proof (keeps_form_run _ _ _ _ (keeps_form_empty_check _ _ _ dv) Hc1)
      as Hsk1. fold d0 in Hsk1.
    apply bind_Return_inv in H as (pg2 & issue & Hg & H).
    unfold getElementById in Hg. inversion Hg; subst pg2 issue. clear Hg.
    apply bind_Return_inv in H as (pg2 & iv & Hr & H).
    apply read_Return_inv in Hr as [-> Hissue].
    rewrite (first_match_same _ _ d0 (Hid "issue") Hsk1) in Hissue.
    apply bind_Return_inv in H as (pg2 & c2 & Hc2 & H).
    pose proof (keeps_form_run _ _ _ _ (keeps_form_empty_check _ _ _ iv) Hc2)
      as Hsk2. rewrite Hsk1 in Hsk2.
    apply bind_Return_inv in H as (pg3 & ticket & Hg & H).
    unfold getElementById in Hg. inversion Hg; subst pg3 ticket. clear Hg.
    apply bind_Return_inv in H as (pg3 & ok & Ht & H).
    pose proof (keeps_form_run _ _ _ _ (keeps_form_validateTicket _) Ht)
      as Hsk3. rewrite Hsk2 in Hsk3.
    unfold validateTicket in Ht.
    apply bind_Return_inv in Ht as (pgt & tv & Hr & _).
    apply read_Return_inv in Hr as [_ Hticket].
    rewrite (first_match_same _ _ d0 (Hid "ticket") Hsk2) in Hticket.
    apply bind_Return_inv in H as (pg4 & items & Hq & H).
    unfold document_querySelectorAll in Hq. inversion Hq; subst pg4 items.
    clear Hq.
    rewrite (all_matches_same _ _ d0
               (fun e => has_class_erase "item-card" e eq_refl) Hsk3) in H.
    apply bind_Return_inv in H as (pg4 & c4 & Hitems & _).
    repeat split; auto;
      apply (validateItems_Return_inv d0 _ _ _ _ _ Hsk3 Hitems); assumption.
  - intros Hc. destruct (validateForm_run pg Hc) as (pg' & Hrun & _). eauto.
Qed.

(** X11. When [validateForm] returns [true], no field fails its check, and
    the page has been neither scrolled nor given another active element. *)
Theorem validateForm_success_keeps_focus pg pg' :
  validateForm pg = (pg', Return true) ->
  failing_fields (document pg) = []
  /\ activeElement pg' = activeElement pg
  /\ scrolledIntoView pg' = scrolledIntoView pg.
Proof.
  intros H.
  assert (Hc : form_complete (document pg))
    by (apply validateForm_returns_iff_form_complete; eauto).
  destruct (validateForm_run pg Hc) as (pg1 & Hrun & Hfocus).
  rewrite Hrun in H.
  destruct (failing_fields (document pg)); inversion H; subst. tauto.
Qed.

Lemma validateForm_success_keeps_focus_witness :
  let pg := Example.page
              (Example.form "Sklad" "17" Example.valid_ticket
                            [Example.item_card "ring" "abc"]) in
  activeElement (fst (validateForm pg)) = None
  /\ scrolledIntoView (fst (validateForm pg)) = [].
Proof.
  intros pg.
  destruct (validateForm_success_keeps_focus pg (fst (validateForm pg)))
    as (_ & Ha & Hs); [vm_compute; reflexivity|].
  split; assumption.
Defined.

(** X12. The first failing field loses its error display again.  When
    [validateForm] fails and focuses the first failing field, a form control
    that did not have the focus, the focus event it causes reaches the
    capturing listener, which clears the display that the validation has just
    switched on: on return the field that got the focus shows no error. *)
Theorem validateForm_unmarks_first_error pg f rest e :
  form_complete (document pg) ->
  failing_fields (document pg) = f :: rest ->
  elem_at (document pg) f = Some e ->
  is_form_control e = true ->
  activeElement pg <> Some f ->
  snd (validateForm pg) = Return false
  /\ activeElement (fst (validateForm pg)) = Some f
  /\ error_displayed (document (fst (validateForm pg))) f = false.
Proof.
  intros Hc HF He Hctl Hact.
  destruct (validateForm_checks pg Hc) as (pg4 & Hsk & Ha & Hs & Hrun).
  rewrite Hrun, HF.
  cbn [extend isValid errors andb negb app map hd List.length Nat.ltb
       Nat.leb].
  destruct (elem_at_same _ (document pg4) f e (eq_sym Hsk) He)
    as (e4 & He4 & Herase).
  assert (Hctl4 : is_form_control e4 = true).
  { unfold is_form_control in *.
    replace (localName e4) with (localName e); [exact Hctl|].
    apply (f_equal localName) in Herase. symmetry. exact Herase. }
  set (pg5 := mkPage (document pg4) (activeElement pg4)
                     (f :: scrolledIntoView pg4)).
  set (pg6 := mkPage (document pg4) (Some f) (f :: scrolledIntoView pg4)).
  destruct (clearFieldError_clears pg6 f e4 He4)
    as (pg7 & Hclear & Ha7 & _ & Hoff & _).
  assert (Hfocus : focus (Some f) pg5 = (pg7, Return tt)).
  { assert (Hfresh : (set_activeElement f ;; on_focus f) pg5
                     = (pg7, Return tt)).
    { rewrite (bind_Return _ _ pg5 pg6 tt) by reflexivity.
      unfold on_focus.
      rewrite (bind_Return _ _ pg6 pg6 true)
        by (unfold read; cbn [pg6 document]; rewrite He4, Hctl4;
            reflexivity).
      exact Hclear. }
    unfold focus.
    rewrite (bind_Return _ _ pg5 pg5 (activeElement pg)) by (rewrite <- Ha;
      reflexivity).
    destruct (activeElement pg) as [q|]; [|exact Hfresh].
    destruct (path_eqb f q) eqn:E; [|exact Hfresh].
    apply path_eqb_eq in E. subst. congruence. }
  rewrite (bind_Return _ _ pg4 pg7 tt)
    by (rewrite (bind_Return _ _ pg4 pg5 tt) by reflexivity; exact Hfocus).
  cbn [ret fst snd]. repeat split; auto.
Qed.

Lemma validateForm_unmarks_first_error_witness :
  let pg := Example.page
              (Example.form "Sklad" "17" Example.formatted_ticket []) in
  snd (validateForm pg) = Return false
  /\ activeElement (fst (validateForm pg)) = Some [4]
  /\ error_displayed (document (fst (validateForm pg))) [4] = false.
Proof.
  intros pg.
  assert (Hc : form_complete (document pg)).
  { repeat split; try discriminate; contradiction. }
  apply (validateForm_unmarks_first_error pg [4] []
           (mkElement "input" "ticket" [] "+7 (911) 234-56-78" false "")
           Hc eq_refl eq_refl eq_refl).
  discriminate.
Defined.

End FormSteps.

(** ** The remembered department *)

Section Department.
Import Eff Dom Init.
Open Scope script_scope.

(** X13. The department comes back.  Once a change of the department field
    to a non-empty value has been recorded, the next page load that finds the
    department field empty fills it with that value, whatever else the
    storage holds. *)
Theorem department_is_restored_after_change s this e pg' dept e' :
  elem_at (document (page s)) this = Some e ->
  value e <> "" ->
  first_match (has_id "department") (document pg') = Some dept ->
  elem_at (document pg') dept = Some e' ->
  value e' = "" ->
  let stored := localStorage (fst (on_department_change this s)) in
  let s2 := fst (restore_department (mkSession pg' stored)) in
  snd (restore_department (mkSession pg' stored)) = Return tt
  /\ option_map value (elem_at (document (page s2)) dept) = Some (value e)
  /\ localStorage s2 = stored.
Proof.
  intros He Hv Hd He' Hv'.
  assert (Hst : localStorage (fst (on_department_change this s))
                = Sw.put "last_department" (value e) (localStorage s)).
  { unfold on_department_change, bind, on_page, read. rewrite He.
    reflexivity. }
  rewrite Hst. cbn zeta.
  unfold restore_department, bind, on_page, getElementById, getItem, read,
    set_value, modify, ret.
  cbn [page localStorage document]. rewrite Hd.
  cbn [page localStorage document]. rewrite lookup_put_same.
  apply String.eqb_neq in Hv. rewrite Hv. cbn [negb].
  cbn [page localStorage document]. rewrite He', Hv'.
  cbn [String.eqb fst snd page localStorage document].
  repeat split.
  rewrite (elem_at_update_at_same _ _ _ _ He'). reflexivity.
Qed.

Lemma department_is_restored_after_change_witness :
  let before := Example.page (Example.form "Sklad 7" "17"
                                           Example.valid_ticket []) in
  let reloaded := Example.page (Example.form "" "" Example.empty_ticket []) in
  let stored := localStorage
                  (fst (on_department_change [0] (mkSession before []))) in
  option_map value
    (elem_at (document (page (fst (restore_department
                                     (mkSession reloaded stored))))) [0])
  = Some "Sklad 7".
Proof.
  intros before reloaded stored.
  apply (department_is_restored_after_change (mkSession before []) [0]
           (mkElement "input" "department" [] "Sklad 7" true "")
           reloaded [0] (mkElement "input" "department" [] "" true "")
           eq_refl ltac:(discriminate) eq_refl eq_refl eq_refl).
Defined.

(** X14. The restoration never overwrites and never invents.  The session is
    left exactly as it was when the department field already holds a value,
    when nothing or an empty value is stored, and when the page has no
    department field. *)
Theorem restore_department_keeps_what_is_there s :
  (first_match (has_id "department") (document (page s)) = None
   \/ Sw.lookup "last_department" (localStorage s) = None
   \/ Sw.lookup "last_department" (localStorage s) = Some ""
   \/ exists dept e,
        first_match (has_id "department") (document (page s)) = Some dept
        /\ elem_at (document (page s)) dept = Some e /\ value e <> "") ->
  restore_department s = (s, Return tt).
Proof.
  intros H.
  unfold restore_department, bind, on_page, getElementById, getItem, read,
    ret.
  destruct s as [pg st]. cbn [page localStorage] in *.
  destruct (first_match (has_id "department") (document pg)) as [dept|] eqn:Ed;
    [|reflexivity].
  cbn [page localStorage].
  destruct (Sw.lookup "last_department" st) as [last|] eqn:El; [|reflexivity].
  destruct (String.eqb_spec last "") as [->|Hl]; [reflexivity|].
  cbn [negb page localStorage].
  destruct H as [H|[H|[H|(dept' & e & Hd & He & Hv)]]]; try congruence.
  assert (dept' = dept) by congruence. subst dept'.
  rewrite He. apply String.eqb_neq in Hv. rewrite Hv. reflexivity.
Qed.

Lemma restore_department_keeps_what_is_there_witness :
  let s := mkSession
             (Example.page (Example.form "Sklad 7" "" Example.empty_ticket []))
             [("last_department", "Sklad 9")] in
  restore_department s = (s, Return tt).
Proof.
  intros s. apply restore_department_keeps_what_is_there.
  right. right. right.
  exists [0], (mkElement "input" "department" [] "Sklad 7" true "").
  repeat split. discriminate.
Defined.

End Department.

(** ** The base path of the worker *)

Section BasePath.
Import Eff Sw.

Lemma prefix_app (f s : string) :
  String.prefix f s = true <-> exists rest, s = (f ++ rest)%string.
Proof.
  revert s; induction f as [|a f IH]; intros s.
  - cbn. split; [intros _; exists s; reflexivity|].
    intros _. destruct s; reflexivity.
  - destruct s as [|b s]; cbn.
    + split; [discriminate|intros [rest H]; discriminate].
    + destruct (Ascii.ascii_dec a b) as [->|Hne].
      * rewrite IH. split; intros [rest H]; exists rest.
        -- rewrite H. reflexivity.
        -- inversion H. reflexivity.
      * split; [discriminate|]. intros [rest H]. inversion H. congruence.
Qed.

Lemma cut_worker_file_unfold (c : ascii) (r : string) :
  String.prefix "service-worker.js" (String c r) = false ->
  cut_worker_file (String c r) = String c (cut_worker_file r).
Proof. intros E. unfold cut_worker_file. rewrite E. reflexivity. Qed.

Lemma cut_worker_file_hit (s : string) :
  String.prefix "service-worker.js" s = true -> cut_worker_file s = "".
Proof. intros E. destruct s; unfold cut_worker_file; rewrite E; reflexivity. Qed.

Lemma cut_worker_file_split (s : string) :
  exists rest,
    s = (cut_worker_file s ++ rest)%string
    /\ (rest = "" \/ String.prefix "service-worker.js" rest = true).
Proof.
  induction s as [|c r IH].
  - exists "". split; [reflexivity|left; reflexivity].
  - destruct (String.prefix "service-worker.js" (String c r)) eqn:E.
    + exists (String c r). rewrite (cut_worker_file_hit _ E).
      split; [reflexivity|right; exact E].
    + destruct IH as (rest & Hsplit & Hrest). exists rest.
      rewrite (cut_worker_file_unfold _ _ E).
      split; [|exact Hrest]. cbn [String.append]. rewrite <- Hsplit.
      reflexivity.
Qed.

(** What is kept holds no occurrence of the worker's file name. *)
Lemma cut_worker_file_clean (s : string) :
  forall a b,
    cut_worker_file s <> (a ++ "service-worker.js" ++ b)%string.
Proof.
  induction s as [|c r IH]; intros a b H.
  - destruct a; discriminate.
  - destruct (String.prefix "service-worker.js" (String c r)) eqn:E.
    + rewrite (cut_worker_file_hit _ E) in H. destruct a; discriminate.
    + rewrite (cut_worker_file_unfold _ _ E) in H.
      destruct a as [|x a].
      * destruct (cut_worker_file_split r) as (rest & Hsplit & _).
        assert (Hp : String.prefix "service-worker.js" (String c r) = true).
        { apply prefix_app. exists (b ++ rest)%string.
          assert (H0 : String c r
                       = (String c (cut_worker_file r) ++ rest)%string)
            by (cbn [String.append]; rewrite <- Hsplit; reflexivity).
          rewrite H0, H. reflexivity. }
        congruence.
      * inversion H. apply (IH a b). assumption.
Qed.

Lemma endsWith_slash_snoc (s : string) : endsWith_slash (s ++ "/") = true.
Proof.
  induction s as [|c r IH]; [reflexivity|].
  cbn [String.append endsWith_slash].
  destruct (r ++ "/")%string eqn:E; [destruct r; discriminate|exact IH].
Qed.

(** X15. The base path of the precached assets.  Whatever the path the
    worker is served from, [BASE_PATH] ends with a slash; it is the path up
    to the first occurrence of [service-worker.js], which is cut off with all
    that follows it, with a slash added when that part does not end with
    one; and the two precached URLs, the base path and its [index.html], are
    different. *)
Theorem BASE_PATH_is_the_worker_directory (w : World) :
  endsWith_slash (BASE_PATH w) = true
  /\ (exists rest,
        location_pathname w = (swPath w ++ rest)%string
        /\ (rest = "" \/ String.prefix "service-worker.js" rest = true))
  /\ (forall a b, swPath w <> (a ++ "service-worker.js" ++ b)%string)
  /\ (BASE_PATH w = swPath w \/ BASE_PATH w = (swPath w ++ "/")%string)
  /\ NoDup (urlsToCache w).
Proof.
  split; [|split; [|split; [|split]]].
  - unfold BASE_PATH. destruct (endsWith_slash (swPath w)) eqn:E;
      [exact E|apply endsWith_slash_snoc].
  - apply cut_worker_file_split.
  - apply cut_worker_file_clean.
  - unfold BASE_PATH. destruct (endsWith_slash (swPath w)); auto.
  - unfold urlsToCache. repeat constructor; [|intros []].
    intros [H|[]]. revert H. generalize (BASE_PATH w).
    induction s as [|c r IH]; [discriminate|].
    cbn. intros H. inversion H. auto.
Qed.

End BasePath.

(** ** More on the offline cache *)

Section CacheMore.
Import Eff Sw.
Open Scope script_scope.

Lemma urlsToCache_NoDup (w : World) : NoDup (urlsToCache w).
Proof.
  unfold urlsToCache. repeat constructor; [|intros []].
  intros [H|[]]. revert H. generalize (BASE_PATH w).
  induction s as [|c r IH]; [discriminate|].
  cbn. intros H. inversion H. auto.
Qed.

(** The ['install'] listener up to [addAll]: the cache has been opened. *)
Lemma on_install_as_addAll w :
  exists w1,
    on_install w = cache_addAll CACHE_NAME (urlsToCache w) w1
    /\ sent w1 = sent w /\ network w1 = network w
    /\ indexedDB w1 = indexedDB w /\ skipWaitingFlag w1 = true
    /\ location_pathname w1 = location_pathname w
    /\ (caches w1 = caches w
        \/ (lookup CACHE_NAME (caches w) = None
            /\ caches w1 = caches w ++ [(CACHE_NAME, [])]))
    /\ lookup CACHE_NAME (caches w1) <> None.
Proof.
  set (wa := set_skipWaitingFlag true w).
  destruct (caches_open_run CACHE_NAME wa)
    as (w1 & Hopen & Hcs & Hhas & Hnet & Hsent & Hloc & Hdb & Hflag).
  exists w1. split.
  - unfold on_install.
    rewrite (bind_Return _ _ w wa tt) by reflexivity.
    rewrite (bind_Return _ _ wa wa (urlsToCache w)) by reflexivity.
    rewrite (bind_Return _ _ _ _ _ Hopen). reflexivity.
  - repeat split; auto.
Qed.

(** [addAll] in full. *)
Lemma cache_addAll_run cache urls w :
  cache_addAll cache urls w
  = let w' := set_sent (rev (map GET urls) ++ sent w) w in
    match all_usable (outcomes_from (network w) (List.length (sent w)) urls)
    with
    | Some entries =>
        match lookup cache (caches w) with
        | Some c =>
            (set_caches (replace cache (put_all entries c) (caches w)) w',
             Return tt)
        | None => (w', Throw (TypeError "cache was deleted"))
        end
    | None => (w', Throw (TypeError "Request failed"))
    end.
Proof.
  unfold cache_addAll.
  rewrite (bind_Return _ _ _ _ _ (request_all_run urls w)). cbn zeta.
  destruct (all_usable _); reflexivity.
Qed.

(** X16. Whether it succeeds or not, the ['install'] listener asks the
    network for exactly the listed assets, each once, with [GET] and in the
    order of the list, asks to skip the waiting phase, and leaves the pending
    submissions alone. *)
Theorem on_install_requests_the_listed_assets (w : World) :
  sent (fst (on_install w)) = rev (map GET (urlsToCache w)) ++ sent w
  /\ skipWaitingFlag (fst (on_install w)) = true
  /\ indexedDB (fst (on_install w)) = indexedDB w.
Proof.
  destruct (on_install_as_addAll w)
    as (w1 & Hrun & Hsent & Hnet & Hdb & Hflag & _).
  rewrite Hrun, cache_addAll_run. cbn zeta. rewrite Hsent.
  destruct (all_usable _);
    [destruct (lookup CACHE_NAME (caches w1))|]; cbn; auto.
Qed.

Lemma lookup_put_other {A} k k' (v : A) l :
  k' <> k -> lookup k' (put k v l) = lookup k' l.
Proof.
  intros Hne. unfold put. destruct (lookup k l).
  - apply lookup_replace_other. exact Hne.
  - destruct (lookup k' l) eqn:E.
    + apply lookup_app_Some. exact E.
    + rewrite (lookup_app_None _ _ _ E). cbn.
      destruct (String.eqb_spec k' k); [contradiction|reflexivity].
Qed.

Lemma put_all_other entries :
  forall c u, ~ In u (map fst entries) ->
  lookup u (put_all entries c) = lookup u c.
Proof.
  induction entries as [|[k v] rest IH]; intros c u H; [reflexivity|].
  cbn in H |- *. rewrite IH by tauto.
  apply lookup_put_other. intros ->. tauto.
Qed.

(** With distinct keys, every entry stored by [addAll] is found again. *)
Lemma lookup_put_all entries :
  forall c u r, NoDup (map fst entries) -> In (u, r) entries ->
  lookup u (put_all entries c) = Some r.
Proof.
  induction entries as [|[k v] rest IH]; intros c u r Hnd Hin;
    [contradiction|].
  cbn in Hnd. inversion Hnd as [|? ? Hnot Hnd']; subst.
  destruct Hin as [Heq|Hin].
  - inversion Heq; subst. cbn.
    rewrite (put_all_other rest _ u Hnot). apply lookup_put_same.
  - cbn. apply IH; assumption.
Qed.

Lemma all_usable_nth net urls :
  forall n entries k u,
    all_usable (outcomes_from net n urls) = Some entries ->
    nth_error urls k = Some u ->
    exists r, net (n + k) (GET u) = Responded r /\ ok r = true
              /\ In (u, r) entries.
Proof.
  induction urls as [|u0 rest IH]; intros n entries k u H Hk.
  - destruct k; discriminate.
  - cbn [outcomes_from all_usable] in H.
    destruct (usable (net n (GET u0))) as [r0|] eqn:E0; [|discriminate].
    destruct (all_usable (outcomes_from net (S n) rest)) as [rs|] eqn:E;
      [|discriminate].
    inversion H; subst entries. destruct k as [|k].
    + cbn in Hk. inversion Hk; subst. rewrite Nat.add_0_r.
      unfold usable in E0. destruct (net n (GET u)) as [|r]; [discriminate|].
      destruct (ok r) eqn:Eok; [|discriminate]. inversion E0; subst.
      exists r0. repeat split; auto. left. reflexivity.
    + cbn in Hk. destruct (IH (S n) rs k u E Hk) as (r & H1 & H2 & H3).
      exists r. replace (n + S k) with (S n + k) by lia.
      repeat split; auto. right. exact H3.
Qed.

(** Installation then activation, with the content of the cache. *)
Lemma install_then_activate_entries w w1 :
  NoDup (map fst (caches w)) ->
  on_install w = (w1, Return tt) ->
  exists w2 entries c0,
    on_activate w1 = (w2, Return tt)
    /\ all_usable (outcomes_from (network w) (List.length (sent w))
                                 (urlsToCache w)) = Some entries
    /\ caches w2 = [(CACHE_NAME, put_all entries c0)].
Proof.
  intros Hnd Hinst.
  destruct (on_install_run w) as (wo & Hopen & _ & Hcase).
  destruct (all_usable _) as [entries|] eqn:Eu.
  2:{ destruct Hcase as (w' & Hrun & _). congruence. }
  destruct Hcase as (c0 & Hc0 & w' & Hrun & Hcs & _).
  assert (w' = w1) by congruence. subst w'.
  assert (Hndo : NoDup (map fst (caches wo))).
  { destruct Hopen as [->|[Hnone ->]]; [exact Hnd|].
    apply NoDup_keys_snoc; assumption. }
  assert (Hnd1 : NoDup (map fst (caches w1)))
    by (rewrite Hcs, map_fst_replace; exact Hndo).
  assert (Hl1 : lookup CACHE_NAME (caches w1) = Some (put_all entries c0))
    by (rewrite Hcs; apply lookup_replace_same; congruence).
  destruct (on_activate_run w1) as (w2 & Hrun2 & Hc2 & _).
  rewrite (filter_key_unique _ _ _ Hnd1 Hl1) in Hc2.
  exists w2, entries, c0. auto.
Qed.

(** X17. What was precached is what is served.  After this version has been
    installed and activated, a [GET] for a listed asset is answered with the
    very response the server gave for it during the installation, and the
    network is not asked: the world is left as it is, so the answer does not
    depend on the network being reachable. *)
Theorem precached_asset_is_served_offline w w1 w2 k u :
  NoDup (map fst (caches w)) ->
  on_install w = (w1, Return tt) ->
  on_activate w1 = (w2, Return tt) ->
  nth_error (urlsToCache w) k = Some u ->
  exists r,
    network w (List.length (sent w) + k) (GET u) = Responded r
    /\ on_fetch (GET u) w2 = (w2, Return r).
Proof.
  intros Hnd Hinst Hact Hk.
  destruct (install_then_activate_entries w w1 Hnd Hinst)
    as (w2' & entries & c0 & Hact' & Hu & Hc2).
  assert (w2' = w2) by congruence. subst w2'.
  destruct (all_usable_nth _ _ _ _ k u Hu Hk) as (r & Hnet & _ & Hin).
  exists r. split; [exact Hnet|].
  assert (Hl : lookup u (put_all entries c0) = Some r).
  { apply lookup_put_all; [|exact Hin].
    rewrite (all_usable_keys _ _ Hu), outcomes_from_keys.
    apply urlsToCache_NoDup. }
  unfold on_fetch, bind, caches_match. rewrite Hc2.
  cbn [storage_match]. unfold cache_match, GET. cbn [method url].
  change (String.eqb "GET" "GET") with true. cbn iota.
  rewrite Hl. reflexivity.
Qed.

Lemma precached_asset_is_served_offline_witness :
  let w := Example.world Example.serves_all [Example.old_cache] (Stored []) in
  exists r,
    network w 1 (GET "/app/index.html") = Responded r
    /\ on_fetch (GET "/app/index.html")
                (fst (on_activate (fst (on_install w))))
       = (fst (on_activate (fst (on_install w))), Return r).
Proof.
  intros w.
  assert (Hnd : NoDup (map fst (caches w)))
    by (repeat constructor; cbn; tauto).
  apply (precached_asset_is_served_offline w (fst (on_install w))
           (fst (on_activate (fst (on_install w)))) 1 "/app/index.html"
           Hnd eq_refl eq_refl eq_refl).
Defined.

Lemma lookup_filter_key {A} k (l : list (string * A)) :
  lookup k (filter (fun kv => String.eqb (fst kv) k) l) = lookup k l.
Proof.
  induction l as [|[k' v'] r IH]; [reflexivity|].
  cbn [filter fst lookup]. destruct (String.eqb_spec k' k) as [->|Hne].
  - cbn [lookup]. rewrite String.eqb_refl. reflexivity.
  - destruct (String.eqb_spec k k'); [congruence|exact IH].
Qed.

Lemma lookup_filter_other {A} k name (l : list (string * A)) :
  name <> k ->
  lookup name (filter (fun kv => String.eqb (fst kv) k) l) = None.
Proof.
  intros Hne. induction l as [|[k' v'] r IH]; [reflexivity|].
  cbn [filter fst]. destruct (String.eqb_spec k' k) as [->|_]; [|exact IH].
  cbn [lookup]. destruct (String.eqb_spec name k); [contradiction|exact IH].
Qed.

Lemma filter_twice {A} (f : A -> bool) l : filter f (filter f l) = filter f l.
Proof.
  induction l as [|x r IH]; [reflexivity|].
  cbn [filter]. destruct (f x) eqn:E; [|exact IH].
  cbn [filter]. rewrite E, IH. reflexivity.
Qed.

Lemma delete_stale_claimed names :
  forall w, claimed w = true ->
  exists w', delete_stale names w = (w', Return tt) /\ claimed w' = true.
Proof.
  induction names as [|name rest IH]; intros w Hc.
  - exists w. auto.
  - cbn [delete_stale]. unfold bind at 1.
    destruct (negb (String.eqb name CACHE_NAME)).
    + unfold bind at 1. unfold caches_delete.
      destruct (lookup name (caches w)); cbn [ret]; apply IH; exact Hc.
    + cbn [ret]. apply IH. exact Hc.
Qed.

Lemma on_activate_keeps_current_aux w :
  exists w1, on_activate w = (w1, Return tt) /\ claimed w1 = true.
Proof.
  unfold on_activate, bind, clients_claim, caches_keys.
  cbn [caches set_claimed].
  apply (delete_stale_claimed (map fst (caches w)) (set_claimed true w)).
  reflexivity.
Qed.

(** X18. The ['activate'] listener, in any state of the storage: it
    completes, keeps the cache of this version with its content, deletes
    every cache of another name, takes control of the open pages, sends
    nothing and leaves the pending submissions alone; a second activation
    finds nothing more to delete. *)
Theorem on_activate_keeps_current_deletes_others (w : World) :
  exists w1,
    on_activate w = (w1, Return tt)
    /\ lookup CACHE_NAME (caches w1) = lookup CACHE_NAME (caches w)
    /\ (forall name, name <> CACHE_NAME -> lookup name (caches w1) = None)
    /\ claimed w1 = true
    /\ sent w1 = sent w /\ indexedDB w1 = indexedDB w
    /\ caches (fst (on_activate w1)) = caches w1.
Proof.
  destruct (on_activate_run w) as (w1 & Hrun & Hc & _ & Hs & _ & Hd).
  destruct (on_activate_run w1) as (w2 & Hrun2 & Hc2 & _).
  exists w1. split; [exact Hrun|]. rewrite Hrun2. cbn [fst].
  rewrite Hc2, Hc. repeat split; auto.
  - apply lookup_filter_key.
  - intros name Hne. apply lookup_filter_other. exact Hne.
  - assert (H : claimed (fst (on_activate w)) = true).
    { unfold on_activate, bind, clients_claim, caches_keys.
      cbn [caches set_claimed].
      destruct (delete_stale_claimed (map fst (caches w))
                  (set_claimed true w) eq_refl) as (w' & Hw' & Hcl).
      rewrite Hw'. exact Hcl. }
    rewrite Hrun in H. exact H.
  - apply filter_twice.
Qed.

(** X19. A request that is not a [GET] is never answered from the cache: the
    fetch listener passes it to the network, whatever the storage holds.  The
    report posted to [/generate] is such a request. *)
Theorem on_fetch_passes_other_methods_to_network req w :
  method req <> "GET" -> on_fetch req w = fetch req w.
Proof.
  intros Hm. unfold on_fetch, bind, caches_match.
  assert (H : storage_match (caches w) req = None).
  { induction (caches w) as [|[n c] r IH]; [reflexivity|].
    cbn [storage_match]. unfold cache_match.
    destruct (String.eqb_spec (method req) "GET"); [contradiction|].
    exact IH. }
  rewrite H. reflexivity.
Qed.

Lemma on_fetch_passes_other_methods_to_network_witness :
  let w := Example.world Example.ok_without_json [Example.current_cache]
                         (Stored []) in
  on_fetch (POST_generate "r1") w = fetch (POST_generate "r1") w.
Proof.
  intros w. apply on_fetch_passes_other_methods_to_network. discriminate.
Defined.

Lemma all_usable_succeeds net urls :
  forall n,
    (forall k u, nth_error urls k = Some u ->
                 usable (net (n + k) (GET u)) <> None) ->
    exists entries, all_usable (outcomes_from net n urls) = Some entries.
Proof.
  induction urls as [|u0 rest IH]; intros n H.
  - exists []. reflexivity.
  - cbn [outcomes_from all_usable].
    pose proof (H 0 u0 eq_refl) as H0. rewrite Nat.add_0_r in H0.
    destruct (usable (net n (GET u0))) as [r0|]; [|congruence].
    destruct (IH (S n)) as [rs Hrs].
    { intros k u Hk. replace (S n + k) with (n + S k) by lia.
      apply (H (S k) u). exact Hk. }
    rewrite Hrs. eauto.
Qed.

(** X20. A version whose assets are all served takes over at once.  Because
    the install listener asks to skip the waiting phase, the installation of
    this script, when every listed asset gets a usable answer, ends with this
    version active and none waiting, the pages claimed, and the storage
    reduced to the cache of this version. *)
Theorem install_worker_takes_over_at_once w reg :
  NoDup (map fst (caches w)) ->
  (forall k u, nth_error (urlsToCache w) k = Some u ->
     usable (network w (List.length (sent w) + k) (GET u)) <> None) ->
  exists w2 c,
    install_worker reg w = (w2, Return (mkRegistration (Some VERSION) None))
    /\ caches w2 = [(CACHE_NAME, c)]
    /\ claimed w2 = true.
Proof.
  intros Hnd Hall.
  destruct (all_usable_succeeds _ _ _ Hall) as [entries Hu].
  destruct (on_install_run w) as (wo & _ & _ & Hcase). rewrite Hu in Hcase.
  destruct Hcase as (c0 & _ & w1 & Hrun & _ & Hflag & _).
  destruct (install_then_activate_only_current w w1 Hnd Hrun)
    as (w2 & c & Hrun2 & Hc2).
  exists w2, c. split; [|split; [exact Hc2|]].
  - unfold install_worker. rewrite Hrun, Hflag, Hrun2. reflexivity.
  - destruct (on_activate_keeps_current_aux w1) as (w2' & Hrun2' & Hcl).
    congruence.
Qed.

Lemma install_worker_takes_over_at_once_witness :
  let w := Example.world Example.serves_all [Example.old_cache] (Stored []) in
  exists w2 c,
    install_worker (mkRegistration (Some "2321") None) w
    = (w2, Return (mkRegistration (Some VERSION) None))
    /\ caches w2 = [(CACHE_NAME, c)].
Proof.
  intros w.
  assert (Hnd : NoDup (map fst (caches w)))
    by (repeat constructor; cbn; tauto).
  assert (Hall : forall k u, nth_error (urlsToCache w) k = Some u ->
            usable (network w (List.length (sent w) + k) (GET u)) <> None)
    by (intros k u _; discriminate).
  destruct (install_worker_takes_over_at_once w
              (mkRegistration (Some "2321") None) Hnd Hall)
    as (w2 & c & Hrun & Hc & _).
  exists w2, c. split; assumption.
Defined.

End CacheMore.

(** ** More on background sync *)

Section SyncMore.
Import Eff Sw.
Open Scope script_scope.

Lemma In_fold_without keys :
  forall l r,
    In r (fold_left (fun l key => without key l) keys l)
    <-> In r l /\ ~ In (id r) keys.
Proof.
  induction keys as [|k rest IH]; intros l r; cbn [fold_left].
  - cbn. tauto.
  - rewrite IH. unfold without. rewrite filter_In. cbn [In].
    rewrite negb_true_iff, Nat.eqb_neq. split.
    + intros [[H1 H2] H3]. split; [exact H1|]. intros [H|H]; auto.
    + intros [H1 H2]. repeat split; auto.
Qed.

(** One turn of the loop, with what it logs. *)
Lemma sync_step_run item w pending :
  indexedDB w = Stored pending ->
  let o := network w (List.length (sent w)) (POST_generate (data item)) in
  exists w2,
    try_catch
      (sendReport (data item) ;;
       deleted <- objectStore_delete VDatabase (id item) ;;
       await deleted ;; ret tt)
      (fun _ => console_error "Failed to sync report:") w
    = (w2, Return tt)
    /\ sent w2 = POST_generate (data item) :: sent w
    /\ indexedDB w2
       = Stored (if accepted o then without (id item) pending else pending)
    /\ List.length (console w2)
       = List.length (console w) + (if accepted o then 0 else 1)
    /\ network w2 = network w.
Proof.
  intros Hdb o. unfold try_catch, bind. rewrite sendReport_run. fold o.
  unfold accepted. destruct o as [|r].
  - eexists. split; [reflexivity|]. cbn. repeat split; auto. lia.
  - destruct (ok r); cbn [andb].
    + destruct (json r).
      * unfold objectStore_delete. cbn [indexedDB set_sent].
        rewrite Hdb. eexists. split; [reflexivity|]. cbn.
        repeat split; auto.
      * eexists. split; [reflexivity|]. cbn. repeat split; auto. lia.
    + eexists. split; [reflexivity|]. cbn. repeat split; auto. lia.
Qed.

Lemma length_delivered net items :
  forall n, List.length (delivered net n items) <= List.length items.
Proof.
  induction items as [|item rest IH]; intros n; cbn [delivered List.length];
    [lia|].
  rewrite length_app. specialize (IH (S n)).
  destruct (accepted _); cbn [List.length]; lia.
Qed.

Lemma sync_each_console items :
  forall w pending,
    indexedDB w = Stored pending ->
    List.length (console (fst (sync_each VDatabase items w)))
    = List.length (console w)
      + (List.length items
         - List.length (delivered (network w) (List.length (sent w)) items)).
Proof.
  induction items as [|item rest IH]; intros w pending Hdb.
  - cbn. lia.
  - cbn [sync_each delivered].
    destruct (sync_step_run item w pending Hdb)
      as (w2 & Hrun & Hs & Hdb2 & Hcon & Hnet).
    rewrite (bind_Return _ _ _ _ _ Hrun).
    rewrite (IH w2 _ Hdb2), Hcon, Hnet, Hs. cbn [List.length].
    rewrite length_app.
    pose proof (length_delivered (network w) rest
                  (S (List.length (sent w)))) as Hle.
    destruct (accepted _); cbn [List.length]; lia.
Qed.

(** X21. The loop of [syncPendingReports], run on an array of records while
    the store is open: it completes without throwing; every record of the
    array is posted once, in the order of the array, whatever happened to the
    earlier ones; the records left in the store are those that were there and
    whose delivery was not accepted (or that were not in the array); and one
    line is logged for each delivery that failed. *)
Theorem sync_loop_attempts_each_record_once items w pending :
  indexedDB w = Stored pending ->
  let gone := delivered (network w) (List.length (sent w)) items in
  exists w' pending',
    sync_each VDatabase items w = (w', Return tt)
    /\ sent w'
       = rev (map (fun item => POST_generate (data item)) items) ++ sent w
    /\ indexedDB w' = Stored pending'
    /\ (forall r, In r pending' <-> In r pending /\ ~ In (id r) gone)
    /\ List.length (console w')
       = List.length (console w)
         + (List.length items - List.length gone).
Proof.
  intros Hdb gone.
  destruct (sync_each_run items w pending Hdb)
    as (w' & Hrun & Hs & Hdb' & _).
  exists w', (fold_left (fun l key => without key l) gone pending).
  split; [exact Hrun|]. split; [exact Hs|]. split; [exact Hdb'|]. split.
  - intros r. apply In_fold_without.
  - pose proof (sync_each_console items w pending Hdb) as H.
    rewrite Hrun in H. exact H.
Qed.

Lemma sync_loop_attempts_each_record_once_witness :
  let w := Example.world Example.second_fails []
                         (Stored Example.three_queued) in
  exists w',
    sync_each VDatabase Example.three_queued w = (w', Return tt)
    /\ List.length (sent w') = 3
    /\ List.length (console w') = 1.
Proof.
  intros w.
  destruct (sync_loop_attempts_each_record_once Example.three_queued w
              Example.three_queued eq_refl)
    as (w' & pending' & Hrun & Hs & _ & _ & Hc).
  exists w'. split; [exact Hrun|]. rewrite Hs, Hc. split; reflexivity.
Defined.

(** X22. The ['sync'] listener changes nothing.  Whatever the tag and the
    state of the worker, the event leaves the world as it was: no request is
    sent and no record leaves the store.  For another tag than
    [sync-reports] the listener does nothing and completes; for
    [sync-reports] the promise it hands to [waitUntil] rejects. *)
Theorem on_sync_leaves_the_world (tag : string) (w : World) :
  fst (on_sync tag w) = w
  /\ (tag <> "sync-reports" -> snd (on_sync tag w) = Return tt)
  /\ (tag = "sync-reports" -> exists e, snd (on_sync tag w) = Throw e).
Proof.
  unfold on_sync. destruct (String.eqb_spec tag "sync-reports") as [->|Hne].
  - rewrite syncPendingReports_run. cbn [fst snd].
    split; [reflexivity|]. split; [congruence|].
    intros _. destruct (indexedDB w); eauto.
  - split; [reflexivity|]. split; [reflexivity|contradiction].
Qed.

End SyncMore.

(** ** The page after an error display is cleared *)

Section ClearDisplay.
Import Eff Dom Ux Frame.
Open Scope script_scope.

Lemma is_error_message_value pg h :
  live (document pg) h ->
  is_error_message h pg = (pg, Return (is_message (document pg) h)).
Proof.
  intros Hl. destruct h as [t|]; [|reflexivity].
  destruct (Hl t eq_refl) as [e He].
  unfold is_error_message, classList_contains, read, is_message.
  rewrite He. reflexivity.
Qed.

(** The search of [clearFieldError] away from the next sibling, with its
    answer. *)
Lemma clearFieldError_search_value pg p e (errorDiv : option path) :
  elem_at (document pg) p = Some e ->
  (wrapper <- closest (Some p) "input-wrapper" ;;
   parent <- match wrapper with
             | Some _ => ret wrapper
             | None => parentElement (Some p)
             end ;;
   match parent with
   | Some _ => querySelector parent "error-message"
   | None => ret errorDiv
   end) pg
  = (pg,
     Return
       match match closest_rev (document pg) "input-wrapper" (rev p) with
             | Some wrapper => Some wrapper
             | None => parent_of p
             end with
       | Some parent =>
           match node_at (document pg) parent with
           | Some n =>
               option_map (app parent)
                 (first_among (has_class "error-message") (children n) 0)
           | None => None
           end
       | None => errorDiv
       end).
Proof.
  intros He. unfold bind at 1. unfold closest at 1.
  destruct (closest_rev (document pg) "input-wrapper" (rev p)) as [wp|] eqn:Ew.
  - destruct (closest_rev_sound _ _ _ _ Ew) as [n Hn].
    unfold bind at 1. unfold ret at 1. unfold querySelector. rewrite Hn.
    reflexivity.
  - unfold bind at 1. unfold parentElement at 1.
    destruct (parent_of p) as [par|] eqn:Ep; [|reflexivity].
    unfold parent_of in Ep.
    destruct (split_last p) as [[par' k]|] eqn:Es; [|discriminate].
    cbn in Ep. inversion Ep; subst.
    destruct (elem_at_Some_node_at _ _ _ He) as [n Hn].
    destruct (node_at_parent _ _ _ _ _ Es Hn) as [m Hm].
    unfold querySelector. rewrite Hm. reflexivity.
Qed.

Lemma error_div_of_live d p e :
  elem_at d p = Some e -> live d (error_div_of d p).
Proof.
  intros He t Ht. unfold error_div_of in Ht.
  destruct (is_message d (next_sibling_of d p)) eqn:Em.
  - apply (next_sibling_of_exists _ _ _ Ht).
  - destruct (match closest_rev d "input-wrapper" (rev p) with
              | Some wrapper => Some wrapper
              | None => parent_of p
              end) as [par|].
    + destruct (node_at d par) as [n|] eqn:En; [|discriminate].
      destruct (first_among (has_class "error-message") (children n) 0)
        as [q|] eqn:Eq; [|discriminate].
      cbn in Ht. inversion Ht; subst.
      destruct (first_among_sound _ _ _ Eq) as (e' & He' & _).
      exists e'. rewrite (elem_at_app _ _ _ _ En). exact He'.
    + apply (next_sibling_of_exists _ _ _ Ht).
Qed.

(** The last step of [clearFieldError], with the page it leaves. *)
Lemma clearFieldError_hide_value pg h :
  live (document pg) h ->
  (found <- is_error_message h ;;
   if found then classList_remove h "show" else ret tt) pg
  = (mkPage match h with
            | Some t =>
                if is_message (document pg) (Some t)
                then update_at (with_classList (fun l => remove l "show")) t
                               (document pg)
                else document pg
            | None => document pg
            end (activeElement pg) (scrolledIntoView pg), Return tt).
Proof.
  intros Hl. rewrite (bind_Return _ _ _ _ _ (is_error_message_value pg h Hl)).
  destruct h as [t|]; [|destruct pg; reflexivity].
  destruct (is_message (document pg) (Some t)); [reflexivity|].
  destruct pg; reflexivity.
Qed.

(** [clearFieldError] on a field of the page, in full. *)
Lemma clearFieldError_page pg p e :
  elem_at (document pg) p = Some e ->
  clearFieldError (Some p) pg
  = (mkPage (after_clearFieldError (document pg) p) (activeElement pg)
            (scrolledIntoView pg), Return tt).
Proof.
  intros He. unfold after_clearFieldError.
  set (f := with_classList (fun l => remove l "input-error")).
  set (d1 := update_at f p (document pg)).
  set (pg1 := mkPage d1 (activeElement pg) (scrolledIntoView pg)).
  assert (He1 : elem_at (document pg1) p = Some (f e))
    by (apply elem_at_update_at_same; assumption).
  assert (Hsib : live (document pg1) (next_sibling_of d1 p)).
  { intros s Hs. apply (next_sibling_of_exists _ _ _ Hs). }
  pose proof (error_div_of_live d1 p (f e) He1) as Hlive.
  unfold clearFieldError.
  rewrite (bind_Return _ _ pg pg1 tt) by reflexivity.
  rewrite (bind_Return _ _ pg1 pg1 (next_sibling_of d1 p)) by reflexivity.
  rewrite (bind_Return _ _ _ _ _ (is_error_message_value pg1 _ Hsib)).
  cbn [pg1 document] in *. unfold error_div_of in *.
  destruct (is_message d1 (next_sibling_of d1 p)) eqn:Em; cbn [negb].
  - rewrite (bind_Return _ _ pg1 pg1 (next_sibling_of d1 p)) by reflexivity.
    rewrite (bind_Return _ _ _ _ _ (is_error_message_value pg1 _ Hsib)).
    cbn [pg1 document]. rewrite Em.
    destruct (next_sibling_of d1 p) as [s|]; [|discriminate].
    rewrite Em. reflexivity.
  - rewrite (bind_Return _ _ _ _ _
               (clearFieldError_search_value pg1 p (f e) _ He1)).
    cbn [pg1 document].
    destruct (closest_rev d1 "input-wrapper" (rev p)) as [par|];
      [|destruct (parent_of p) as [par|]];
      try (destruct (node_at d1 par) as [n|];
           [destruct (first_among (has_class "error-message") (children n) 0)
              as [q|]|]);
      cbn [option_map] in *;
      apply (clearFieldError_hide_value pg1 _ Hlive).
Qed.

Lemma is_message_skeleton d h : is_message (skeleton d) h = is_message d h.
Proof.
  destruct h as [t|]; [|reflexivity]. unfold is_message.
  rewrite elem_at_skeleton. destruct (elem_at d t) as [e|]; [|reflexivity].
  cbn [option_map]. apply has_class_erase. reflexivity.
Qed.

Lemma next_sibling_of_skeleton d p :
  next_sibling_of (skeleton d) p = next_sibling_of d p.
Proof.
  unfold next_sibling_of. destruct (split_last p) as [[par k]|]; auto.
  rewrite node_at_skeleton. destruct (node_at d (par ++ [S k])); reflexivity.
Qed.

Lemma closest_rev_skeleton d cls rp :
  is_error_class cls = false ->
  closest_rev (skeleton d) cls rp = closest_rev d cls rp.
Proof.
  intros Hc. induction rp as [|i up IH]; cbn [closest_rev];
    rewrite elem_at_skeleton;
    destruct (elem_at d (rev _)) as [e|]; cbn [option_map]; auto;
    change (contains (classList (erase e)) cls) with (has_class cls (erase e));
    rewrite (has_class_erase cls e Hc); unfold has_class;
    destruct (contains (classList e) cls); auto.
Qed.

Lemma error_div_of_skeleton d p :
  error_div_of (skeleton d) p = error_div_of d p.
Proof.
  unfold error_div_of.
  rewrite next_sibling_of_skeleton, is_message_skeleton.
  rewrite (closest_rev_skeleton d "input-wrapper" (rev p) eq_refl).
  destruct (is_message d (next_sibling_of d p)); [reflexivity|].
  destruct (match closest_rev d "input-wrapper" (rev p) with
            | Some wrapper => Some wrapper
            | None => parent_of p
            end) as [par|]; [|reflexivity].
  rewrite node_at_skeleton. destruct (node_at d par) as [[e cs]|];
    [|reflexivity].
  cbn [option_map skeleton children]. f_equal.
  apply first_among_skeleton. intros c _.
  apply first_match_skeleton. intros e'. apply has_class_erase. reflexivity.
Qed.

Lemma error_div_of_same d d' p :
  skeleton d = skeleton d' -> error_div_of d p = error_div_of d' p.
Proof.
  intros H. rewrite <- (error_div_of_skeleton d), <- (error_div_of_skeleton d'),
    H. reflexivity.
Qed.

Lemma is_message_same d d' h :
  skeleton d = skeleton d' -> is_message d h = is_message d' h.
Proof.
  intros H. rewrite <- (is_message_skeleton d), <- (is_message_skeleton d'), H.
  reflexivity.
Qed.

Lemma with_classList_fix f e :
  f (classList e) = classList e -> with_classList f e = e.
Proof. intros H. destruct e. unfold with_classList. cbn in *. congruence. Qed.

Lemma after_clearFieldError_skeleton d p :
  skeleton (after_clearFieldError d p) = skeleton d.
Proof.
  unfold after_clearFieldError.
  assert (H1 : skeleton
                 (update_at (with_classList (fun l => remove l "input-error"))
                            p d) = skeleton d)
    by (apply skeleton_update_at; intros; apply erase_remove; reflexivity).
  destruct (error_div_of _ p) as [t|]; [|exact H1].
  destruct (is_message _ (Some t)); [|exact H1].
  rewrite skeleton_update_at; [exact H1|].
  intros; apply erase_remove; reflexivity.
Qed.

(** X23. [clearFieldError] on a field of the page completes, and clearing
    again changes nothing further.  Apart from the field itself, it changes
    no element other than one that carries [error-message]. *)
Theorem clearFieldError_twice pg p e :
  elem_at (document pg) p = Some e ->
  let pg1 := fst (clearFieldError (Some p) pg) in
  clearFieldError (Some p) pg = (pg1, Return tt)
  /\ clearFieldError (Some p) pg1 = (pg1, Return tt)
  /\ (forall q eq,
        q <> p -> elem_at (document pg) q = Some eq ->
        has_class "error-message" eq = false ->
        elem_at (document pg1) q = Some eq).
Proof.
  intros He. rewrite (clearFieldError_page pg p e He). cbn [fst].
  split; [reflexivity|].
  set (f := with_classList (fun l => remove l "input-error")).
  set (g := with_classList (fun l => remove l "show")).
  set (d := document pg).
  set (d1 := update_at f p d).
  set (d2 := after_clearFieldError d p).
  assert (He1 : elem_at d1 p = Some (f e))
    by (apply elem_at_update_at_same; assumption).
  assert (Hd2 : d2 = match error_div_of d1 p with
                     | Some t => if is_message d1 (Some t)
                                 then update_at g t d1 else d1
                     | None => d1
                     end) by reflexivity.
  assert (Hsk12 : skeleton d2 = skeleton d1).
  { unfold d2. rewrite after_clearFieldError_skeleton. symmetry.
    apply skeleton_update_at. intros; apply erase_remove; reflexivity. }
  assert (Hp2 : exists e2, elem_at d2 p = Some e2
                           /\ has_class "input-error" e2 = false).
  { rewrite Hd2. destruct (error_div_of d1 p) as [t|];
      [destruct (is_message d1 (Some t))|].
    - rewrite elem_at_update_at, He1. destruct (path_eqb t p).
      + eexists. split; [reflexivity|]. unfold has_class, g, f.
        cbn [classList with_classList].
        rewrite contains_remove_other by discriminate.
        apply contains_remove_same.
      + eexists. split; [reflexivity|]. unfold has_class, f.
        cbn [classList with_classList]. apply contains_remove_same.
    - eexists. split; [exact He1|]. unfold has_class, f.
      cbn [classList with_classList]. apply contains_remove_same.
    - eexists. split; [exact He1|]. unfold has_class, f.
      cbn [classList with_classList]. apply contains_remove_same. }
  destruct Hp2 as (e2 & He2 & Hno).
  split.
  - set (pg2 := mkPage d2 (activeElement pg) (scrolledIntoView pg)).
    rewrite (clearFieldError_page pg2 p e2 He2).
    cbn [pg2 document activeElement scrolledIntoView]. unfold pg2.
    f_equal. f_equal.
    unfold after_clearFieldError. fold f. fold g.
    assert (Hfix : update_at f p d2 = d2).
    { apply (update_at_fix _ _ _ _ He2). apply with_classList_fix.
      apply remove_absent_class. exact Hno. }
    rewrite Hfix, (error_div_of_same d2 d1 p Hsk12).
    destruct (error_div_of d1 p) as [t|] eqn:Et; [|reflexivity].
    rewrite (is_message_same d2 d1 (Some t) Hsk12).
    destruct (is_message d1 (Some t)) eqn:Em; [|reflexivity].
    assert (Ht : exists et, elem_at d1 t = Some et).
    { unfold is_message in Em. destruct (elem_at d1 t); [eauto|discriminate]. }
    destruct Ht as [et Het].
    assert (Het2 : elem_at d2 t = Some (g et))
      by (rewrite Hd2; apply elem_at_update_at_same; exact Het).
    apply (update_at_fix _ _ _ _ Het2). apply with_classList_fix.
    apply remove_absent_class. unfold g. cbn [classList with_classList].
    apply contains_remove_same.
  - intros q eq Hq Heq Hm. cbn [document]. fold d d2. fold d in Heq.
    assert (Hq1 : elem_at d1 q = Some eq)
      by (unfold d1; rewrite elem_at_update_at, path_eqb_neq by congruence;
          exact Heq).
    rewrite Hd2. destruct (error_div_of d1 p) as [t|]; [|exact Hq1].
    destruct (is_message d1 (Some t)) eqn:Em; [|exact Hq1].
    rewrite elem_at_update_at. destruct (path_eqb t q) eqn:E; [|exact Hq1].
    apply path_eqb_eq in E. subst t. unfold is_message in Em.
    rewrite Hq1 in Em. congruence.
Qed.

Lemma clearFieldError_twice_witness :
  let pg1 := fst (clearFieldError (Some [0]) Example.flagged_page) in
  clearFieldError (Some [0]) pg1 = (pg1, Return tt).
Proof.
  intros pg1.
  apply (clearFieldError_twice Example.flagged_page [0]
           (mkElement "input" "ticket" ["input-error"] "12345" false "")
           eq_refl).
Defined.

End ClearDisplay.
